(** * Railguard: the pipeline orchestrator, its retry policy, its error
      taxonomy and its schema enforcement, embedded in Rocq.

    The Go package [railguard] is translated function by function: the
    retry policy ([RetryConfig], [Validate], [delay], [backoff],
    [shouldRetry]), the error types, the schema ([Schema], [NewSchema],
    [Unmarshal]), the functional options of options.go and the guard of
    railguard.go ([Guard], [New], [Run]).  The parts of the Go standard
    library the package calls ([encoding/json]'s [Decoder],
    [errors.Is]/[errors.As], [context]) are modelled beside them.  So are
    the collaborators the packages [validators] and [detectors] supply: the
    length and JSON validators, the keyword and domain detectors. *)

From Stdlib Require Import ZArith QArith Qround Qpower Qminmax Lqa.
From Stdlib Require Import String Ascii List Bool Lia.
From Stdlib Require Import DecimalString.
Import ListNotations.

Set Warnings "-register-all".
Local Open Scope string_scope.
Local Open Scope Z_scope.

(** ** Go's [error] values

    An [error] is a chain: every wrapper links to its cause through
    [Unwrap].  A Go [error] that may be [nil] is an [option error].  The
    errors the package and the libraries it calls build have a constructor
    each; an error of any other type is a [foreignError], known by what
    package [errors] asks of it. *)

Inductive error : Type :=
  (* errors.New / fmt.Errorf without %w: a leaf carrying its text *)
| errorString (msg : string)
  (* fmt.Errorf with one %w verb: the format and the operand of %w *)
| wrapError (format : string) (err : error)
  (* the sentinel values of package context *)
| context_Canceled
| context_DeadlineExceeded
  (* the errors of io and encoding/json met while decoding *)
| io_EOF
| io_ErrUnexpectedEOF
| json_SyntaxError
| json_UnmarshalTypeError (Value : string) (Field : string)
| json_unknownField (key : string)
  (* the error types of the package *)
| DetectionError (Detector : string) (Err : option error)
| ValidationError (Validator : string) (Err : option error)
| SchemaError (Err : option error)
| GenerationError (Err : option error)
| MaxRetriesError (Attempts : Z) (LastErr : option error)
  (* an error of another type: its text, the targets its method [Is]
     answers true to (none without the method), the [*DetectionError] its
     method [As] stores (none without the method), and the errors its
     method [Unwrap] returns: at most one for [Unwrap() error], any number
     for [Unwrap() []error] ([errors.Join], [fmt.Errorf] with several %w) *)
| foreignError (text : string) (is_targets : list error)
    (as_DetectionError : option error) (unwrapped : list error).

(** ** Go types and values, as far as schemas use them

    A schema's target is a struct type.  The model covers struct types whose
    fields have kind [string], [int] or [bool], the kinds of every target
    type in the package's documentation and tests.  A field is known by the
    name [encoding/json] gives it (its [json] tag); the names of one struct
    type are pairwise distinct. *)

Module Reflect.

Inductive Scalar : Type := KBool | KInt | KString.

Record StructField : Type := mkField { Name : string; Kind : Scalar }.

Definition StructType : Type := list StructField.

(** [reflect.Type] *)
Inductive GoType : Type :=
| Basic (k : Scalar)
| StructOf (t : StructType)
| PtrTo (elem : GoType).

(** The value of a field, and a struct value: its fields in the order of
    its type. *)
Inductive Value : Type := VBool (b : bool) | VInt (n : Z) | VString (s : string).

Definition StructValue : Type := list (string * Value).

Definition Zero (k : Scalar) : Value :=
  match k with
  | KBool => VBool false
  | KInt => VInt 0
  | KString => VString EmptyString
  end.

(** [reflect.New(t)]: a pointer to the zero value of the struct type *)
Definition New (t : StructType) : StructValue :=
  map (fun f => (Name f, Zero (Kind f))) t.

Fixpoint SetField (v : StructValue) (name : string) (x : Value) : StructValue :=
  match v with
  | [] => []
  | (n, y) :: v' =>
      if (n =? name)%string then (n, x) :: v' else (n, y) :: SetField v' name x
  end.

Fixpoint Field (v : StructValue) (name : string) : option Value :=
  match v with
  | [] => None
  | (n, y) :: v' => if (n =? name)%string then Some y else Field v' name
  end.

End Reflect.

(** ** A model of [encoding/json]: the scanner and [Decoder] *)

Module EncodingJSON.
Import Reflect.

(** A JSON text is a Go [[]byte]: a [string] of 8-bit characters. *)

Definition dquote : ascii := "034"%char.
Definition backslash : ascii := "092"%char.

(** [q s] is [s] with every apostrophe replaced by a double quote, so that
    JSON texts can be written legibly: [q "{'name':'x'}"]. *)
Fixpoint q (s : string) : string :=
  match s with
  | EmptyString => EmptyString
  | String c s' => String (if (c =? "'")%char then dquote else c) (q s')
  end.

Definition code (c : ascii) : N := N_of_ascii c.

Definition in_range (lo hi c : ascii) : bool :=
  ((code lo <=? code c) && (code c <=? code hi))%N.

Definition isSpace (c : ascii) : bool :=
  (c =? " ")%char || (c =? "009")%char || (c =? "013")%char || (c =? "010")%char.

Definition isDigit (c : ascii) : bool := in_range "0" "9" c.

Definition isHex (c : ascii) : bool :=
  in_range "0" "9" c || in_range "a" "f" c || in_range "A" "F" c.

Fixpoint string_of_list (l : list ascii) : string :=
  match l with
  | [] => EmptyString
  | c :: l' => String c (string_of_list l')
  end.

(** The tree of a JSON value.  A number keeps its literal text and a string
    its bytes between the quotes, escapes not yet decoded. *)
Inductive json : Type :=
| JNull
| JBool (b : bool)
| JNumber (lit : string)
| JString (raw : string)
| JArray (elems : list json)
| JObject (members : list (string * json)).

(** *** scanner.go *)

Inductive opcode : Type :=
| scanContinue | scanBeginLiteral | scanBeginObject | scanObjectKey
| scanObjectValue | scanEndObject | scanBeginArray | scanArrayValue
| scanEndArray | scanSkipSpace | scanEnd | scanError.

(** The entries of the scanner's [parseState] stack.  Each carries what has
    been read of its composite value so far, newest first. *)
Inductive frame : Type :=
| parseObjectKey (done : list (string * json))
| parseObjectValue (done : list (string * json)) (key : string)
| parseArrayValue (done : list json).

(** The scanner's [step] field ranges over these state functions. *)
Inductive stepfn : Type :=
| StBeginValue | StBeginValueOrEmpty | StBeginStringOrEmpty | StBeginString
| StEndValue | StEndTop
| StInString | StInStringEsc | StInStringEscU | StInStringEscU1
| StInStringEscU12 | StInStringEscU123
| StNeg | St1 | St0 | StDot | StDot0 | StE | StESign | StE0
| StT | StTr | StTru | StF | StFa | StFal | StFals | StN | StNu | StNul
| StError.

Record scanner : Type := mkScanner {
  step : stepfn;
  parseState : list frame;
  lit : list ascii;       (* the literal being read, newest byte first *)
  value : option json     (* the value completed last, not yet attached *)
}.

Definition maxNestingDepth : N := 10000.

Definition reset : scanner := mkScanner StBeginValue [] [] None.

Definition set_step (s : scanner) (f : stepfn) : scanner :=
  mkScanner f (parseState s) (lit s) (value s).

(** [s.error(c, context)] *)
Definition scan_error (s : scanner) : opcode * scanner :=
  (scanError, set_step s StError).

(** a byte of a literal that goes on *)
Definition continue (s : scanner) (c : ascii) (f : stepfn) : opcode * scanner :=
  (scanContinue, mkScanner f (parseState s) (c :: lit s) (value s)).

(** the first byte of a literal *)
Definition beginLiteral (s : scanner) (c : ascii) (f : stepfn) : opcode * scanner :=
  (scanBeginLiteral, mkScanner f (parseState s) [c] None).

(** the last byte of a literal whose value is [v] *)
Definition endLiteral (s : scanner) (v : json) : opcode * scanner :=
  (scanContinue, mkScanner StEndValue (parseState s) [] (Some v)).

Definition pushParseState (s : scanner) (newParseState : frame)
    (f : stepfn) (successState : opcode) : opcode * scanner :=
  let ps := newParseState :: parseState s in
  if (N.of_nat (length ps) <=? maxNestingDepth)%N
  then (successState, mkScanner f ps [] None)
  else scan_error (mkScanner f ps [] None).

(** [popParseState], called when the composite value [v] is complete *)
Definition popParseState (s : scanner) (v : json) : scanner :=
  match parseState s with
  | [] => s
  | _ :: ps =>
      mkScanner (match ps with [] => StEndTop | _ => StEndValue end)
                ps [] (Some v)
  end.

Definition stateEndTop (s : scanner) (c : ascii) : opcode * scanner :=
  if negb (isSpace c)
  then (scanEnd, set_step s StError)  (* complain on the next call *)
  else (scanEnd, s).

(** [attach done v] adds the pending value, if any, to what is done *)
Definition attach {A : Type} (mk : json -> A) (v : option json) (done : list A) : list A :=
  match v with
  | Some j => mk j :: done
  | None => done
  end.

Definition stateEndValue (s : scanner) (c : ascii) : opcode * scanner :=
  match parseState s with
  | [] => stateEndTop (set_step s StEndTop) c
  | top :: ps =>
      if isSpace c then (scanSkipSpace, set_step s StEndValue)
      else match top with
      | parseObjectKey done =>
          if (c =? ":")%char then
            match value s with
            | Some (JString key) =>
                (scanObjectKey,
                 mkScanner StBeginValue (parseObjectValue done key :: ps) [] None)
            | _ => scan_error s
            end
          else scan_error s
      | parseObjectValue done key =>
          let done' := attach (fun j => (key, j)) (value s) done in
          if (c =? ",")%char then
            (scanObjectValue,
             mkScanner StBeginString (parseObjectKey done' :: ps) [] None)
          else if (c =? "}")%char then
            (scanEndObject, popParseState s (JObject (rev done')))
          else scan_error s
      | parseArrayValue done =>
          let done' := attach (fun j => j) (value s) done in
          if (c =? ",")%char then
            (scanArrayValue,
             mkScanner StBeginValue (parseArrayValue done' :: ps) [] None)
          else if (c =? "]")%char then
            (scanEndArray, popParseState s (JArray (rev done')))
          else scan_error s
      end
  end.

(** a number ends at a byte that cannot continue it *)
Definition endNumber (s : scanner) (c : ascii) : opcode * scanner :=
  stateEndValue
    (mkScanner (step s) (parseState s) []
               (Some (JNumber (string_of_list (rev (lit s)))))) c.

Definition stateBeginString (s : scanner) (c : ascii) : opcode * scanner :=
  if isSpace c then (scanSkipSpace, s)
  else if (c =? dquote)%char then
    (scanBeginLiteral, mkScanner StInString (parseState s) [] None)
  else scan_error s.

Definition stateBeginStringOrEmpty (s : scanner) (c : ascii) : opcode * scanner :=
  if isSpace c then (scanSkipSpace, s)
  else if (c =? "}")%char then
    match parseState s with
    | parseObjectKey done :: ps =>
        stateEndValue
          (mkScanner (step s) (parseObjectValue done EmptyString :: ps) [] None) c
    | _ => stateEndValue s c
    end
  else stateBeginString (set_step s StBeginString) c.

Definition stateBeginValue (s : scanner) (c : ascii) : opcode * scanner :=
  if isSpace c then (scanSkipSpace, s)
  else if (c =? "{")%char then
    pushParseState s (parseObjectKey []) StBeginStringOrEmpty scanBeginObject
  else if (c =? "[")%char then
    pushParseState s (parseArrayValue []) StBeginValueOrEmpty scanBeginArray
  else if (c =? dquote)%char then
    (scanBeginLiteral, mkScanner StInString (parseState s) [] None)
  else if (c =? "-")%char then beginLiteral s c StNeg
  else if (c =? "0")%char then beginLiteral s c St0
  else if (c =? "t")%char then beginLiteral s c StT
  else if (c =? "f")%char then beginLiteral s c StF
  else if (c =? "n")%char then beginLiteral s c StN
  else if in_range "1" "9" c then beginLiteral s c St1
  else scan_error s.

Definition stateBeginValueOrEmpty (s : scanner) (c : ascii) : opcode * scanner :=
  if isSpace c then (scanSkipSpace, s)
  else if (c =? "]")%char then stateEndValue s c
  else stateBeginValue (set_step s StBeginValue) c.

Definition stateInString (s : scanner) (c : ascii) : opcode * scanner :=
  if (c =? dquote)%char then
    endLiteral s (JString (string_of_list (rev (lit s))))
  else if (c =? backslash)%char then continue s c StInStringEsc
  else if (code c <? 32)%N then scan_error s
  else continue s c StInString.

Definition stateInStringEsc (s : scanner) (c : ascii) : opcode * scanner :=
  if (c =? "b")%char || (c =? "f")%char || (c =? "n")%char || (c =? "r")%char
     || (c =? "t")%char || (c =? backslash)%char || (c =? "/")%char
     || (c =? dquote)%char
  then continue s c StInString
  else if (c =? "u")%char then continue s c StInStringEscU
  else scan_error s.

Definition stateHex (next : stepfn) (s : scanner) (c : ascii) : opcode * scanner :=
  if isHex c then continue s c next else scan_error s.

Definition state0 (s : scanner) (c : ascii) : opcode * scanner :=
  if (c =? ".")%char then continue s c StDot
  else if (c =? "e")%char || (c =? "E")%char then continue s c StE
  else endNumber s c.

Definition state1 (s : scanner) (c : ascii) : opcode * scanner :=
  if isDigit c then continue s c St1 else state0 s c.

Definition stateNeg (s : scanner) (c : ascii) : opcode * scanner :=
  if (c =? "0")%char then continue s c St0
  else if in_range "1" "9" c then continue s c St1
  else scan_error s.

Definition stateDot (s : scanner) (c : ascii) : opcode * scanner :=
  if isDigit c then continue s c StDot0 else scan_error s.

Definition stateDot0 (s : scanner) (c : ascii) : opcode * scanner :=
  if isDigit c then continue s c StDot0
  else if (c =? "e")%char || (c =? "E")%char then continue s c StE
  else endNumber s c.

Definition stateESign (s : scanner) (c : ascii) : opcode * scanner :=
  if isDigit c then continue s c StE0 else scan_error s.

Definition stateE (s : scanner) (c : ascii) : opcode * scanner :=
  if (c =? "+")%char || (c =? "-")%char then continue s c StESign
  else stateESign s c.

Definition stateE0 (s : scanner) (c : ascii) : opcode * scanner :=
  if isDigit c then continue s c StE0 else endNumber s c.

(** the states inside [true], [false] and [null] *)
Definition stateExpect (want : ascii) (next : stepfn) (s : scanner) (c : ascii)
    : opcode * scanner :=
  if (c =? want)%char then continue s c next else scan_error s.

Definition stateLast (want : ascii) (v : json) (s : scanner) (c : ascii)
    : opcode * scanner :=
  if (c =? want)%char then endLiteral s v else scan_error s.

(** [s.step(s, c)] *)
Definition scan_step (s : scanner) (c : ascii) : opcode * scanner :=
  match step s with
  | StBeginValue => stateBeginValue s c
  | StBeginValueOrEmpty => stateBeginValueOrEmpty s c
  | StBeginStringOrEmpty => stateBeginStringOrEmpty s c
  | StBeginString => stateBeginString s c
  | StEndValue => stateEndValue s c
  | StEndTop => stateEndTop s c
  | StInString => stateInString s c
  | StInStringEsc => stateInStringEsc s c
  | StInStringEscU => stateHex StInStringEscU1 s c
  | StInStringEscU1 => stateHex StInStringEscU12 s c
  | StInStringEscU12 => stateHex StInStringEscU123 s c
  | StInStringEscU123 => stateHex StInString s c
  | StNeg => stateNeg s c
  | St1 => state1 s c
  | St0 => state0 s c
  | StDot => stateDot s c
  | StDot0 => stateDot0 s c
  | StE => stateE s c
  | StESign => stateESign s c
  | StE0 => stateE0 s c
  | StT => stateExpect "r" StTr s c
  | StTr => stateExpect "u" StTru s c
  | StTru => stateLast "e" (JBool true) s c
  | StF => stateExpect "a" StFa s c
  | StFa => stateExpect "l" StFal s c
  | StFal => stateExpect "s" StFals s c
  | StFals => stateLast "e" (JBool false) s c
  | StN => stateExpect "u" StNu s c
  | StNu => stateExpect "l" StNul s c
  | StNul => stateLast "l" JNull s c
  | StError => (scanError, s)
  end.

(** *** stream.go: [Decoder.readValue] *)

Definition nonSpace (b : string) : bool :=
  existsb (fun c => negb (isSpace c)) (list_ascii_of_string b).

(** The outcome of reading one value off the input: the value and the bytes
    left in the decoder's buffer, or the error of [readValue]. *)
Inductive readResult : Type :=
| ReadValue (v : json) (rest : string)
| ReadError (e : error).

Definition the_value (s : scanner) (rest : string) : readResult :=
  match value s with
  | Some v => ReadValue v rest
  | None => ReadError json_SyntaxError
  end.

Fixpoint readValue_from (data : string) (s : scanner) (buf : string) : readResult :=
  match buf with
  | EmptyString =>
      (* the reader is at its end *)
      let (op, s') := scan_step s " " in
      match op with
      | scanEnd => the_value s' EmptyString
      | _ => if nonSpace data then ReadError io_ErrUnexpectedEOF
             else ReadError io_EOF
      end
  | String c rest =>
      let (op, s') := scan_step s c in
      match op with
      | scanEnd => the_value s' buf       (* scanEnd is delayed one byte *)
      | scanEndObject | scanEndArray =>
          let (op', s'') := stateEndValue s' " " in
          match op' with
          | scanEnd => the_value s'' rest
          | _ => readValue_from data s'' rest
          end
      | scanError => ReadError json_SyntaxError
      | _ => readValue_from data s' rest
      end
  end.

Definition readValue (data : string) : readResult :=
  readValue_from data reset data.

(** *** decode.go: string literals *)

Definition byte_of (n : N) : ascii := ascii_of_N n.

Definition hexval (c : ascii) : N :=
  if isDigit c then code c - 48
  else if in_range "a" "f" c then code c - 87
  else code c - 55.

Definition hex4 (h1 h2 h3 h4 : ascii) : N :=
  (((hexval h1 * 16 + hexval h2) * 16 + hexval h3) * 16 + hexval h4)%N.

Definition RuneError : N := 65533.   (* U+FFFD *)

Definition isSurrogate (r : N) : bool := ((55296 <=? r) && (r <? 57344))%N.

(** [utf16.DecodeRune] *)
Definition utf16_DecodeRune (r1 r2 : N) : N :=
  if ((55296 <=? r1) && (r1 <? 56320) && (56320 <=? r2) && (r2 <? 57344))%N
  then ((r1 - 55296) * 1024 + (r2 - 56320) + 65536)%N
  else RuneError.

(** [utf8.AppendRune] *)
Definition encodeRune (r : N) : string :=
  let cont (n : N) := byte_of (128 + n mod 64)%N in
  if (r <=? 127)%N then String (byte_of r) EmptyString
  else if (r <=? 2047)%N then
    String (byte_of (192 + r / 64)%N) (String (cont r) EmptyString)
  else if isSurrogate r || (1114111 <? r)%N then
    String "239" (String "191" (String "189" EmptyString))
  else if (r <=? 65535)%N then
    String (byte_of (224 + r / 4096)%N)
      (String (cont (r / 64)%N) (String (cont r) EmptyString))
  else
    String (byte_of (240 + r / 262144)%N)
      (String (cont (r / 4096)%N)
         (String (cont (r / 64)%N) (String (cont r) EmptyString))).

Definition unescape (e : ascii) : ascii :=
  if (e =? "b")%char then "008"%char
  else if (e =? "f")%char then "012"%char
  else if (e =? "n")%char then "010"%char
  else if (e =? "r")%char then "013"%char
  else if (e =? "t")%char then "009"%char
  else e.

(** The length of the UTF-8 sequence a first byte announces (0: none), and
    the range [utf8.DecodeRune] accepts for its second byte. *)
Definition rune_len (c : ascii) : nat :=
  if (code c <? 128)%N then 1
  else if in_range "194" "223" c then 2
  else if in_range "224" "239" c then 3
  else if in_range "240" "244" c then 4
  else 0.

Definition contByte (c : ascii) : bool := in_range "128" "191" c.

Definition second_ok (c c1 : ascii) : bool :=
  if (c =? "224")%char then in_range "160" "191" c1
  else if (c =? "237")%char then in_range "128" "159" c1
  else if (c =? "240")%char then in_range "144" "191" c1
  else if (c =? "244")%char then in_range "128" "143" c1
  else contByte c1.

(** [unquote]: the string a literal stands for.  The literal has passed the
    scanner, so every escape in it is well formed.  Escapes are decoded, a
    surrogate half without its partner and every byte that is not valid
    UTF-8 become U+FFFD. *)
Fixpoint unquote (s : string) : string :=
  match s with
  | EmptyString => EmptyString
  | String c rest =>
      let bad := encodeRune RuneError ++ unquote rest in
      if (c =? backslash)%char then
        match rest with
        | EmptyString => EmptyString
        | String e rest1 =>
            if (e =? "u")%char then
              match rest1 with
              | String h1 (String h2 (String h3 (String h4 rest2))) =>
                  let rr := hex4 h1 h2 h3 h4 in
                  let alone := encodeRune RuneError ++ unquote rest2 in
                  if isSurrogate rr then
                    match rest2 with
                    | String b (String u (String g1 (String g2 (String g3 (String g4 rest3))))) =>
                        if (b =? backslash)%char && (u =? "u")%char
                           && isHex g1 && isHex g2 && isHex g3 && isHex g4
                        then
                          let dec := utf16_DecodeRune rr (hex4 g1 g2 g3 g4) in
                          if (dec =? RuneError)%N then alone
                          else encodeRune dec ++ unquote rest3
                        else alone
                    | _ => alone
                    end
                  else encodeRune rr ++ unquote rest2
              | _ => EmptyString
              end
            else String (unescape e) (unquote rest1)
        end
      else
        match rune_len c, rest with
        | 1%nat, _ => String c (unquote rest)
        | 2%nat, String c1 r1 =>
            if second_ok c c1 then String c (String c1 (unquote r1)) else bad
        | 3%nat, String c1 (String c2 r2) =>
            if second_ok c c1 && contByte c2
            then String c (String c1 (String c2 (unquote r2))) else bad
        | 4%nat, String c1 (String c2 (String c3 r3)) =>
            if second_ok c c1 && contByte c2 && contByte c3
            then String c (String c1 (String c2 (String c3 (unquote r3)))) else bad
        | _, _ => bad
        end
  end.

(** *** fold.go and the field index *)

(** the value of a sequence of two, three or four bytes that
    [utf8.DecodeRune] accepts *)
Definition rune2 (c c1 : ascii) : N :=
  (code c mod 32 * 64 + code c1 mod 64)%N.

Definition rune3 (c c1 c2 : ascii) : N :=
  ((code c mod 16 * 64 + code c1 mod 64) * 64 + code c2 mod 64)%N.

Definition rune4 (c c1 c2 c3 : ascii) : N :=
  (((code c mod 8 * 64 + code c1 mod 64) * 64 + code c2 mod 64) * 64
   + code c3 mod 64)%N.

(** an ASCII letter in upper case *)
Definition foldByte (c : ascii) : ascii :=
  if in_range "a" "z" c then byte_of (code c - 32)%N else c.

Fixpoint byExactName (fields : StructType) (key : string) : option StructField :=
  match fields with
  | [] => None
  | f :: fs => if (Name f =? key)%string then Some f else byExactName fs key
  end.

(** *** decode.go: storing a value *)

(** [strconv.ParseInt(s, 10, 64)] on the text of a JSON number *)
Fixpoint digits (acc : Z) (s : string) : option Z :=
  match s with
  | EmptyString => Some acc
  | String c s' =>
      if isDigit c then digits (acc * 10 + Z.of_N (code c - 48)) s' else None
  end.

Definition ParseInt (s : string) : option Z :=
  let ranged (n : option Z) :=
    match n with
    | Some z => if ((- 2 ^ 63 <=? z) && (z <=? 2 ^ 63 - 1))%Z then Some z else None
    | None => None
    end in
  match s with
  | EmptyString => None
  | String c s' =>
      if (c =? "-")%char then
        match s' with
        | EmptyString => None
        | _ => ranged (option_map Z.opp (digits 0 s'))
        end
      else ranged (digits 0 s)
  end.

(** [d.saveError]: the first error is the one kept *)
Definition saveError (saved : option error) (e : error) : option error :=
  match saved with
  | Some _ => saved
  | None => Some e
  end.

(** [d.value] on a field of kind [k] holding [old]: the new content of the
    field and the error to save, if any.  [null] leaves a field of these
    kinds as it is. *)
Definition storeField (name : string) (k : Scalar) (old : Value) (j : json)
    : Value * option error :=
  match j, k with
  | JNull, _ => (old, None)
  | JBool b, KBool => (VBool b, None)
  | JBool _, _ => (old, Some (json_UnmarshalTypeError "bool" name))
  | JString raw, KString => (VString (unquote raw), None)
  | JString _, _ => (old, Some (json_UnmarshalTypeError "string" name))
  | JNumber l, KInt =>
      match ParseInt l with
      | Some n => (VInt n, None)
      | None => (old, Some (json_UnmarshalTypeError ("number " ++ l) name))
      end
  | JNumber _, _ => (old, Some (json_UnmarshalTypeError "number" name))
  | JArray _, _ => (old, Some (json_UnmarshalTypeError "array" name))
  | JObject _, _ => (old, Some (json_UnmarshalTypeError "object" name))
  end.

Record decodeState : Type := mkDecodeState {
  target : StructValue;
  savedError : option error
}.

(** *** stream.go: [Decoder] *)

Record Decoder : Type := mkDecoder {
  buf : string;                   (* the bytes not yet read: buf[scanp:] and the reader *)
  disallowUnknownFields : bool;
  err : option error
}.

Definition NewDecoder (data : string) : Decoder := mkDecoder data false None.

Definition DisallowUnknownFields (dec : Decoder) : Decoder :=
  mkDecoder (buf dec) true (err dec).

(** [dec.peek()]: the next byte that is not a space, if there is one *)
Fixpoint peek (b : string) : option ascii :=
  match b with
  | EmptyString => None
  | String c b' => if isSpace c then peek b' else Some c
  end.

(** [dec.More()] *)
Definition More (dec : Decoder) : bool :=
  match peek (buf dec) with
  | Some c => negb (c =? "]")%char && negb (c =? "}")%char
  | None => false
  end.

End EncodingJSON.

(** ** Package [unicode/utf8] *)

Module Utf8.
Import EncodingJSON.

(** [utf8.RuneCountInString(s)]: the runes of [s], a byte that begins no
    valid sequence counting as one rune of width 1 *)
Fixpoint RuneCountInString (s : string) : Z :=
  match s with
  | EmptyString => 0
  | String c rest =>
      1 + match rune_len c, rest with
          | 2%nat, String c1 r1 =>
              if second_ok c c1 then RuneCountInString r1
              else RuneCountInString rest
          | 3%nat, String c1 (String c2 r2) =>
              if second_ok c c1 && contByte c2 then RuneCountInString r2
              else RuneCountInString rest
          | 4%nat, String c1 (String c2 (String c3 r3)) =>
              if second_ok c c1 && contByte c2 && contByte c3
              then RuneCountInString r3
              else RuneCountInString rest
          | _, _ => RuneCountInString rest
          end
  end.

End Utf8.

(** ** Packages [strings] and [strconv], as far as the detectors and the
    validators use them

    The functions are exact on texts of ASCII bytes.  Beyond ASCII they go
    through the tables of package [unicode]; there the model hands over to
    the functions of the section below, which stand for the library's. *)

Module Strings.
Import EncodingJSON.

(** [strings.HasPrefix(s, prefix)] *)
Fixpoint HasPrefix (s prefix : string) : bool :=
  match prefix, s with
  | EmptyString, _ => true
  | String p prefix', String c s' => (c =? p)%char && HasPrefix s' prefix'
  | String _ _, EmptyString => false
  end.

(** [strings.Contains(s, substr)] *)
Fixpoint Contains (s substr : string) : bool :=
  HasPrefix s substr ||
  match s with
  | EmptyString => false
  | String _ s' => Contains s' substr
  end.

(** the ASCII path of [strings.ToLower] *)
Definition lowerByte (c : ascii) : ascii :=
  if in_range "A" "Z" c then byte_of (code c + 32)%N else c.

Fixpoint lowerASCII (s : string) : string :=
  match s with
  | EmptyString => EmptyString
  | String c s' => String (lowerByte c) (lowerASCII s')
  end.

(** the digits of [strconv]'s [lowerhex] *)
Definition lowerhex (n : N) : ascii :=
  if (n <? 10)%N then byte_of (48 + n)%N else byte_of (87 + n)%N.

(** [strconv.Quote] on ASCII bytes: [appendEscapedRune] *)
Definition escapedByte (c : ascii) : string :=
  if (c =? dquote)%char || (c =? backslash)%char then String backslash (String c EmptyString)
  else if in_range " " "~" c then String c EmptyString
  else if (c =? "007")%char then String backslash "a"
  else if (c =? "008")%char then String backslash "b"
  else if (c =? "012")%char then String backslash "f"
  else if (c =? "010")%char then String backslash "n"
  else if (c =? "013")%char then String backslash "r"
  else if (c =? "009")%char then String backslash "t"
  else if (c =? "011")%char then String backslash "v"
  else String backslash
         (String "x" (String (lowerhex (code c / 16)%N)
                        (String (lowerhex (code c mod 16)%N) EmptyString))).

Fixpoint escapedASCII (s : string) : string :=
  match s with
  | EmptyString => EmptyString
  | String c s' => escapedByte c ++ escapedASCII s'
  end.

Definition quoteASCII (s : string) : string :=
  String dquote (escapedASCII s ++ String dquote EmptyString).

(** [asciiSpace] of package [strings] *)
Definition asciiSpace (c : ascii) : bool :=
  (c =? "009")%char || (c =? "010")%char || (c =? "011")%char
  || (c =? "012")%char || (c =? "013")%char || (c =? " ")%char.

(** the first loop of [strings.TrimSpace]: the text from the first byte
    that is no ASCII space *)
Fixpoint trimLeft (s : string) : string :=
  match s with
  | EmptyString => EmptyString
  | String c s' =>
      if (128 <=? code c)%N then s
      else if asciiSpace c then trimLeft s'
      else s
  end.

(** its second loop, on the bytes of the text from its end *)
Fixpoint trimRight (rev_s : list ascii) : list ascii :=
  match rev_s with
  | [] => []
  | c :: l =>
      if (128 <=? code c)%N then rev_s
      else if asciiSpace c then trimRight l
      else rev_s
  end.

End Strings.

(** ** [encoding/json]: [Unmarshal]

    [json.Unmarshal] first runs the scanner over the whole input
    ([checkValid]), then decodes the one value the input holds. *)

Module JSONUnmarshal.
Import Reflect EncodingJSON.

(** the loop of [checkValid]: [None] when a step returns [scanError] *)
Fixpoint checkValid_from (s : scanner) (data : string) : option scanner :=
  match data with
  | EmptyString => Some s
  | String c rest =>
      let (op, s') := scan_step s c in
      match op with
      | scanError => None
      | _ => checkValid_from s' rest
      end
  end.

(** [s.eof()].  The scanner has met an error when its step is [StError];
    its [endTop] is set when its step is [StEndTop]. *)
Definition eof (s : scanner) : opcode * scanner :=
  match step s with
  | StError => (scanError, s)
  | StEndTop => (scanEnd, s)
  | _ =>
      let (_, s') := scan_step s " " in
      match step s' with
      | StEndTop => (scanEnd, s')
      | _ => (scanError, s')
      end
  end.

(** [checkValid(data, scan)]: the value of a valid input, [None] for a
    syntax error *)
Definition checkValid (data : string) : option json :=
  match checkValid_from reset data with
  | None => None
  | Some s =>
      match eof s with
      | (scanEnd, s') => value s'
      | _ => None
      end
  end.

Section Interface.

(** whether [strconv.ParseFloat(s, 64)] returns no error for the text of a
    JSON number: whether the number is within the range of a [float64] *)
Variable ParseFloat_ok : string -> bool.

(** the error [d.valueInterface] saves: that of the first number, in the
    order of the input, that a [float64] does not hold *)
Fixpoint convertNumbers (j : json) : option error :=
  match j with
  | JNumber l =>
      if ParseFloat_ok l then None
      else Some (json_UnmarshalTypeError ("number " ++ l) EmptyString)
  | JArray es =>
      (fix elements (es : list json) : option error :=
         match es with
         | [] => None
         | e :: es' =>
             match convertNumbers e with
             | Some err => Some err
             | None => elements es'
             end
         end) es
  | JObject ms =>
      (fix members (ms : list (string * json)) : option error :=
         match ms with
         | [] => None
         | m :: ms' =>
             match convertNumbers (snd m) with
             | Some err => Some err
             | None => members ms'
             end
         end) ms
  | _ => None
  end.

(** [json.Unmarshal(data, &v)], [v] an empty [interface{}]: the value [v]
    holds afterwards ([None]: nothing was decoded) and the error *)
Definition Unmarshal_interface (data : string) : option json * option error :=
  match checkValid data with
  | None => (None, Some json_SyntaxError)
  | Some j => (Some j, convertNumbers j)
  end.

End Interface.

End JSONUnmarshal.

(** ** The development

    [encoding/json] matches the keys of an object with the fields of a
    struct exactly or, failing that, up to case: it compares the folded
    names, and [foldName] folds a letter beyond ASCII with [foldRune], the
    least rune of its orbit under [unicode.SimpleFold].  The orbits are
    those of the Unicode tables of the Go release; [foldRune] is a
    parameter of all that follows. *)

Section Railguard.

Variable foldRune : N -> N.

(** *** fold.go: [foldName], and the field a key names *)

Fixpoint foldName (s : string) : string :=
  match s with
  | EmptyString => EmptyString
  | String c rest =>
      (* Handle single-byte ASCII. *)
      if (EncodingJSON.code c <? 128)%N
      then String (EncodingJSON.foldByte c) (foldName rest)
      else
        (* Handle multi-byte Unicode: utf8.DecodeRune, which reads a byte
           that begins no valid sequence as U+FFFD of width 1 *)
        let folded (r : N) := EncodingJSON.encodeRune (foldRune r) in
        let invalid := folded EncodingJSON.RuneError ++ foldName rest in
        match EncodingJSON.rune_len c, rest with
        | 2%nat, String c1 r1 =>
            if EncodingJSON.second_ok c c1
            then folded (EncodingJSON.rune2 c c1) ++ foldName r1
            else invalid
        | 3%nat, String c1 (String c2 r2) =>
            if EncodingJSON.second_ok c c1 && EncodingJSON.contByte c2
            then folded (EncodingJSON.rune3 c c1 c2) ++ foldName r2
            else invalid
        | 4%nat, String c1 (String c2 (String c3 r3)) =>
            if EncodingJSON.second_ok c c1 && EncodingJSON.contByte c2
               && EncodingJSON.contByte c3
            then folded (EncodingJSON.rune4 c c1 c2 c3) ++ foldName r3
            else invalid
        | _, _ => invalid
        end
  end.

(** the first field, in the order of the struct, with the folded name *)
Fixpoint byFoldedName (fields : Reflect.StructType) (folded : string)
    : option Reflect.StructField :=
  match fields with
  | [] => None
  | f :: fs =>
      if (foldName (Reflect.Name f) =? folded)%string then Some f
      else byFoldedName fs folded
  end.

(** the field a key of the input names: an exact match first, then a match
    up to case *)
Definition fieldFor (fields : Reflect.StructType) (key : string)
    : option Reflect.StructField :=
  match EncodingJSON.byExactName fields key with
  | Some f => Some f
  | None => byFoldedName fields (foldName key)
  end.

(** *** decode.go: objects *)

(** [d.object] on a struct: the members in the order of the input *)
Fixpoint object (fields : Reflect.StructType) (disallowUnknownFields : bool)
    (members : list (string * EncodingJSON.json)) (d : EncodingJSON.decodeState)
    : EncodingJSON.decodeState :=
  match members with
  | [] => d
  | (rawkey, j) :: ms =>
      let key := EncodingJSON.unquote rawkey in
      object fields disallowUnknownFields ms
        match fieldFor fields key with
        | Some f =>
            let old := match Reflect.Field (EncodingJSON.target d) (Reflect.Name f) with
                       | Some v => v
                       | None => Reflect.Zero (Reflect.Kind f)
                       end in
            let (new, e) :=
              EncodingJSON.storeField (Reflect.Name f) (Reflect.Kind f) old j in
            EncodingJSON.mkDecodeState
              (Reflect.SetField (EncodingJSON.target d) (Reflect.Name f) new)
              match e with
              | Some e => EncodingJSON.saveError (EncodingJSON.savedError d) e
              | None => EncodingJSON.savedError d
              end
        | None =>
            if disallowUnknownFields
            then EncodingJSON.mkDecodeState (EncodingJSON.target d)
                   (EncodingJSON.saveError (EncodingJSON.savedError d)
                      (json_unknownField key))
            else d
        end
  end.

(** [d.unmarshal(v)] for [v] a pointer to a struct *)
Definition unmarshal (fields : Reflect.StructType) (disallowUnknownFields : bool)
    (j : EncodingJSON.json) (v : Reflect.StructValue) : EncodingJSON.decodeState :=
  let mismatch (what : string) :=
    EncodingJSON.mkDecodeState v (Some (json_UnmarshalTypeError what EmptyString)) in
  match j with
  | EncodingJSON.JObject members =>
      object fields disallowUnknownFields members (EncodingJSON.mkDecodeState v None)
  | EncodingJSON.JNull => EncodingJSON.mkDecodeState v None
  | EncodingJSON.JBool _ => mismatch "bool"
  | EncodingJSON.JString _ => mismatch "string"
  | EncodingJSON.JNumber _ => mismatch "number"
  | EncodingJSON.JArray _ => mismatch "array"
  end.

(** [dec.Decode(v)], [v] a pointer to a struct of type [fields] whose
    current value is [v]: the value [v] points to afterwards, the error
    returned and the decoder afterwards. *)
Definition Decode (dec : EncodingJSON.Decoder) (fields : Reflect.StructType)
    (v : Reflect.StructValue)
    : Reflect.StructValue * option error * EncodingJSON.Decoder :=
  match EncodingJSON.err dec with
  | Some e => (v, Some e, dec)
  | None =>
      match EncodingJSON.readValue (EncodingJSON.buf dec) with
      | EncodingJSON.ReadError e =>
          (v, Some e,
           EncodingJSON.mkDecoder (EncodingJSON.buf dec)
             (EncodingJSON.disallowUnknownFields dec) (Some e))
      | EncodingJSON.ReadValue j rest =>
          let d := unmarshal fields (EncodingJSON.disallowUnknownFields dec) j v in
          (EncodingJSON.target d, EncodingJSON.savedError d,
           EncodingJSON.mkDecoder rest (EncodingJSON.disallowUnknownFields dec) None)
      end
  end.

(** ** Package [errors]: [Unwrap], [Is], [As] *)

(** the [Unwrap] methods of the errors above *)
Definition Unwrap (e : error) : option error :=
  match e with
  | wrapError _ e' => Some e'
  | DetectionError _ c | ValidationError _ c => c
  | SchemaError c | GenerationError c => c
  | MaxRetriesError _ c => c
  | _ => None
  end.

(** Go's [==] on two error values, as [errors.Is] uses it, is identity.  The
    package-level values of [context] and [io] are one value each; every
    other error is a value of its own and equals no target. *)
Definition sameError (e target : error) : bool :=
  match e, target with
  | context_Canceled, context_Canceled => true
  | context_DeadlineExceeded, context_DeadlineExceeded => true
  | io_EOF, io_EOF => true
  | io_ErrUnexpectedEOF, io_ErrUnexpectedEOF => true
  | _, _ => false
  end.

(** [x.Is(target)] for an error [x] with a method [Is]; no type above has
    one *)
Definition Is_method (x target : error) : bool :=
  match x with
  | foreignError _ targets _ _ => existsb (fun t => sameError target t) targets
  | _ => false
  end.


(** [errors.Is(err, target)] for [err] not nil: at every error of the tree
    of [err], identity, then the method [Is], then the errors [Unwrap]
    returns, in their order. *)
Fixpoint errors_Is (e target : error) : bool :=
  sameError e target || Is_method e target ||
  match e with
  | wrapError _ e' => errors_Is e' target
  | DetectionError _ (Some e') | ValidationError _ (Some e') => errors_Is e' target
  | SchemaError (Some e') | GenerationError (Some e') => errors_Is e' target
  | MaxRetriesError _ (Some e') => errors_Is e' target
  | foreignError _ _ _ es => existsb (fun e' => errors_Is e' target) es
  | _ => false
  end.

(** [errors.As(err, &detectionErr)] with [detectionErr] a [*DetectionError]:
    the first error of the tree that is a [*DetectionError] or whose method
    [As] stores one. *)
Fixpoint errors_As_DetectionError (e : error) : option error :=
  match e with
  | DetectionError _ _ => Some e
  | wrapError _ e' => errors_As_DetectionError e'
  | ValidationError _ (Some e') => errors_As_DetectionError e'
  | SchemaError (Some e') | GenerationError (Some e') => errors_As_DetectionError e'
  | MaxRetriesError _ (Some e') => errors_As_DetectionError e'
  | foreignError _ _ (Some d) _ => Some d
  | foreignError _ _ None es =>
      fold_right (fun e' found =>
                    match errors_As_DetectionError e' with
                    | Some d => Some d
                    | None => found
                    end) None es
  | _ => None
  end.

(** the errors [errors.Is] and [errors.As] may visit: the error, what it
    unwraps to, what these unwrap to... *)
Fixpoint chain (e : error) : list error :=
  e ::
  match e with
  | wrapError _ e' => chain e'
  | DetectionError _ (Some e') | ValidationError _ (Some e') => chain e'
  | SchemaError (Some e') | GenerationError (Some e') => chain e'
  | MaxRetriesError _ (Some e') => chain e'
  | foreignError _ _ _ es => flat_map chain es
  | _ => []
  end.


(** ** The configuration errors *)

Definition ErrNoClient := errorString "railguard: no client provided".
Definition ErrNoSchema := errorString "railguard: no schema provided".
Definition ErrNilClient := errorString "railguard: client cannot be nil".
Definition ErrNilDetector := errorString "railguard: detector cannot be nil".
Definition ErrNilValidator := errorString "railguard: validator cannot be nil".
Definition ErrInvalidRetryConfig := errorString "railguard: invalid retry configuration".
Definition ErrInvalidTimeout := errorString "railguard: timeout must be positive".
Definition ErrInvalidSchema := errorString "railguard: schema must be a pointer to a struct".

(** ** The retry policy

    A [time.Duration] is a number of nanoseconds in an [int64].  The
    [float64] computations of [delay] are carried out in exact rational
    arithmetic: rounding, infinities and NaN are outside the model. *)

Definition time_Duration : Type := Z.

Definition Millisecond : time_Duration := 1000000.
Definition Second : time_Duration := 1000000000.

Definition min_int64 : Z := - 2 ^ 63.
Definition max_int64 : Z := 2 ^ 63 - 1.

Record RetryConfig : Type := mkRetryConfig {
  MaxAttempts : Z;
  InitialDelay : time_Duration;
  MaxDelay : time_Duration;
  Multiplier : Q;
  Jitter : Q
}.

Definition DefaultRetryConfig : RetryConfig :=
  mkRetryConfig 3 (100 * Millisecond) (5 * Second) 2 (1 # 10).

Definition Qltb (x y : Q) : bool := negb (Qle_bool y x).

(** [c.Validate()] *)
Definition RetryConfig_Validate (c : RetryConfig) : option error :=
  if MaxAttempts c <? 1 then
    Some (errorString "max attempts must be at least 1")
  else if InitialDelay c <? 0 then
    Some (errorString "initial delay cannot be negative")
  else if MaxDelay c <? 0 then
    Some (errorString "max delay cannot be negative")
  else if Qltb (Multiplier c) 1 then
    Some (errorString "multiplier must be at least 1")
  else if Qltb (Jitter c) 0 || Qltb 1 (Jitter c) then
    Some (errorString "jitter must be between 0 and 1")
  else None.

(** [float64(d)] and [time.Duration(x)].  The conversion to an integer drops
    the fraction; outside [int64] its result depends on the implementation
    (amd64 yields the least [int64]). *)
Definition float64_of (d : Z) : Q := inject_Z d.

Definition truncate (x : Q) : Z := Z.quot (Qnum x) (Z.pos (Qden x)).

Definition Duration_of (x : Q) : time_Duration :=
  let z := truncate x in
  if (min_int64 <=? z) && (z <=? max_int64) then z else min_int64.

(** [math.Pow(x, float64(n))] *)
Definition math_Pow (x : Q) (n : Z) : Q := Qpower x n.

(** [c.delay(attempt)].  [rnd] is the number [rand.Float64()] returns when
    [delay] calls it, which it does when [Jitter] is positive. *)
Definition delay (c : RetryConfig) (attempt : Z) (rnd : Q) : time_Duration :=
  if (attempt =? 0) || (InitialDelay c =? 0) then 0
  else
    (* Calculate exponential backoff *)
    let delay := (float64_of (InitialDelay c) * math_Pow (Multiplier c) (attempt - 1))%Q in
    (* Cap at max delay *)
    let delay := if Qltb (float64_of (MaxDelay c)) delay
                 then float64_of (MaxDelay c) else delay in
    (* Apply jitter *)
    let delay := if Qltb 0 (Jitter c)
                 then let jitterRange := (delay * Jitter c)%Q in
                      (delay - jitterRange + (rnd * 2 * jitterRange))%Q
                 else delay in
    Duration_of delay.

Definition fatalErrors : list error := [context_Canceled; context_DeadlineExceeded].

(** [shouldRetry(err)] *)
Definition shouldRetry (err : option error) : bool :=
  match err with
  | None => false
  | Some e =>
      (* Detection errors are never retried *)
      match errors_As_DetectionError e with
      | Some _ => false
      | None =>
          (* Context errors are never retried *)
          if existsb (fun fatalErr => errors_Is e fatalErr) fatalErrors
          then false
          else true
      end
  end.

(** ** The schema *)

Record Schema : Type := mkSchema {
  targetType : Reflect.StructType;
  strict : bool
}.

(** [NewSchema(v)].  [v] is an [interface{}]: [None] when nil, else its
    dynamic type, which is all [NewSchema] looks at. *)
Definition NewSchema (v : option Reflect.GoType) : option Schema * option error :=
  match v with
  | None => (None, Some ErrInvalidSchema)
  | Some t =>
      match t with
      | Reflect.PtrTo elem =>
          match elem with
          | Reflect.StructOf fields =>
              (Some (mkSchema fields true), None)  (* Default to strict *)
          | _ => (None, Some (wrapError "%w: got pointer to %v, want struct" ErrInvalidSchema))
          end
      | _ => (None, Some (wrapError "%w: got %v, want pointer" ErrInvalidSchema))
      end
  end.

Definition WithStrict (s : Schema) (strict : bool) : Schema :=
  mkSchema (targetType s) strict.

Definition IsStrict (s : Schema) : bool := strict s.

(** [s.Unmarshal(data)]: the pointer to the populated struct (nil on an
    error) and the error *)
Definition Unmarshal (s : Schema) (data : string)
    : option Reflect.StructValue * option error :=
  (* Create a new instance of the target type *)
  let ptr := Reflect.New (targetType s) in
  (* Set up decoder with optional strict mode *)
  let dec := EncodingJSON.NewDecoder data in
  let dec := if strict s then EncodingJSON.DisallowUnknownFields dec else dec in
  (* Decode the JSON *)
  let '(ptr, err, dec) := Decode dec (targetType s) ptr in
  match err with
  | Some err => (None, Some (wrapError "failed to unmarshal JSON: %w" err))
  | None =>
      (* Check for trailing data after the JSON value *)
      if EncodingJSON.More dec
      then (None, Some (errorString "trailing data after JSON"))
      else (Some ptr, None)
  end.

(** [s.Validate(data)] *)
Definition Schema_Validate (s : Schema) (data : string) : option error :=
  snd (Unmarshal s data).

(** ** Package [context]

    A context is the caller's or one derived from it by [WithTimeout]. *)

Inductive Context : Type :=
| caller (id : nat)
| context_WithTimeout (parent : Context) (timeout : time_Duration).

(** ** railguard.go, options.go and the interfaces of the collaborators *)

Section Pipeline.

(** The world outside the pipeline: the generation backend, whatever the
    checks consult, the clock, the random source and the cancellation of
    contexts.  A call of a collaborator reads the world and changes it. *)
Variable World : Type.

(** [time.Now()], in nanoseconds *)
Variable time_Now : World -> Z.

(** the number the next [rand.Float64()] returns *)
Variable rand_Float64 : World -> Q.

(** The [select] of [backoff]: wait until the context is done or the delay
    has passed.  [Some err] is [ctx.Err()] when the context is done first. *)
Variable wait : Context -> time_Duration -> World -> option error * World.

(** the interfaces [Client], [Detector] and [Validator] *)
Record Client : Type := mkClient {
  Generate : Context -> string -> World -> (string * option error) * World
}.

Record Detector : Type := mkDetector {
  Detect : Context -> string -> World -> option error * World;
  Detector_Name : string
}.

Record Validator : Type := mkValidator {
  Validate : Context -> string -> World -> option error * World;
  Validator_Name : string
}.

(** What a run does to its collaborators, in order. *)
Inductive Event : Type :=
| CallDetect (name : string)
| CallGenerate
| CallValidate (name : string)
| Sleep (d : time_Duration).

Record State : Type := mkState { world : World; trace : list Event }.

(** A computation on the state that returns or panics ([None]). *)
Definition M (A : Type) : Type := State -> option (A * State).

Definition ret {A : Type} (a : A) : M A := fun s => Some (a, s).

Definition bind {A B : Type} (m : M A) (k : A -> M B) : M B :=
  fun s => match m s with
           | Some (a, s') => k a s'
           | None => None
           end.

Definition panic {A : Type} : M A := fun _ => None.

Notation "x <- m ;; k" := (bind m (fun x => k))
  (at level 61, m at next level, right associativity).

(** a call of a collaborator: the world moves on, the trace records it *)
Definition call {A : Type} (ev : Event) (f : World -> A * World) : M A :=
  fun s => let (a, w) := f (world s) in
           Some (a, mkState w (trace s ++ [ev])%list).

Definition now : M Z := fun s => Some (time_Now (world s), s).

Record Guard : Type := mkGuard {
  client : option Client;
  detectors : list Detector;
  validators : list Validator;
  schema : option Schema;
  retry : RetryConfig;
  timeout : time_Duration;
  strictSchema : bool
}.

Record Metadata : Type := mkMetadata {
  Attempts : Z;
  Duration : time_Duration
}.

Record Result : Type := mkResult {
  Raw : string;
  Parsed : option Reflect.StructValue;
  Metadata_ : Metadata
}.

(** *** The retry policy: [backoff] *)

Definition backoff (c : RetryConfig) (ctx : Context) (attempt : Z) : M (option error) :=
  fun s =>
    let delay := delay c attempt (rand_Float64 (world s)) in
    if delay =? 0 then ret None s
    else call (Sleep delay) (wait ctx delay) s.

(** *** railguard.go *)

(** [g.runDetectors(ctx, prompt)] *)
Fixpoint runDetectors_from (ds : list Detector) (ctx : Context) (prompt : string)
    : M (option error) :=
  match ds with
  | [] => ret None
  | detector :: ds' =>
      err <- call (CallDetect (Detector_Name detector)) (Detect detector ctx prompt) ;;
      match err with
      | Some err => ret (Some (DetectionError (Detector_Name detector) (Some err)))
      | None => runDetectors_from ds' ctx prompt
      end
  end.

Definition runDetectors (g : Guard) (ctx : Context) (prompt : string) : M (option error) :=
  runDetectors_from (detectors g) ctx prompt.

(** [g.runValidators(ctx, output)] *)
Fixpoint runValidators_from (vs : list Validator) (ctx : Context) (output : string)
    : M (option error) :=
  match vs with
  | [] => ret None
  | validator :: vs' =>
      err <- call (CallValidate (Validator_Name validator)) (Validate validator ctx output) ;;
      match err with
      | Some err => ret (Some (ValidationError (Validator_Name validator) (Some err)))
      | None => runValidators_from vs' ctx output
      end
  end.

Definition runValidators (g : Guard) (ctx : Context) (output : string) : M (option error) :=
  runValidators_from (validators g) ctx output.

(** [g.parseSchema(output)] *)
Definition parseSchema (g : Guard) (output : string)
    : option Reflect.StructValue * option error :=
  match schema g with
  | None => (None, None)
  | Some s => Unmarshal s output
  end.

(** [g.client.Generate(ctx, prompt)]; a nil client panics *)
Definition client_Generate (g : Guard) (ctx : Context) (prompt : string)
    : M (string * option error) :=
  match client g with
  | Some c => call CallGenerate (Generate c ctx prompt)
  | None => panic
  end.

(** The retry loop of [Run].  [n] counts the iterations left:
    [MaxAttempts - attempt]. *)
Fixpoint Run_loop (g : Guard) (ctx : Context) (prompt : string) (startTime : Z)
    (n : nat) (attempt : Z) (lastErr : option error)
    : M (option Result * option error) :=
  match n with
  | O =>
      (* Max retries exceeded *)
      ret (None, Some (MaxRetriesError (MaxAttempts (retry g)) lastErr))
  | S n' =>
      (* Backoff before retry (not before first attempt) *)
      err <- (if 0 <? attempt then backoff (retry g) ctx attempt else ret None) ;;
      match err with
      | Some err => ret (None, Some err)
      | None =>
          (* Generate *)
          r <- client_Generate g ctx prompt ;;
          let (output, err) := r in
          match err with
          | Some err =>
              let lastErr := Some (GenerationError (Some err)) in
              if negb (shouldRetry lastErr) then ret (None, lastErr)
              else Run_loop g ctx prompt startTime n' (attempt + 1) lastErr
          | None =>
              (* Validate *)
              err <- runValidators g ctx output ;;
              match err with
              | Some err =>
                  let lastErr := Some err in
                  if negb (shouldRetry lastErr) then ret (None, lastErr)
                  else Run_loop g ctx prompt startTime n' (attempt + 1) lastErr
              | None =>
                  (* Parse schema *)
                  let (parsed, err) := parseSchema g output in
                  match err with
                  | Some err =>
                      let lastErr := Some (SchemaError (Some err)) in
                      if negb (shouldRetry lastErr) then ret (None, lastErr)
                      else Run_loop g ctx prompt startTime n' (attempt + 1) lastErr
                  | None =>
                      (* Success! *)
                      t <- now ;;
                      ret (Some (mkResult output parsed
                                   (mkMetadata (attempt + 1) (t - startTime))),
                           None)
                  end
              end
          end
      end
  end.

(** [g.Run(ctx, prompt)] *)
Definition Run (g : Guard) (ctx : Context) (prompt : string)
    : M (option Result * option error) :=
  startTime <- now ;;
  (* Apply timeout if configured *)
  let ctx := if 0 <? timeout g then context_WithTimeout ctx (timeout g) else ctx in
  (* Phase 1: Detection (fail fast, no retry) *)
  err <- runDetectors g ctx prompt ;;
  match err with
  | Some err => ret (None, Some err)
  | None =>
      (* Phase 2 & 3: Generation, Validation, and Schema (with retry) *)
      Run_loop g ctx prompt startTime (Z.to_nat (MaxAttempts (retry g))) 0 None
  end.

(** *** options.go

    An option works on the guard under construction and returns an error:
    here, the guard after the call and the error. *)

Definition Option : Type := Guard -> Guard * option error.

Definition WithClient (c : option Client) : Option := fun g =>
  match c with
  | None => (g, Some ErrNilClient)
  | Some _ =>
      (mkGuard c (detectors g) (validators g) (schema g) (retry g)
               (timeout g) (strictSchema g), None)
  end.

Definition WithSchema (v : option Reflect.GoType) : Option := fun g =>
  match NewSchema v with
  | (_, Some err) => (g, Some err)
  | (s, None) =>
      (mkGuard (client g) (detectors g) (validators g) s (retry g)
               (timeout g) (strictSchema g), None)
  end.

(** the arguments of a variadic option, any of which may be nil *)
Fixpoint notNil {A : Type} (l : list (option A)) : option (list A) :=
  match l with
  | [] => Some []
  | None :: _ => None
  | Some a :: l' => option_map (cons a) (notNil l')
  end.

Definition WithDetectors (ds : list (option Detector)) : Option := fun g =>
  match notNil ds with
  | None => (g, Some ErrNilDetector)
  | Some ds =>
      (mkGuard (client g) (detectors g ++ ds)%list (validators g) (schema g)
               (retry g) (timeout g) (strictSchema g), None)
  end.

Definition WithValidators (vs : list (option Validator)) : Option := fun g =>
  match notNil vs with
  | None => (g, Some ErrNilValidator)
  | Some vs =>
      (mkGuard (client g) (detectors g) (validators g ++ vs)%list (schema g)
               (retry g) (timeout g) (strictSchema g), None)
  end.

Definition WithRetry (config : RetryConfig) : Option := fun g =>
  match RetryConfig_Validate config with
  | Some _ => (g, Some ErrInvalidRetryConfig)
  | None =>
      (mkGuard (client g) (detectors g) (validators g) (schema g) config
               (timeout g) (strictSchema g), None)
  end.

Definition WithMaxRetries (maxRetries : Z) : Option := fun g =>
  if maxRetries <? 1 then (g, Some ErrInvalidRetryConfig)
  else
    let r := retry g in
    (mkGuard (client g) (detectors g) (validators g) (schema g)
             (mkRetryConfig maxRetries (InitialDelay r) (MaxDelay r)
                            (Multiplier r) (Jitter r))
             (timeout g) (strictSchema g), None).

Definition WithTimeout (t : time_Duration) : Option := fun g =>
  if t <? 0 then (g, Some ErrInvalidTimeout)
  else
    (mkGuard (client g) (detectors g) (validators g) (schema g) (retry g)
             t (strictSchema g), None).

Definition WithStrictSchema (strict : bool) : Option := fun g =>
  let s := match schema g with
           | Some s => Some (WithStrict s strict)
           | None => None
           end in
  (mkGuard (client g) (detectors g) (validators g) s (retry g)
           (timeout g) strict, None).

(** *** railguard.go: [New] *)

Fixpoint applyOptions (opts : list Option) (g : Guard) : Guard * option error :=
  match opts with
  | [] => (g, None)
  | opt :: opts' =>
      match opt g with
      | (g', Some err) => (g', Some err)
      | (g', None) => applyOptions opts' g'
      end
  end.

Definition New (opts : list Option) : option Guard * option error :=
  let g := mkGuard None [] [] None DefaultRetryConfig 0 false in
  (* Apply options *)
  match applyOptions opts g with
  | (_, Some err) => (None, Some err)
  | (g, None) =>
      (* Validate required fields *)
      match client g with
      | None => (None, Some ErrNoClient)
      | Some _ =>
          (* Apply strict schema setting if schema was created before the
             option: the branch holds no statement *)
          let g := match schema g with
                   | Some _ => if negb (strictSchema g) then g else g
                   | None => g
                   end in
          (Some g, None)
      end
  end.

(** The options of the package, as a caller writes them in the argument
    list of [New]. *)
Inductive OptionCall : Type :=
| CallWithClient (c : option Client)
| CallWithSchema (v : option Reflect.GoType)
| CallWithDetectors (ds : list (option Detector))
| CallWithValidators (vs : list (option Validator))
| CallWithRetry (config : RetryConfig)
| CallWithMaxRetries (maxRetries : Z)
| CallWithTimeout (t : time_Duration)
| CallWithStrictSchema (strict : bool).

Definition option_of (c : OptionCall) : Option :=
  match c with
  | CallWithClient c => WithClient c
  | CallWithSchema v => WithSchema v
  | CallWithDetectors ds => WithDetectors ds
  | CallWithValidators vs => WithValidators vs
  | CallWithRetry config => WithRetry config
  | CallWithMaxRetries n => WithMaxRetries n
  | CallWithTimeout t => WithTimeout t
  | CallWithStrictSchema b => WithStrictSchema b
  end.

Definition isStrictSchemaOff (c : OptionCall) : bool :=
  match c with
  | CallWithStrictSchema false => true
  | _ => false
  end.

(** *** The course of a run, told from the side of the collaborators

    These relations say what the collaborators answer, call after call; the
    properties of [Run] are stated against them. *)

(** every check of the list answers nil, one after the other *)
Inductive all_pass : list (World -> option error * World) -> World -> World -> Prop :=
| all_pass_nil : forall w, all_pass [] w w
| all_pass_cons : forall f fs w w1 w2,
    f w = (None, w1) -> all_pass fs w1 w2 -> all_pass (f :: fs) w w2.

Definition detector_calls (ds : list Detector) (ctx : Context) (prompt : string)
    : list (World -> option error * World) :=
  map (fun d => Detect d ctx prompt) ds.

Definition validator_calls (vs : list Validator) (ctx : Context) (output : string)
    : list (World -> option error * World) :=
  map (fun v => Validate v ctx output) vs.

(** the context [Run] hands to the collaborators *)
Definition run_context (g : Guard) (ctx : Context) : Context :=
  if 0 <? timeout g then context_WithTimeout ctx (timeout g) else ctx.

(** One attempt, begun in the world [w], fails with the wrapped failure
    [e] and leaves the world [w']. *)
Inductive attempt_fails (g : Guard) (ctx : Context) (prompt : string)
    : World -> error -> World -> Prop :=
| generation_fails : forall c w output err w',
    client g = Some c ->
    Generate c ctx prompt w = ((output, Some err), w') ->
    attempt_fails g ctx prompt w (GenerationError (Some err)) w'
| validation_fails : forall c w output w1 pre v post w2 err w',
    client g = Some c ->
    Generate c ctx prompt w = ((output, None), w1) ->
    validators g = (pre ++ v :: post)%list ->
    all_pass (validator_calls pre ctx output) w1 w2 ->
    Validate v ctx output w2 = (Some err, w') ->
    attempt_fails g ctx prompt w (ValidationError (Validator_Name v) (Some err)) w'
| decode_fails : forall c w output w1 w' parsed err,
    client g = Some c ->
    Generate c ctx prompt w = ((output, None), w1) ->
    all_pass (validator_calls (validators g) ctx output) w1 w' ->
    parseSchema g output = (parsed, Some err) ->
    attempt_fails g ctx prompt w (SchemaError (Some err)) w'.

(** One attempt succeeds: generation, every post-check and the decoding. *)
Inductive attempt_succeeds (g : Guard) (ctx : Context) (prompt : string)
    : World -> string -> option Reflect.StructValue -> World -> Prop :=
| attempt_ok : forall c w output w1 w' parsed,
    client g = Some c ->
    Generate c ctx prompt w = ((output, None), w1) ->
    all_pass (validator_calls (validators g) ctx output) w1 w' ->
    parseSchema g output = (parsed, None) ->
    attempt_succeeds g ctx prompt w output parsed w'.

(** The wait before the attempt of index [attempt] runs to its end: none
    before the first attempt or for a delay of 0, else the timer fires
    before the context is done. *)
Inductive wait_over (c : RetryConfig) (ctx : Context) (attempt : Z)
    : World -> World -> Prop :=
| first_attempt : forall w, attempt <= 0 -> wait_over c ctx attempt w w
| no_wait : forall w,
    0 < attempt -> delay c attempt (rand_Float64 w) = 0 ->
    wait_over c ctx attempt w w
| timer_fires : forall w w',
    0 < attempt ->
    delay c attempt (rand_Float64 w) <> 0 ->
    wait ctx (delay c attempt (rand_Float64 w)) w = (None, w') ->
    wait_over c ctx attempt w w'.

(** [k] attempts in a row, the first of index [attempt], each ending in a
    failure that [shouldRetry] lets through. *)
Inductive failing_attempts (g : Guard) (ctx : Context) (prompt : string)
    : nat -> Z -> World -> World -> Prop :=
| failing_none : forall attempt w, failing_attempts g ctx prompt O attempt w w
| failing_next : forall k attempt w w0 e w1 w2,
    wait_over (retry g) ctx attempt w w0 ->
    attempt_fails g ctx prompt w0 e w1 ->
    shouldRetry (Some e) = true ->
    failing_attempts g ctx prompt k (attempt + 1) w1 w2 ->
    failing_attempts g ctx prompt (S k) attempt w w2.

End Pipeline.

#[global] Arguments mkClient {World}.
#[global] Arguments mkDetector {World}.
#[global] Arguments mkValidator {World}.
#[global] Arguments mkGuard {World}.
#[global] Arguments mkState {World}.
#[global] Arguments world {World}.
#[global] Arguments trace {World}.
#[global] Arguments client {World}.
#[global] Arguments detectors {World}.
#[global] Arguments validators {World}.
#[global] Arguments schema {World}.
#[global] Arguments retry {World}.
#[global] Arguments timeout {World}.
#[global] Arguments strictSchema {World}.
#[global] Arguments Detector_Name {World}.
#[global] Arguments Validator_Name {World}.
#[global] Arguments Detect {World}.
#[global] Arguments Validate {World}.
#[global] Arguments Generate {World}.
#[global] Arguments CallWithClient {World}.
#[global] Arguments CallWithSchema {World}.
#[global] Arguments CallWithDetectors {World}.
#[global] Arguments CallWithValidators {World}.
#[global] Arguments CallWithRetry {World}.
#[global] Arguments CallWithMaxRetries {World}.
#[global] Arguments CallWithTimeout {World}.
#[global] Arguments CallWithStrictSchema {World}.
#[global] Arguments option_of {World}.
#[global] Arguments isStrictSchemaOff {World}.
#[global] Arguments New {World}.
#[global] Arguments applyOptions {World}.
#[global] Arguments parseSchema {World}.
#[global] Arguments run_context {World}.
#[global] Arguments all_pass {World}.
#[global] Arguments detector_calls {World}.
#[global] Arguments validator_calls {World}.

(** ** Notions the properties are stated with *)

(** [min(maxDelay, initialDelay * multiplier^(a-1))]: the delay before
    attempt [a] without jitter and before it is cut to whole nanoseconds *)
Definition base_delay (c : RetryConfig) (a : Z) : Q :=
  Qmin (inject_Z (MaxDelay c))
       (inject_Z (InitialDelay c) * Qpower (Multiplier c) (a - 1)).

(** the failures the retry loop wraps: of the generation, of a post-check,
    of the decoding *)
Definition isStageError (e : error) : bool :=
  match e with
  | GenerationError _ | ValidationError _ _ | SchemaError _ => true
  | _ => false
  end.

(** an error answers to a target when it is the target or its method [Is]
    says so *)
Definition answers (target x : error) : bool :=
  sameError x target || Is_method x target.


(** the delay as [delay] has it before the conversion to a [Duration]:
    after the cap, and after the jitter *)
Definition capped (c : RetryConfig) (a : Z) : Q :=
  let d := (float64_of (InitialDelay c) * math_Pow (Multiplier c) (a - 1))%Q in
  if Qltb (float64_of (MaxDelay c)) d then float64_of (MaxDelay c) else d.

Definition jittered (c : RetryConfig) (a : Z) (rnd : Q) : Q :=
  if Qltb 0 (Jitter c)
  then (capped c a - capped c a * Jitter c + rnd * 2 * (capped c a * Jitter c))%Q
  else capped c a.

(** the keys of a JSON value: those of its members, at any depth *)
Fixpoint keys_of (j : EncodingJSON.json) : list string :=
  match j with
  | EncodingJSON.JObject ms =>
      flat_map (fun m => EncodingJSON.unquote (fst m) :: keys_of (snd m)) ms
  | EncodingJSON.JArray es => flat_map keys_of es
  | _ => []
  end.

(** the members of an object whose key names a field of the struct type *)
Definition known_members (t : Reflect.StructType)
    (ms : list (string * EncodingJSON.json)) : list (string * EncodingJSON.json) :=
  filter (fun m => match fieldFor t (EncodingJSON.unquote (fst m)) with
                   | Some _ => true
                   | None => false
                   end) ms.

(** An input whose only defect is its unknown fields: one JSON object with
    nothing but white space after it which, once the members that name no
    field are left out, decodes in strict mode without an error; [x] is the
    struct it then decodes to. *)
Definition only_unknown_fields_wrong (t : Reflect.StructType) (data : string)
    (x : Reflect.StructValue) : Prop :=
  exists ms rest,
    EncodingJSON.readValue data = EncodingJSON.ReadValue (EncodingJSON.JObject ms) rest /\
    EncodingJSON.peek rest = None /\
    unmarshal t true (EncodingJSON.JObject (known_members t ms)) (Reflect.New t)
      = EncodingJSON.mkDecodeState x None.

(** ** Test doubles

    The world of the examples is the number of calls made so far. *)

Definition clock (w : nat) : Z := Z.of_nat w * Millisecond.

(** the timer of a wait fires before the context is done *)
Definition timer_first (ctx : Context) (d : time_Duration) (w : nat)
    : option error * nat := (None, w).

(** every draw of the random source is 0.5 *)
Definition draw (w : nat) : Q := 1 # 2.

(** the fold of Unicode tables that hold, beyond ASCII, the two letters in
    the orbits of an ASCII letter: the long s (U+017F), which folds to [S],
    and the Kelvin sign (U+212A), which folds to [K] *)
Definition foldRune_ks (r : N) : N :=
  if ((97 <=? r) && (r <=? 122))%N then (r - 32)%N
  else if (r =? 383)%N then 83%N
  else if (r =? 8490)%N then 75%N
  else r.

(** a struct with the one field [name], of kind string *)
Definition NameOnly : Reflect.StructType :=
  [Reflect.mkField "name" Reflect.KString].

(** a client that answers the same text each time *)
Definition constClient (output : string) : Client nat :=
  mkClient (fun _ _ w => ((output, None), S w)).

(** a client that fails each time *)
Definition failingClient : Client nat :=
  mkClient (fun _ _ w => ((EmptyString, Some (errorString "temporary failure")), S w)).

(** a client that fails on its first two calls *)
Definition flakyClient : Client nat :=
  mkClient (fun _ _ w =>
    if (w <? 2)%nat
    then ((EmptyString, Some (errorString "temporary failure")), S w)
    else (("success", None), S w)).

Definition passDetector (name : string) : Detector nat :=
  mkDetector (fun _ _ w => (None, w)) name.

Definition blockDetector (name : string) : Detector nat :=
  mkDetector (fun _ _ w => (Some (errorString "prompt blocked"), w)) name.

Definition guardOf (c : Client nat) (ds : list (Detector nat)) (r : RetryConfig)
    : Guard nat :=
  mkGuard (Some c) ds [] None r 0 false.

(** a policy of [n] attempts without delays *)
Definition noDelay (n : Z) : RetryConfig := mkRetryConfig n 0 0 1 0.

(** the guard built by the options has a schema, and that schema is strict *)
Definition has_strict_schema {World : Type} (g : Guard World) : Prop :=
  exists s, schema g = Some s /\ strict s = true.

(** the target type of the package's schema tests *)
Definition testResponse : Reflect.StructType :=
  [Reflect.mkField "result" Reflect.KString;
   Reflect.mkField "count" Reflect.KInt;
   Reflect.mkField "success" Reflect.KBool].

(** a validator that rejects every output *)
Definition rejectValidator : Validator nat :=
  mkValidator (fun _ _ w => (Some (errorString "validation failed"), w)) "custom".

(** the number of calls of the client in a trace *)
Definition generations (tr : list Event) : nat :=
  length (filter (fun ev => match ev with CallGenerate => true | _ => false end) tr).

(** what [Run] hands back: a result or an error, never both and never
    neither *)
Definition terminal (r : option Result * option error) : Prop :=
  (exists res, r = (Some res, None)) \/ (exists e, r = (None, Some e)).

(** an object or an array *)
Definition composite (j : EncodingJSON.json) : bool :=
  match j with
  | EncodingJSON.JObject _ | EncodingJSON.JArray _ => true
  | _ => false
  end.

(** What holds of the scanner whenever [readValue] goes on to the next
    byte: the top-level value is not complete yet, and no composite value
    waits to be attached outside of every composite value. *)
Definition scanning (s : EncodingJSON.scanner) : Prop :=
  EncodingJSON.step s <> EncodingJSON.StEndTop /\
  (EncodingJSON.parseState s = [] ->
   match EncodingJSON.value s with
   | Some j => composite j = false
   | None => True
   end).

(** ** detector.go and validator.go: the convenience types

    [Detectors] and [Validators] are slices of checks with a method that
    runs the checks in sequence and returns the first error as it is. *)

Section Collections.

Variable World : Type.

(** [d.Detect(ctx, prompt)] for [d] a [Detectors] *)
Fixpoint Detectors_Detect (d : list (Detector World)) (ctx : Context) (prompt : string)
    : M World (option error) :=
  match d with
  | [] => ret World None
  | detector :: d' =>
      bind World
        (call World (CallDetect (Detector_Name detector)) (Detect detector ctx prompt))
        (fun err =>
           match err with
           | Some err => ret World (Some err)
           | None => Detectors_Detect d' ctx prompt
           end)
  end.

(** [v.Validate(ctx, output)] for [v] a [Validators] *)
Fixpoint Validators_Validate (v : list (Validator World)) (ctx : Context) (output : string)
    : M World (option error) :=
  match v with
  | [] => ret World None
  | validator :: v' =>
      bind World
        (call World (CallValidate (Validator_Name validator)) (Validate validator ctx output))
        (fun err =>
           match err with
           | Some err => ret World (Some err)
           | None => Validators_Validate v' ctx output
           end)
  end.

(** *** What the argument list of [New] asks for *)

(** the error an option returns; it does not depend on the guard the
    option is applied to *)
Definition option_error (c : OptionCall World) : option error :=
  match c with
  | CallWithClient None => Some ErrNilClient
  | CallWithClient (Some _) => None
  | CallWithSchema v => snd (NewSchema v)
  | CallWithDetectors ds =>
      match notNil ds with
      | None => Some ErrNilDetector
      | Some _ => None
      end
  | CallWithValidators vs =>
      match notNil vs with
      | None => Some ErrNilValidator
      | Some _ => None
      end
  | CallWithRetry config =>
      match RetryConfig_Validate config with
      | Some _ => Some ErrInvalidRetryConfig
      | None => None
      end
  | CallWithMaxRetries maxRetries =>
      if maxRetries <? 1 then Some ErrInvalidRetryConfig else None
  | CallWithTimeout t => if t <? 0 then Some ErrInvalidTimeout else None
  | CallWithStrictSchema _ => None
  end.

(** the error of the first option of the list that returns one *)
Fixpoint first_error (cs : list (OptionCall World)) : option error :=
  match cs with
  | [] => None
  | c :: cs' =>
      match option_error c with
      | Some e => Some e
      | None => first_error cs'
      end
  end.

(** the client of the last [WithClient] of the list *)
Definition given_client (cs : list (OptionCall World)) : option (Client World) :=
  fold_left (fun acc c => match c with
                          | CallWithClient (Some x) => Some x
                          | _ => acc
                          end) cs None.

(** the detectors and the validators of all the [WithDetectors] and
    [WithValidators] of the list, in the order of the list *)
Definition given_detectors (cs : list (OptionCall World)) : list (option (Detector World)) :=
  flat_map (fun c => match c with
                     | CallWithDetectors ds => ds
                     | _ => []
                     end) cs.

Definition given_validators (cs : list (OptionCall World)) : list (option (Validator World)) :=
  flat_map (fun c => match c with
                     | CallWithValidators vs => vs
                     | _ => []
                     end) cs.

End Collections.

#[global] Arguments Detectors_Detect {World}.
#[global] Arguments Validators_Validate {World}.
#[global] Arguments option_error {World}.
#[global] Arguments first_error {World}.
#[global] Arguments given_client {World}.
#[global] Arguments given_detectors {World}.
#[global] Arguments given_validators {World}.

(** the number of waits and of calls of a detector in a trace *)
Definition sleeps (tr : list Event) : nat :=
  length (filter (fun ev => match ev with Sleep _ => true | _ => false end) tr).

Definition detections (tr : list Event) : nat :=
  length (filter (fun ev => match ev with CallDetect _ => true | _ => false end) tr).

(** the kind of a field value *)
Definition kind_of (v : Reflect.Value) : Reflect.Scalar :=
  match v with
  | Reflect.VBool _ => Reflect.KBool
  | Reflect.VInt _ => Reflect.KInt
  | Reflect.VString _ => Reflect.KString
  end.

(** a struct value of the struct type [t]: the fields of [t], in their
    order, each with a value of its kind *)
Definition hasType (t : Reflect.StructType) (v : Reflect.StructValue) : Prop :=
  Forall2 (fun f p => fst p = Reflect.Name f /\ kind_of (snd p) = Reflect.Kind f) t v.

(** *** What an execution of the retry loop of [Run] ends with

    [run_outcome] reads the value the loop returns, begun with [n]
    iterations left at the attempt of index [attempt] and with [last] in
    [lastErr], against the calls [evs] it has made: a result carries the
    decoding of its text, the number of its attempt and the time since
    [startTime]; an error is a [MaxRetriesError] after [n] generations, the
    failure of a stage that [shouldRetry] turns down, or the error of a wait
    cut short. *)

Section Outcome.

Variable World : Type.
Variable time_Now : World -> Z.
Variable wait : Context -> time_Duration -> World -> option error * World.

Definition run_outcome (g : Guard World) (ctx : Context) (startTime : Z) (n : nat)
    (attempt : Z) (last : option error) (s' : State World) (evs : list Event)
    (r : option Result * option error) : Prop :=
  match r with
  | (Some res, None) =>
      parseSchema g (Raw res) = (Parsed res, None) /\
      attempt + 1 <= Attempts (Metadata_ res) <= attempt + Z.of_nat n /\
      Z.of_nat (generations evs) = Attempts (Metadata_ res) - attempt /\
      Duration (Metadata_ res) = time_Now (world s') - startTime
  | (None, Some e) =>
      (exists l, e = MaxRetriesError (MaxAttempts (retry g)) l /\
                 generations evs = n /\
                 ((n = O /\ l = last) \/
                  (n <> O /\
                   exists x, l = Some x /\ isStageError x = true /\
                             shouldRetry (Some x) = true)))
      \/ (isStageError e = true /\ shouldRetry (Some e) = false)
      \/ (exists d w w', wait ctx d w = (Some e, w'))
  | _ => False
  end.

End Outcome.

(** a JSON value that [storeField] stores in a field of kind [k] without
    an error *)
Definition fits (k : Reflect.Scalar) (j : EncodingJSON.json) : bool :=
  match j, k with
  | EncodingJSON.JNull, _ => true
  | EncodingJSON.JBool _, Reflect.KBool => true
  | EncodingJSON.JString _, Reflect.KString => true
  | EncodingJSON.JNumber l, Reflect.KInt =>
      match EncodingJSON.ParseInt l with
      | Some _ => true
      | None => false
      end
  | _, _ => false
  end.

(** *** More test doubles *)

(** the context is done before the timer of a wait fires *)
Definition done_first (ctx : Context) (d : time_Duration) (w : nat)
    : option error * nat := (Some context_Canceled, w).

(** a client that gives up because its context is cancelled *)
Definition cancelledClient : Client nat :=
  mkClient (fun _ _ w => ((EmptyString, Some context_Canceled), S w)).

(** a policy of [n] attempts that waits a millisecond, then two, ... *)
Definition shortDelay (n : Z) : RetryConfig :=
  mkRetryConfig n Millisecond Second 2 0.



(** [len(s)] and the [%d] of package [fmt] *)
Definition len (s : string) : Z := Z.of_nat (String.length s).

Definition itoa (n : Z) : string := NilZero.string_of_int (Z.to_int n).

(** ** Package [validators]: maxlength.go

    The validators look at the context first: [ctx_Err ctx w] is what
    [ctx.Err()] returns in the world [w], [Some err] once the context is
    done.  They leave the world as it is. *)

Section LengthValidators.

Variable World : Type.
Variable ctx_Err : Context -> World -> option error.

Record MaxLength : Type := mkMaxLength {
  MaxLength_limit : Z;
  MaxLength_runes : bool   (* if true, counts runes (characters) instead of bytes *)
}.

Definition NewMaxLength (limit : Z) : MaxLength := mkMaxLength limit false.

Definition MaxLength_WithRunes (m : MaxLength) : MaxLength :=
  mkMaxLength (MaxLength_limit m) true.

(** [m.Validate(ctx, output)] *)
Definition MaxLength_Validate (m : MaxLength) (ctx : Context) (output : string)
    (w : World) : option error :=
  (* Check context first *)
  match ctx_Err ctx w with
  | Some err => Some err
  | None =>
      let (length, unit) :=
        if MaxLength_runes m then (Utf8.RuneCountInString output, "characters")
        else (len output, "bytes") in
      if MaxLength_limit m <? length then
        Some (errorString ("output length " ++ itoa length ++ " " ++ unit
                           ++ " exceeds limit of " ++ itoa (MaxLength_limit m)))
      else None
  end.

Record MinLength : Type := mkMinLength {
  MinLength_limit : Z;
  MinLength_runes : bool
}.

Definition NewMinLength (limit : Z) : MinLength := mkMinLength limit false.

Definition MinLength_WithRunes (m : MinLength) : MinLength :=
  mkMinLength (MinLength_limit m) true.

(** [m.Validate(ctx, output)] *)
Definition MinLength_Validate (m : MinLength) (ctx : Context) (output : string)
    (w : World) : option error :=
  match ctx_Err ctx w with
  | Some err => Some err
  | None =>
      let (length, unit) :=
        if MinLength_runes m then (Utf8.RuneCountInString output, "characters")
        else (len output, "bytes") in
      if length <? MinLength_limit m then
        Some (errorString ("output length " ++ itoa length ++ " " ++ unit
                           ++ " is below minimum of " ++ itoa (MinLength_limit m)))
      else None
  end.

Record LengthRange : Type := mkLengthRange {
  LengthRange_min : Z;
  LengthRange_max : Z;
  LengthRange_runes : bool
}.

Definition NewLengthRange (min max : Z) : LengthRange := mkLengthRange min max false.

Definition LengthRange_WithRunes (r : LengthRange) : LengthRange :=
  mkLengthRange (LengthRange_min r) (LengthRange_max r) true.

(** [r.Validate(ctx, output)] *)
Definition LengthRange_Validate (r : LengthRange) (ctx : Context) (output : string)
    (w : World) : option error :=
  match ctx_Err ctx w with
  | Some err => Some err
  | None =>
      let (length, unit) :=
        if LengthRange_runes r then (Utf8.RuneCountInString output, "characters")
        else (len output, "bytes") in
      if length <? LengthRange_min r then
        Some (errorString ("output length " ++ itoa length ++ " " ++ unit
                           ++ " is below minimum of " ++ itoa (LengthRange_min r)))
      else if LengthRange_max r <? length then
        Some (errorString ("output length " ++ itoa length ++ " " ++ unit
                           ++ " exceeds maximum of " ++ itoa (LengthRange_max r)))
      else None
  end.

(** the three as validators of a guard *)
Definition MaxLength_Validator (m : MaxLength) : Validator World :=
  mkValidator (fun ctx output w => (MaxLength_Validate m ctx output w, w)) "maxlength".

Definition MinLength_Validator (m : MinLength) : Validator World :=
  mkValidator (fun ctx output w => (MinLength_Validate m ctx output w, w)) "minlength".

Definition LengthRange_Validator (r : LengthRange) : Validator World :=
  mkValidator (fun ctx output w => (LengthRange_Validate r ctx output w, w)) "lengthrange".

End LengthValidators.

#[global] Arguments MaxLength_Validate {World}.
#[global] Arguments MinLength_Validate {World}.
#[global] Arguments LengthRange_Validate {World}.
#[global] Arguments MaxLength_Validator {World}.
#[global] Arguments MinLength_Validator {World}.
#[global] Arguments LengthRange_Validator {World}.

(** a context that is never done, and one cancelled from the start *)
Definition background (ctx : Context) (w : nat) : option error := None.

Definition cancelled (ctx : Context) (w : nat) : option error := Some context_Canceled.

(** a text of ASCII bytes only *)
Fixpoint isASCII (s : string) : bool :=
  match s with
  | EmptyString => true
  | String c s' => (EncodingJSON.code c <? 128)%N && isASCII s'
  end.


(** [strings.ToLower], [strconv.Quote] and [strings.TrimSpace] *)

Section Unicode.

(** [strings.Map(unicode.ToLower, s)], [strconv.Quote(s)],
    [strings.TrimFunc(s, unicode.IsSpace)] and
    [strings.TrimRightFunc(s, unicode.IsSpace)] on a text that is not ASCII:
    what the functions below fall back on *)
Variable unicode_ToLower : string -> string.
Variable unicode_Quote : string -> string.
Variable unicode_TrimFunc : string -> string.
Variable unicode_TrimRightFunc : string -> string.

(** [strings.ToLower(s)] *)
Definition strings_ToLower (s : string) : string :=
  if isASCII s then Strings.lowerASCII s else unicode_ToLower s.

(** [strconv.Quote(s)], the verb [%q] *)
Definition strconv_Quote (s : string) : string :=
  if isASCII s then Strings.quoteASCII s else unicode_Quote s.

(** [strings.TrimSpace(s)] *)
Definition strings_TrimSpace (s : string) : string :=
  match Strings.trimLeft s with
  | EmptyString => EmptyString
  | (String c _) as t =>
      if (128 <=? EncodingJSON.code c)%N then unicode_TrimFunc t
      else
        match Strings.trimRight (rev (list_ascii_of_string t)) with
        | [] => EmptyString
        | (c' :: _) as l =>
            let kept := EncodingJSON.string_of_list (rev l) in
            if (128 <=? EncodingJSON.code c')%N then unicode_TrimRightFunc kept
            else kept
        end
  end.

End Unicode.

(** ** Package [detectors]: keywords.go and domain.go

    A detector looks at the context first: [ctx_Err ctx w] is what
    [ctx.Err()] returns in the world [w], [Some err] once the context is
    done.  The two detectors leave the world as it is. *)

Section Detectors.

Variable World : Type.
Variable ctx_Err : Context -> World -> option error.

Variable unicode_ToLower : string -> string.
Variable unicode_Quote : string -> string.
Variable unicode_TrimFunc : string -> string.
Variable unicode_TrimRightFunc : string -> string.

(** a compiled regular expression, [regexp.Compile] and [re.FindString] *)
Variable Regexp : Type.
Variable regexp_Compile : string -> option Regexp.
Variable FindString : Regexp -> string -> string.

(** *** keywords.go *)

Record Keywords : Type := mkKeywords { keywords : list string }.

Definition DefaultKeywords : list string :=
  [ "ignore previous";
    "ignore all previous";
    "ignore the above";
    "disregard previous";
    "disregard all previous";
    "disregard the above";
    "forget previous";
    "forget all previous";
    "forget the above";
    "forget your instructions";
    "ignore your instructions";
    "disregard your instructions";
    "override your instructions";
    "new instructions";
    "system prompt";
    "initial prompt";
    "original prompt";
    "reveal your prompt";
    "show your prompt";
    "print your prompt";
    "output your prompt";
    "what are your instructions";
    "what is your prompt";
    "ignore safety";
    "bypass safety";
    "disable safety";
    "jailbreak";
    "dan mode";
    "developer mode" ].

(** [NewKeywords(keywords...)] *)
Definition NewKeywords (kws : list string) : Keywords :=
  let kws := match kws with
             | [] => DefaultKeywords
             | _ => kws
             end in
  (* Normalize keywords to lowercase for case-insensitive matching *)
  mkKeywords (map (strings_ToLower unicode_ToLower) kws).

(** [k.Detect(ctx, prompt)] *)
Definition Keywords_Detect (k : Keywords) (ctx : Context) (prompt : string) (w : World)
    : option error :=
  (* Check context first *)
  match ctx_Err ctx w with
  | Some err => Some err
  | None =>
      let loweredPrompt := strings_ToLower unicode_ToLower prompt in
      match find (fun keyword => Strings.Contains loweredPrompt keyword) (keywords k) with
      | Some keyword =>
          Some (errorString ("detected suspicious keyword: "
                             ++ strconv_Quote unicode_Quote keyword))
      | None => None
      end
  end.

(** [k.WithKeywords(keywords...)]: the detector after the call, which adds
    the keywords to the receiver and returns it *)
Definition Keywords_WithKeywords (k : Keywords) (kws : list string) : Keywords :=
  mkKeywords (keywords k ++ map (strings_ToLower unicode_ToLower) kws).

Definition Keywords_Detector (k : Keywords) : Detector World :=
  mkDetector (fun ctx prompt w => (Keywords_Detect k ctx prompt w, w)) "keywords".

(** *** domain.go *)

Record Domain : Type := mkDomain {
  Domain_name : string;
  allowedKeywords : list string;
  blockedKeywords : list string;
  blockedPatterns : list Regexp;
  requireMatch : bool   (* If true, prompt MUST contain at least one allowed keyword *)
}.

Definition DomainOption : Type := Domain -> Domain.

Definition WithAllowedKeywords (kws : list string) : DomainOption := fun d =>
  mkDomain (Domain_name d)
           (allowedKeywords d ++ map (strings_ToLower unicode_ToLower) kws)
           (blockedKeywords d) (blockedPatterns d) (requireMatch d).

Definition WithBlockedKeywords (kws : list string) : DomainOption := fun d =>
  mkDomain (Domain_name d) (allowedKeywords d)
           (blockedKeywords d ++ map (strings_ToLower unicode_ToLower) kws)
           (blockedPatterns d) (requireMatch d).

(** the patterns that compile, compiled *)
Fixpoint compiled (patterns : list string) : list Regexp :=
  match patterns with
  | [] => []
  | p :: ps =>
      match regexp_Compile p with
      | Some re => re :: compiled ps
      | None => compiled ps
      end
  end.

Definition WithBlockedPatterns (patterns : list string) : DomainOption := fun d =>
  mkDomain (Domain_name d) (allowedKeywords d) (blockedKeywords d)
           (blockedPatterns d ++ compiled patterns) (requireMatch d).

Definition WithRequireAllowed (require : bool) : DomainOption := fun d =>
  mkDomain (Domain_name d) (allowedKeywords d) (blockedKeywords d)
           (blockedPatterns d) require.

(** [NewDomain(name, opts...)] *)
Definition NewDomain (name : string) (opts : list DomainOption) : Domain :=
  fold_left (fun d opt => opt d) opts (mkDomain name [] [] [] false).

(** [d.Detect(ctx, prompt)] *)
Definition Domain_Detect (d : Domain) (ctx : Context) (prompt : string) (w : World)
    : option error :=
  match ctx_Err ctx w with
  | Some err => Some err
  | None =>
      let lowered := strings_ToLower unicode_ToLower prompt in
      (* Check blocked keywords first (explicit off-topic detection) *)
      match find (fun blocked => Strings.Contains lowered blocked) (blockedKeywords d) with
      | Some blocked =>
          Some (errorString ("off-topic: query about "
                             ++ strconv_Quote unicode_Quote blocked
                             ++ " is outside the " ++ Domain_name d ++ " domain"))
      | None =>
          (* Check blocked patterns *)
          match find (fun pattern => negb (FindString pattern prompt =? "")%string)
                     (blockedPatterns d) with
          | Some pattern =>
              Some (errorString
                      ("off-topic: "
                       ++ strconv_Quote unicode_Quote
                            (strings_TrimSpace unicode_TrimFunc unicode_TrimRightFunc
                               (FindString pattern prompt))
                       ++ " is outside the " ++ Domain_name d ++ " domain"))
          | None =>
              (* If requireMatch is true, check that at least one allowed
                 keyword is present *)
              if requireMatch d && negb (length (allowedKeywords d) =? 0)%nat then
                if existsb (fun allowed => Strings.Contains lowered allowed)
                           (allowedKeywords d)
                then None
                else Some (errorString
                             ("off-topic: query does not appear to be related to "
                              ++ Domain_name d))
              else None
          end
      end
  end.

Definition Domain_Detector (d : Domain) : Detector World :=
  mkDetector (fun ctx prompt w => (Domain_Detect d ctx prompt w, w))
             ("domain:" ++ Domain_name d).

End Detectors.


(** ** Package [validators]: json.go *)

Section JSONValidator.

Variable World : Type.
Variable ctx_Err : Context -> World -> option error.
Variable unicode_Quote : string -> string.
Variable unicode_TrimFunc : string -> string.
Variable unicode_TrimRightFunc : string -> string.
Variable ParseFloat_ok : string -> bool.

Record JSON : Type := mkJSON {
  requireObject : bool;
  requireArray : bool
}.

Definition NewJSON : JSON := mkJSON false false.

Definition RequireObject (j : JSON) : JSON := mkJSON true false.

Definition RequireArray (j : JSON) : JSON := mkJSON false true.

(** [firstChar(s)]: the first rune of [s], as a string *)
Definition firstChar (s : string) : string :=
  let bad := EncodingJSON.encodeRune EncodingJSON.RuneError in
  match s with
  | EmptyString => EmptyString
  | String c rest =>
      match EncodingJSON.rune_len c, rest with
      | 1%nat, _ => String c EmptyString
      | 2%nat, String c1 _ =>
          if EncodingJSON.second_ok c c1 then String c (String c1 EmptyString) else bad
      | 3%nat, String c1 (String c2 _) =>
          if EncodingJSON.second_ok c c1 && EncodingJSON.contByte c2
          then String c (String c1 (String c2 EmptyString)) else bad
      | 4%nat, String c1 (String c2 (String c3 _)) =>
          if EncodingJSON.second_ok c c1 && EncodingJSON.contByte c2
             && EncodingJSON.contByte c3
          then String c (String c1 (String c2 (String c3 EmptyString))) else bad
      | _, _ => bad
      end
  end.

(** the verb [%T] on the value an [interface{}] holds after decoding *)
Definition typeName (v : option EncodingJSON.json) : string :=
  match v with
  | None | Some EncodingJSON.JNull => "<nil>"
  | Some (EncodingJSON.JBool _) => "bool"
  | Some (EncodingJSON.JNumber _) => "float64"
  | Some (EncodingJSON.JString _) => "string"
  | Some (EncodingJSON.JArray _) => "[]interface {}"
  | Some (EncodingJSON.JObject _) => "map[string]interface {}"
  end.

Definition isObject (v : option EncodingJSON.json) : bool :=
  match v with
  | Some (EncodingJSON.JObject _) => true
  | _ => false
  end.

Definition isArray (v : option EncodingJSON.json) : bool :=
  match v with
  | Some (EncodingJSON.JArray _) => true
  | _ => false
  end.

(** [j.Validate(ctx, output)] *)
Definition JSON_Validate (j : JSON) (ctx : Context) (output : string) (w : World)
    : option error :=
  (* Check context first *)
  match ctx_Err ctx w with
  | Some err => Some err
  | None =>
      (* Trim whitespace for structure detection *)
      let trimmed := strings_TrimSpace unicode_TrimFunc unicode_TrimRightFunc output in
      if (trimmed =? "")%string then
        Some (errorString "empty output is not valid JSON")
      (* Quick check for structure requirements before full parse *)
      else if requireObject j && negb (Strings.HasPrefix trimmed "{") then
        Some (errorString ("expected JSON object, got output starting with "
                           ++ strconv_Quote unicode_Quote (firstChar trimmed)))
      else if requireArray j && negb (Strings.HasPrefix trimmed "[") then
        Some (errorString ("expected JSON array, got output starting with "
                           ++ strconv_Quote unicode_Quote (firstChar trimmed)))
      else
        (* Validate JSON syntax *)
        match JSONUnmarshal.Unmarshal_interface ParseFloat_ok output with
        | (_, Some err) => Some (wrapError "invalid JSON: %w" err)
        | (v, None) =>
            (* Additional structure validation *)
            if requireObject j && negb (isObject v) then
              Some (errorString ("expected JSON object, got " ++ typeName v))
            else if requireArray j && negb (isArray v) then
              Some (errorString ("expected JSON array, got " ++ typeName v))
            else None
        end
  end.

Definition JSON_Validator (j : JSON) : Validator World :=
  mkValidator (fun ctx output w => (JSON_Validate j ctx output w, w)) "json".

End JSONValidator.

(** ** The schema: [UnmarshalInto]

    The destination is an [interface{}]: [None] when nil, else its dynamic
    type and, for a pointer to a struct, the struct the pointer points to;
    the pointer is not a nil pointer.  Two struct types are the same type
    when they have the same fields. *)

Definition Scalar_eqb (a b : Reflect.Scalar) : bool :=
  match a, b with
  | Reflect.KBool, Reflect.KBool => true
  | Reflect.KInt, Reflect.KInt => true
  | Reflect.KString, Reflect.KString => true
  | _, _ => false
  end.

Fixpoint StructType_eqb (a b : Reflect.StructType) : bool :=
  match a, b with
  | [], [] => true
  | f :: a', g :: b' =>
      (Reflect.Name f =? Reflect.Name g)%string
      && Scalar_eqb (Reflect.Kind f) (Reflect.Kind g)
      && StructType_eqb a' b'
  | _, _ => false
  end.

(** [==] on two values of [reflect.Type] *)
Fixpoint GoType_eqb (a b : Reflect.GoType) : bool :=
  match a, b with
  | Reflect.Basic k, Reflect.Basic k' => Scalar_eqb k k'
  | Reflect.StructOf t, Reflect.StructOf t' => StructType_eqb t t'
  | Reflect.PtrTo e, Reflect.PtrTo e' => GoType_eqb e e'
  | _, _ => false
  end.

(** [t.Kind().String()] *)
Definition Kind_String (t : Reflect.GoType) : string :=
  match t with
  | Reflect.Basic Reflect.KBool => "bool"
  | Reflect.Basic Reflect.KInt => "int"
  | Reflect.Basic Reflect.KString => "string"
  | Reflect.StructOf _ => "struct"
  | Reflect.PtrTo _ => "ptr"
  end.

Section UnmarshalInto.

(** [t.String()], the verb [%v] on a [reflect.Type]: the name of the type *)
Variable Type_String : Reflect.GoType -> string.

(** [s.UnmarshalInto(data, dest)]: the struct [dest] points to afterwards
    and the error *)
Definition UnmarshalInto (s : Schema) (data : string)
    (dest : option (Reflect.GoType * Reflect.StructValue))
    : Reflect.StructValue * option error :=
  match dest with
  | None => ([], Some (errorString "destination cannot be nil"))
  | Some (destType, v) =>
      match destType with
      | Reflect.PtrTo elem =>
          if negb (GoType_eqb elem (Reflect.StructOf (targetType s))) then
            (v, Some (errorString ("destination type mismatch: got " ++ Type_String elem
                                   ++ ", want "
                                   ++ Type_String (Reflect.StructOf (targetType s)))))
          else
            let dec := EncodingJSON.NewDecoder data in
            let dec := if strict s then EncodingJSON.DisallowUnknownFields dec else dec in
            let '(v, err, dec) := Decode dec (targetType s) v in
            match err with
            | Some err => (v, Some (wrapError "failed to unmarshal JSON: %w" err))
            | None =>
                if EncodingJSON.More dec
                then (v, Some (errorString "trailing data after JSON"))
                else (v, None)
            end
      | _ =>
          (v, Some (errorString ("destination must be a pointer, got "
                                 ++ Kind_String destType)))
      end
  end.

End UnmarshalInto.

(** ** The schema, with the store written out

    [Unmarshal] returns a pointer.  The struct it leads to is in the store:
    [reflect.New] allocates it there and [Decode] writes into it.  A store
    is the list of the structs allocated so far, a pointer the index of one
    of them. *)

Definition Store : Type := list Reflect.StructValue.

Definition Pointer : Type := nat.

Definition load (h : Store) (p : Pointer) : option Reflect.StructValue :=
  nth_error h p.

Fixpoint store (h : Store) (p : Pointer) (v : Reflect.StructValue) : Store :=
  match h, p with
  | [], _ => []
  | _ :: h', O => v :: h'
  | x :: h', S p' => x :: store h' p' v
  end.

(** [reflect.New(t)]: a pointer to a new zero value of the struct type *)
Definition reflect_New (t : Reflect.StructType) (h : Store) : Pointer * Store :=
  (length h, (h ++ [Reflect.New t])%list).

(** [dec.Decode(ptr)], [ptr] a pointer to a struct of type [fields]: the
    error, the decoder and the store afterwards *)
Definition Decode_ptr (dec : EncodingJSON.Decoder) (fields : Reflect.StructType)
    (ptr : Pointer) (h : Store) : option error * EncodingJSON.Decoder * Store :=
  match load h ptr with
  | None => (Some (errorString "json: Unmarshal(nil)"), dec, h)
  | Some v =>
      let '(v, err, dec) := Decode dec fields v in
      (err, dec, store h ptr v)
  end.

(** [s.Unmarshal(data)] in the store [h]: the pointer returned (nil on an
    error), the error and the store afterwards *)
Definition Unmarshal_ptr (s : Schema) (data : string) (h : Store)
    : option Pointer * option error * Store :=
  (* Create a new instance of the target type *)
  let (ptr, h) := reflect_New (targetType s) h in
  (* Set up decoder with optional strict mode *)
  let dec := EncodingJSON.NewDecoder data in
  let dec := if strict s then EncodingJSON.DisallowUnknownFields dec else dec in
  (* Decode the JSON *)
  let '(err, dec, h) := Decode_ptr dec (targetType s) ptr h in
  match err with
  | Some err => (None, Some (wrapError "failed to unmarshal JSON: %w" err), h)
  | None =>
      (* Check for trailing data after the JSON value *)
      if EncodingJSON.More dec
      then (None, Some (errorString "trailing data after JSON"), h)
      else (Some ptr, None, h)
  end.
(** * Properties *)

(** ** The error chain and the retry classifier *)



(** the chain of an error of the package follows [Unwrap] *)
Lemma chain_Unwrap (e : error) :
  (forall t i a u, e <> foreignError t i a u) ->
  chain e = e :: match Unwrap e with
                 | Some e' => chain e'
                 | None => []
                 end.
Proof.
  intros H. destruct e as
    [ m | m e' | | | | | | v f | k | n [e'|] | n [e'|] | [e'|] | [e'|] | a [e'|]
    | t i a u ];
    try reflexivity.
  exfalso. exact (H t i a u eq_refl).
Qed.

(** [errors.Is] asks every error of the chain. *)
Lemma errors_Is_chain :
  forall e target, errors_Is e target = existsb (answers target) (chain e).
Proof.
  fix IH 1.
  intros e target; destruct e as
    [ m | m e' | | | | | | v f | k | n [e'|] | n [e'|] | [e'|] | [e'|] | a [e'|]
    | t i a u ];
    unfold answers; simpl; try rewrite IH; try reflexivity;
    try (destruct target; reflexivity).
  f_equal. induction u as [ | e' u IHu ]; simpl; [ reflexivity | ].
  rewrite existsb_app, IH, IHu. reflexivity.
Qed.



Lemma errors_Is_In (e target : error) :
  sameError target target = true -> In target (chain e) -> errors_Is e target = true.
Proof.
  intros Hsame Hin. rewrite errors_Is_chain. apply existsb_exists.
  exists target. split; [ exact Hin | ]. unfold answers. rewrite Hsame. reflexivity.
Qed.




(** ** The backoff delay *)

Lemma Qltb_true (x y : Q) : Qltb x y = true <-> (x < y)%Q.
Proof.
  unfold Qltb. rewrite negb_true_iff. split.
  - intros H. apply Qnot_le_lt. intros Hle. apply Qle_bool_iff in Hle. congruence.
  - intros H. destruct (Qle_bool y x) eqn:E; [ | reflexivity ].
    apply Qle_bool_iff in E. exfalso. exact (Qlt_not_le _ _ H E).
Qed.

Lemma Qltb_false (x y : Q) : Qltb x y = false <-> (y <= x)%Q.
Proof.
  unfold Qltb. rewrite negb_false_iff. apply Qle_bool_iff.
Qed.

(** what [Validate] accepts *)
Lemma RetryConfig_Validate_ok (c : RetryConfig) :
  RetryConfig_Validate c = None ->
  1 <= MaxAttempts c /\ 0 <= InitialDelay c /\ 0 <= MaxDelay c /\
  (1 <= Multiplier c)%Q /\ (0 <= Jitter c)%Q /\ (Jitter c <= 1)%Q.
Proof.
  unfold RetryConfig_Validate.
  destruct (MaxAttempts c <? 1) eqn:E1; [ discriminate | ].
  destruct (InitialDelay c <? 0) eqn:E2; [ discriminate | ].
  destruct (MaxDelay c <? 0) eqn:E3; [ discriminate | ].
  destruct (Qltb (Multiplier c) 1) eqn:E4; [ discriminate | ].
  destruct (Qltb (Jitter c) 0) eqn:E5; [ discriminate | ].
  destruct (Qltb 1 (Jitter c)) eqn:E6; [ discriminate | ].
  intros _. apply Z.ltb_ge in E1, E2, E3.
  apply Qltb_false in E4, E5, E6. repeat split; assumption.
Qed.

(** cutting a non-negative number to an integer rounds it down *)
Lemma truncate_floor (x : Q) : (0 <= x)%Q -> truncate x = Qfloor x.
Proof.
  destruct x as [n d]. unfold Qle, truncate, Qfloor. simpl. intros H.
  apply Z.quot_div_nonneg; lia.
Qed.

Lemma truncate_bounds (x : Q) :
  (0 <= x)%Q -> (x - 1 < inject_Z (truncate x))%Q /\ (inject_Z (truncate x) <= x)%Q.
Proof.
  intros H. rewrite (truncate_floor x H). split.
  - pose proof (Qlt_floor x) as L. rewrite inject_Z_plus in L.
    change (inject_Z 1) with 1%Q in L. lra.
  - apply Qfloor_le.
Qed.


Lemma Duration_of_in_range (x : Q) :
  (0 <= x)%Q -> (x < inject_Z (2 ^ 63))%Q -> Duration_of x = truncate x.
Proof.
  intros H0 H1. unfold Duration_of.
  destruct (truncate_bounds x H0) as [_ Hle].
  assert (0 <= truncate x).
  { rewrite (truncate_floor x H0). rewrite <- (Qfloor_Z 0).
    apply Qfloor_resp_le. exact H0. }
  assert (truncate x < 2 ^ 63).
  { rewrite Zlt_Qlt. eapply Qle_lt_trans; eassumption. }
  unfold min_int64, max_int64.
  destruct (- 2 ^ 63 <=? truncate x) eqn:E1; [ | apply Z.leb_gt in E1; lia ].
  destruct (truncate x <=? 2 ^ 63 - 1) eqn:E2; [ reflexivity | apply Z.leb_gt in E2; lia ].
Qed.

Lemma delay_eq (c : RetryConfig) (a : Z) (rnd : Q) :
  delay c a rnd =
  if (a =? 0) || (InitialDelay c =? 0) then 0 else Duration_of (jittered c a rnd).
Proof. reflexivity. Qed.

Lemma capped_base (c : RetryConfig) (a : Z) : (capped c a == base_delay c a)%Q.
Proof.
  unfold capped, base_delay, float64_of, math_Pow.
  set (m := inject_Z (MaxDelay c)).
  set (d := (inject_Z (InitialDelay c) * Multiplier c ^ (a - 1))%Q).
  destruct (Qltb m d) eqn:E.
  - apply Qltb_true in E. symmetry. apply Q.min_l. apply Qlt_le_weak. exact E.
  - apply Qltb_false in E. symmetry. apply Q.min_r. exact E.
Qed.

Lemma base_delay_bounds (c : RetryConfig) (a : Z) :
  RetryConfig_Validate c = None ->
  (0 <= base_delay c a)%Q /\ (base_delay c a <= inject_Z (MaxDelay c))%Q.
Proof.
  intros V. destruct (RetryConfig_Validate_ok c V) as (_ & HI & HM & Hm & _).
  unfold base_delay. split; [ | apply Q.le_min_l ].
  apply Q.min_glb.
  - change (inject_Z 0 <= inject_Z (MaxDelay c))%Q. rewrite <- Zle_Qle. exact HM.
  - apply Qmult_le_0_compat.
    + change (inject_Z 0 <= inject_Z (InitialDelay c))%Q. rewrite <- Zle_Qle. exact HI.
    + apply Qpower_0_le. lra.
Qed.

Lemma jittered_bounds (c : RetryConfig) (a : Z) (rnd : Q) :
  RetryConfig_Validate c = None -> (0 <= rnd)%Q -> (rnd < 1)%Q ->
  (base_delay c a * (1 - Jitter c) <= jittered c a rnd)%Q /\
  (jittered c a rnd <= base_delay c a * (1 + Jitter c))%Q /\
  (0 <= jittered c a rnd)%Q /\
  (jittered c a rnd <= 2 * inject_Z (MaxDelay c))%Q.
Proof.
  intros V R0 R1.
  destruct (RetryConfig_Validate_ok c V) as (_ & _ & _ & _ & J0 & J1).
  destruct (base_delay_bounds c a V) as [B0 BM].
  pose proof (capped_base c a) as E. unfold jittered.
  set (b := base_delay c a) in *. set (k := capped c a) in *.
  set (j := Jitter c) in *. set (M := inject_Z (MaxDelay c)) in *.
  assert (Hbj : (0 <= b * j)%Q) by (apply Qmult_le_0_compat; assumption).
  assert (Hbj1 : (b * j <= b)%Q) by nra.
  destruct (Qltb 0 j) eqn:EJ.
  - assert (Hr : (0 <= rnd * (b * j))%Q) by (apply Qmult_le_0_compat; assumption).
    assert (Hr1 : (rnd * (b * j) <= b * j)%Q) by nra.
    rewrite E. repeat split; lra.
  - apply Qltb_false in EJ.
    assert (Hj : (j == 0)%Q) by lra.
    rewrite E. repeat split; try lra; rewrite Hj; lra.
Qed.


(** Claim C2.  With [InitialDelay = MaxDelay = 1s], jitter 0.5 and a draw of
    0.75 the first delay is 1.25s: the jitter is applied to the capped
    value, and nothing caps the result. *)
Example delay_exceeds_MaxDelay :
  let c := mkRetryConfig 2 Second Second 2 (1 # 2) in
  RetryConfig_Validate c = None /\
  delay c 1 (3 # 4) = 1250000000 /\
  MaxDelay c < delay c 1 (3 # 4).
Proof. repeat split. Qed.

(** The defect behind the example: once the cap is reached, a draw that
    adds a nanosecond or more of jitter takes the delay above [MaxDelay]. *)
Lemma delay_above_MaxDelay (c : RetryConfig) (a : Z) (rnd : Q) :
  RetryConfig_Validate c = None ->
  1 <= a ->
  MaxDelay c < 2 ^ 62 ->
  (0 <= rnd)%Q -> (rnd < 1)%Q ->
  InitialDelay c <> 0 ->
  (inject_Z (MaxDelay c) <= inject_Z (InitialDelay c) * Qpower (Multiplier c) (a - 1))%Q ->
  (1 <= inject_Z (MaxDelay c) * Jitter c * (2 * rnd - 1))%Q ->
  MaxDelay c < delay c a rnd.
Proof.
  intros V Ha HM R0 R1 HI Hcap Hj.
  destruct (RetryConfig_Validate_ok c V) as (_ & _ & HM0 & _ & J0 & J1).
  destruct (jittered_bounds c a rnd V R0 R1) as (_ & _ & P & T).
  rewrite delay_eq.
  replace (a =? 0) with false by (symmetry; apply Z.eqb_neq; lia).
  replace (InitialDelay c =? 0) with false by (symmetry; apply Z.eqb_neq; exact HI).
  simpl orb. cbv iota.
  assert (Hx : (jittered c a rnd < inject_Z (2 ^ 63))%Q).
  { eapply Qle_lt_trans; [ exact T | ].
    change 2%Q with (inject_Z 2). rewrite <- inject_Z_mult, <- Zlt_Qlt. lia. }
  rewrite (Duration_of_in_range _ P Hx).
  destruct (truncate_bounds _ P) as [TL _].
  assert (Hk : (capped c a == inject_Z (MaxDelay c))%Q).
  { rewrite capped_base. unfold base_delay. apply Q.min_l. exact Hcap. }
  assert (HM0' : (0 <= inject_Z (MaxDelay c))%Q).
  { change (inject_Z 0 <= inject_Z (MaxDelay c))%Q. rewrite <- Zle_Qle. exact HM0. }
  assert (Hjpos : (0 < Jitter c)%Q).
  { destruct (Qlt_le_dec 0 (Jitter c)) as [H | H]; [ exact H | ].
    assert (E : (Jitter c == 0)%Q) by lra.
    exfalso. rewrite E in Hj. lra. }
  assert (Hval : (jittered c a rnd ==
                  inject_Z (MaxDelay c) + inject_Z (MaxDelay c) * Jitter c * (2 * rnd - 1))%Q).
  { unfold jittered.
    replace (Qltb 0 (Jitter c)) with true by (symmetry; apply Qltb_true; exact Hjpos).
    rewrite Hk. ring. }
  rewrite Zlt_Qlt. lra.
Qed.

(** ** The schema *)

Import EncodingJSON.

Lemma object_savedError_stays (t : Reflect.StructType) (du : bool)
    (ms : list (string * json)) :
  forall d, savedError d <> None -> savedError (object t du ms d) <> None.
Proof.
  induction ms as [ | [k j] ms IH ]; intros d H; simpl; [ exact H | ].
  apply IH.
  destruct (fieldFor t (unquote k)) as [f | ].
  - destruct (storeField _ _ _ j) as [new [e | ]]; simpl;
      destruct (savedError d); simpl; congruence.
  - destruct du; simpl; [ | exact H ].
    destruct (savedError d); simpl; congruence.
Qed.

(** a composite value does not fit a field *)
Lemma storeField_composite (name : string) (k : Reflect.Scalar) (old : Reflect.Value)
    (j : json) :
  keys_of j <> [] -> snd (storeField name k old j) <> None.
Proof.
  destruct j; simpl; try congruence; destruct k; simpl; discriminate.
Qed.

(** In strict mode a member whose key names no field, or whose value holds
    such a key, leaves an error behind. *)
Lemma object_unknown_key (t : Reflect.StructType) (ms : list (string * json))
    (key : string) :
  In key (keys_of (JObject ms)) -> fieldFor t key = None ->
  forall d, savedError (object t true ms d) <> None.
Proof.
  simpl. induction ms as [ | [k j] ms IH ]; intros Hin Hf d; simpl in *; [ tauto | ].
  destruct Hin as [Hk | Hin].
  - subst key. rewrite Hf. apply object_savedError_stays. simpl.
    destruct (savedError d); simpl; congruence.
  - apply in_app_or in Hin. destruct Hin as [Hin | Hin]; [ | apply IH; assumption ].
    apply object_savedError_stays.
    destruct (fieldFor t (unquote k)) as [f | ].
    + pose proof (storeField_composite (Reflect.Name f) (Reflect.Kind f)
                    match Reflect.Field (target d) (Reflect.Name f) with
                    | Some v => v
                    | None => Reflect.Zero (Reflect.Kind f)
                    end j) as Hs.
      destruct (storeField _ _ _ j) as [new [e | ]]; simpl in *.
      * destruct (savedError d); simpl; congruence.
      * exfalso. apply Hs; [ | reflexivity ]. intros E. rewrite E in Hin. exact Hin.
    + simpl. destruct (savedError d); simpl; congruence.
Qed.

Lemma unmarshal_unknown_key (t : Reflect.StructType) (j : json) (key : string)
    (v : Reflect.StructValue) :
  In key (keys_of j) -> fieldFor t key = None ->
  savedError (unmarshal t true j v) <> None.
Proof.
  intros Hin Hf. destruct j; simpl in *; try tauto; try discriminate.
  apply (object_unknown_key t members key Hin Hf).
Qed.

(** a strict schema rejects an input that holds a key naming no field *)
Lemma strict_Unmarshal_rejects (s : Schema) (data : string) (j : json)
    (rest key : string) :
  strict s = true ->
  readValue data = ReadValue j rest ->
  In key (keys_of j) ->
  fieldFor (targetType s) key = None ->
  exists e, Unmarshal s data = (None, Some e).
Proof.
  intros Hs Hr Hin Hf. unfold Unmarshal. rewrite Hs.
  unfold DisallowUnknownFields, NewDecoder, Decode. simpl. rewrite Hr.
  pose proof (unmarshal_unknown_key (targetType s) j key
                (Reflect.New (targetType s)) Hin Hf) as H.
  destruct (savedError _) as [e | ]; [ | congruence ].
  eexists. reflexivity.
Qed.

(** without the strict flag the members that name no field are passed over *)
Lemma object_lenient_known (t : Reflect.StructType) (ms : list (string * json)) :
  forall d, object t false ms d = object t true (known_members t ms) d.
Proof.
  induction ms as [ | [k j] ms IH ]; intros d; simpl; [ reflexivity | ].
  destruct (fieldFor t (unquote k)) as [f | ] eqn:E; simpl.
  - rewrite E. apply IH.
  - apply IH.
Qed.

Lemma NewSchema_strict (v : option Reflect.GoType) (s : Schema) :
  NewSchema v = (Some s, None) -> strict s = true.
Proof.
  destruct v as [[k | t | [k | t | e]] | ]; simpl; intros H; inversion H; reflexivity.
Qed.

(** Claim C6.  A newly constructed schema is strict; in strict mode
    [Unmarshal] returns an error for every input holding a key that names no
    field of the struct type; and with strictness disabled an input whose
    only defect is its unknown fields is decoded: to the struct its known
    members decode to. *)
Theorem strict_rejects_unknown_fields :
  forall (v : option Reflect.GoType) (s : Schema) (data : string),
    NewSchema v = (Some s, None) ->
    IsStrict s = true /\
    (forall j rest key,
        readValue data = ReadValue j rest ->
        In key (keys_of j) ->
        fieldFor (targetType s) key = None ->
        exists e, Unmarshal s data = (None, Some e)) /\
    (forall x,
        only_unknown_fields_wrong (targetType s) data x ->
        Unmarshal (WithStrict s false) data = (Some x, None)).
Proof.
  intros v s data Hnew. pose proof (NewSchema_strict v s Hnew) as Hs.
  split; [ exact Hs | split ].
  - intros j rest key. apply strict_Unmarshal_rejects. exact Hs.
  - intros x (ms & rest & Hr & Hp & Hok).
    unfold Unmarshal, WithStrict, NewDecoder, Decode, More. simpl. rewrite Hr.
    simpl in *. rewrite object_lenient_known, Hok. simpl. rewrite Hp.
    reflexivity.
Qed.

(** Claim C1.  After the object of these inputs comes a closing brace, or
    bracket, and more: [More] answers false on a closing brace or bracket,
    and [Unmarshal] returns the decoded struct and no error, in strict mode
    and without it.  Other trailing content is rejected. *)
Example Unmarshal_accepts_trailing_brace :
  Unmarshal (mkSchema NameOnly true) (q "{'name':'x'}}GARBAGE")
    = (Some [("name", Reflect.VString "x")], None) /\
  Unmarshal (mkSchema NameOnly false) (q "{'name':'x'}]{'name':'y'}")
    = (Some [("name", Reflect.VString "x")], None) /\
  (exists e, Unmarshal (mkSchema NameOnly true) (q "{'name':'x'}GARBAGE") = (None, Some e)).
Proof. repeat split. eexists. reflexivity. Qed.

(** *** The store *)

Lemma load_store_same (h : Store) (p : Pointer) (v : Reflect.StructValue) :
  (p < length h)%nat -> load (store h p v) p = Some v.
Proof.
  revert p. induction h as [ | x h IH ]; intros [ | p ] H; simpl in *;
    try lia; [ reflexivity | apply IH; lia ].
Qed.

Lemma load_store_other (h : Store) (p p' : Pointer) (v : Reflect.StructValue) :
  p' <> p -> load (store h p v) p' = load h p'.
Proof.
  revert p p'. induction h as [ | x h IH ]; intros [ | p ] [ | p' ] H; simpl;
    try reflexivity; try congruence. apply IH. congruence.
Qed.

Lemma load_alloc_new (h : Store) (v : Reflect.StructValue) :
  load (h ++ [v])%list (length h) = Some v.
Proof.
  unfold load. rewrite nth_error_app2 by lia. rewrite Nat.sub_diag. reflexivity.
Qed.

Lemma load_alloc_old (h : Store) (v : Reflect.StructValue) (p : Pointer) :
  (p < length h)%nat -> load (h ++ [v])%list p = load h p.
Proof. intros H. unfold load. apply nth_error_app1. exact H. Qed.

Lemma length_store (h : Store) (p : Pointer) (v : Reflect.StructValue) :
  length (store h p v) = length h.
Proof.
  revert p. induction h as [ | x h IH ]; intros [ | p ]; simpl;
    try reflexivity. rewrite IH. reflexivity.
Qed.

(** [Unmarshal] in a store: the pointer is new, the struct it leads to is
    the one [Unmarshal] decodes, and no other struct of the store changes. *)
Lemma Unmarshal_ptr_Unmarshal (s : Schema) (data : string) (h : Store) :
  exists h',
    Unmarshal_ptr s data h =
      (option_map (fun _ => length h) (fst (Unmarshal s data)),
       snd (Unmarshal s data), h') /\
    length h' = S (length h) /\
    (forall p, (p < length h)%nat -> load h' p = load h p) /\
    (forall x, fst (Unmarshal s data) = Some x -> load h' (length h) = Some x).
Proof.
  unfold Unmarshal_ptr, Unmarshal, reflect_New, Decode_ptr.
  rewrite load_alloc_new.
  destruct (Decode _ (targetType s) (Reflect.New (targetType s))) as [[v err] dec].
  exists (store (h ++ [Reflect.New (targetType s)])%list (length h) v).
  assert (L : (length h < length (h ++ [Reflect.New (targetType s)])%list)%nat)
    by (rewrite length_app; simpl; lia).
  split; [ | split; [ | split ] ].
  - destruct err as [e | ]; [ reflexivity | ].
    destruct (More dec); reflexivity.
  - rewrite length_store, length_app. simpl. lia.
  - intros p Hp. rewrite load_store_other by lia. apply load_alloc_old. exact Hp.
  - intros x Hx. rewrite (load_store_same _ _ _ L).
    destruct err as [e | ]; [ discriminate Hx | ].
    destruct (More dec); [ discriminate Hx | ]. simpl in Hx. exact Hx.
Qed.

(** Claim C9.  [Unmarshal] decodes into a struct of its own, newly
    allocated, and reads nothing but the input, the target type and the
    strictness flag.  So two decodings that agree on the three agree on
    their outcome whatever the store holds: the same error, or two structs
    with the same content.  And when the same text is decoded twice in a
    row the second decoding returns a pointer of its own and leaves the
    struct of the first as it is: the two decoded values are equal. *)
Theorem Unmarshal_deterministic :
  forall (s1 s2 : Schema) (data : string),
    targetType s1 = targetType s2 ->
    strict s1 = strict s2 ->
    (forall (h1 h2 h1' h2' : Store) (p1 p2 : option Pointer) (e1 e2 : option error),
        Unmarshal_ptr s1 data h1 = (p1, e1, h1') ->
        Unmarshal_ptr s2 data h2 = (p2, e2, h2') ->
        e1 = e2 /\
        match p1, p2 with
        | Some p1, Some p2 =>
            exists v, load h1' p1 = Some v /\ load h2' p2 = Some v
        | None, None => True
        | _, _ => False
        end) /\
    (forall (h h1 h2 : Store) (p1 p2 : Pointer),
        Unmarshal_ptr s1 data h = (Some p1, None, h1) ->
        Unmarshal_ptr s2 data h1 = (Some p2, None, h2) ->
        p1 <> p2 /\
        exists v, load h1 p1 = Some v /\ load h2 p1 = Some v /\ load h2 p2 = Some v).
Proof.
  intros [t b1] [t2 b2] data. simpl. intros <- <-.
  set (s := mkSchema t b1). split.
  - intros h1 h2 h1' h2' p1 p2 e1 e2 H1 H2.
    destruct (Unmarshal_ptr_Unmarshal s data h1) as (k1 & E1 & _ & _ & V1).
    destruct (Unmarshal_ptr_Unmarshal s data h2) as (k2 & E2 & _ & _ & V2).
    rewrite E1 in H1. rewrite E2 in H2. inversion H1. inversion H2. subst.
    split; [ reflexivity | ].
    destruct (fst (Unmarshal s data)) as [x | ]; simpl; [ | exact I ].
    exists x. split; [ apply V1 | apply V2 ]; reflexivity.
  - intros h h1 h2 p1 p2 H1 H2.
    destruct (Unmarshal_ptr_Unmarshal s data h) as (k1 & E1 & L1 & _ & V1).
    destruct (Unmarshal_ptr_Unmarshal s data h1) as (k2 & E2 & _ & O2 & V2).
    rewrite E1 in H1. rewrite E2 in H2.
    destruct (fst (Unmarshal s data)) as [x | ]; simpl in *; [ | discriminate H1 ].
    inversion H1. inversion H2. subst.
    split; [ lia | ]. exists x.
    split; [ apply V1; reflexivity | ].
    split; [ rewrite O2 by lia; apply V1; reflexivity | apply V2; reflexivity ].
Qed.


(** ** Where [readValue] stops *)

Ltac split_scan H :=
  repeat match type of H with
         | context [if ?b then _ else _] => destruct b eqn:?
         | context [match parseState ?s with _ => _ end] => destruct (parseState s) eqn:?
         | context [match value ?s with _ => _ end] => destruct (value s) eqn:?
         | context [match ?x with parseObjectKey _ => _ | _ => _ end] => destruct x
         | context [match ?x with JString _ => _ | _ => _ end] => destruct x
         end.

(** one step of the scanner, from a state in which [readValue] is still
    reading: what the state is like afterwards, by the opcode returned *)
Lemma scan_step_scanning (s s' : scanner) (c : ascii) (op : opcode) :
  scanning s ->
  scan_step s c = (op, s') ->
  match op with
  | scanEnd => match value s' with
               | Some j => composite j = false
               | None => True
               end
  | scanError => True
  | scanEndObject | scanEndArray =>
      match value s' with
      | Some j => composite j = true
      | None => False
      end /\
      (parseState s' <> [] -> step s' = StEndValue)
  | _ => scanning s'
  end.
Proof.
  intros [Hstep Hval] H. unfold scan_step in H.
  destruct (step s) eqn:Es; try congruence;
    unfold stateBeginValueOrEmpty, stateBeginStringOrEmpty, stateBeginValue,
      stateBeginString, stateInString, stateInStringEsc, stateHex, stateNeg,
      state1, state0, stateDot, stateDot0, stateE, stateESign, stateE0,
      stateExpect, stateLast, endNumber, stateEndValue, stateEndTop,
      pushParseState, popParseState, scan_error, continue, beginLiteral,
      endLiteral, set_step, attach in H;
    simpl in H; split_scan H; inversion H; subst; clear H;
    unfold scanning; simpl;
    repeat match goal with
           | |- _ /\ _ => split
           | |- _ -> _ => intro
           end;
    try congruence; try exact I; try reflexivity; try discriminate;
    try (apply Hval; assumption); try (apply Hval; reflexivity);
    try (rewrite Es; discriminate);
    try (match goal with
         | Hv : value s = _, Hp : parseState s = [] |- _ =>
             specialize (Hval Hp); rewrite Hv in Hval; exact Hval
         end).
Qed.

Lemma scanning_reset : scanning reset.
Proof. split; [ discriminate | intros _; exact I ]. Qed.

Lemma the_value_inv (s : scanner) (rest : string) (j : json) (rest' : string) :
  the_value s rest = ReadValue j rest' -> value s = Some j /\ rest = rest'.
Proof.
  unfold the_value. destruct (value s); intros H; inversion H. split; reflexivity.
Qed.

(** An object or an array ends at its closing byte: whatever follows it in
    the input, [readValue] returns the same value and leaves what follows
    unread. *)
Lemma readValue_from_tail (buf : string) :
  forall (s : scanner) (data : string) (j : json),
    scanning s ->
    readValue_from data s buf = ReadValue j EmptyString ->
    composite j = true ->
    forall (t data' : string),
      readValue_from data' s (buf ++ t) = ReadValue j t.
Proof.
  induction buf as [ | c rest IH ]; intros s data j Hs Hr Hj t data'.
  - (* the reader cannot be at its end: a composite value is returned at
       its closing byte *)
    simpl in Hr. destruct (scan_step s " ") as [op s'] eqn:E.
    pose proof (scan_step_scanning s s' " " op Hs E) as H.
    destruct op; try (destruct (nonSpace data); discriminate Hr).
    apply the_value_inv in Hr. destruct Hr as [Hv _]. rewrite Hv in H. congruence.
  - simpl in Hr. simpl. destruct (scan_step s c) as [op s'] eqn:E.
    pose proof (scan_step_scanning s s' c op Hs E) as H.
    assert (Hend : forall op' s'',
               stateEndValue s' " " = (op', s'') -> op' <> scanEnd -> scanning s'').
    { intros op' s'' E' Hop. unfold stateEndValue in E'.
      destruct (parseState s') eqn:Ep.
      - unfold stateEndTop in E'. simpl in E'. inversion E'. congruence.
      - simpl in E'. inversion E'. split; simpl; [ discriminate | congruence ]. }
    destruct op;
      try (apply (IH s' data j H Hr Hj));
      try discriminate Hr;
      try (apply the_value_inv in Hr; destruct Hr as [_ Hr]; discriminate Hr);
      (destruct (stateEndValue s' " ") as [op' s''] eqn:E';
       destruct op';
       try (apply (IH s'' data j (Hend _ _ eq_refl ltac:(discriminate)) Hr Hj));
       apply the_value_inv in Hr; destruct Hr as [Hv Hrest]; subst rest;
       unfold the_value; rewrite Hv; reflexivity).
Qed.

Lemma readValue_tail (v : string) (j : json) (t : string) :
  readValue v = ReadValue j EmptyString -> composite j = true ->
  readValue (v ++ t) = ReadValue j t.
Proof.
  intros Hr Hj. unfold readValue.
  apply (readValue_from_tail v reset v j scanning_reset Hr Hj).
Qed.

(** The check for trailing data, on every input made of an object that
    [Unmarshal] accepts and of a tail: a tail that begins, after white
    space, with a closing brace or bracket is accepted with the object's
    value; a tail that begins with another byte is rejected. *)
Lemma Unmarshal_tail (s : Schema) (v : string) (ms : list (string * json))
    (x : Reflect.StructValue) (t : string) :
  readValue v = ReadValue (JObject ms) EmptyString ->
  Unmarshal s v = (Some x, None) ->
  match peek t with
  | Some c =>
      if (c =? "}")%char || (c =? "]")%char
      then Unmarshal s (v ++ t) = (Some x, None)
      else Unmarshal s (v ++ t) = (None, Some (errorString "trailing data after JSON"))
  | None => Unmarshal s (v ++ t) = (Some x, None)
  end.
Proof.
  intros Hr Hok.
  pose proof (readValue_tail v (JObject ms) t Hr eq_refl) as Ht.
  unfold Unmarshal, NewDecoder, DisallowUnknownFields, Decode, More in *.
  destruct (strict s); simpl in *; rewrite Hr in Hok; rewrite Ht; simpl in *;
    destruct (savedError _) as [e | ]; try discriminate Hok;
    inversion Hok; subst x;
    (destruct (peek t) as [c | ]; [ | reflexivity ]);
    destruct (Ascii.eqb_spec c "]"); try (subst c; reflexivity);
    destruct (Ascii.eqb_spec c "}"); try (subst c; reflexivity);
    reflexivity.
Qed.

(** ** The options of [New] *)

Section OptionProperties.

Variable World : Type.

Lemma applyOptions_app (l1 l2 : list (Option World)) (g : Guard World) :
  applyOptions (l1 ++ l2) g =
  match applyOptions l1 g with
  | (g', Some err) => (g', Some err)
  | (g', None) => applyOptions l2 g'
  end.
Proof.
  revert g. induction l1 as [ | o l1 IH ]; intros g; simpl; [ reflexivity | ].
  destruct (o g) as [g' [err | ]]; [ reflexivity | apply IH ].
Qed.

(** what [New] returns is the guard the options have built *)
Lemma New_applyOptions (opts : list (Option World)) (g : Guard World) :
  New opts = (Some g, None) ->
  applyOptions opts (mkGuard None [] [] None DefaultRetryConfig 0 false) = (g, None).
Proof.
  unfold New. destruct (applyOptions opts _) as [g' [err | ]]; [ discriminate | ].
  destruct (client g'); [ | discriminate ].
  destruct (schema g'); [ destruct (negb (strictSchema g')) | ];
    intros H; inversion H; reflexivity.
Qed.

(** the option [WithSchema] installs a strict schema *)
Lemma WithSchema_strict (v : option Reflect.GoType) (g g' : Guard World) :
  WithSchema World v g = (g', None) -> has_strict_schema g'.
Proof.
  unfold WithSchema. destruct (NewSchema v) as [s [err | ]] eqn:E; [ discriminate | ].
  intros H. inversion H. subst g'. simpl.
  destruct s as [s | ].
  - exists s. split; [ reflexivity | exact (NewSchema_strict v s E) ].
  - destruct v as [[k | t | [k | t | e]] | ]; discriminate E.
Qed.

(** every option but [WithStrictSchema(false)] leaves a strict schema strict *)
Lemma option_keeps_strict (c : OptionCall World) (g g' : Guard World) :
  isStrictSchemaOff c = false ->
  option_of c g = (g', None) ->
  has_strict_schema g -> has_strict_schema g'.
Proof.
  intros Hc Hopt (s & Hs & Hstrict).
  destruct c as [c | v | ds | vs | config | maxRetries | t | b]; simpl in *.
  - unfold WithClient in Hopt. destruct c; inversion Hopt. exists s. tauto.
  - exact (WithSchema_strict v g g' Hopt).
  - unfold WithDetectors in Hopt. destruct (notNil ds); inversion Hopt. exists s. tauto.
  - unfold WithValidators in Hopt. destruct (notNil vs); inversion Hopt. exists s. tauto.
  - unfold WithRetry in Hopt. destruct (RetryConfig_Validate config); inversion Hopt.
    exists s. tauto.
  - unfold WithMaxRetries in Hopt. destruct (maxRetries <? 1); inversion Hopt.
    exists s. tauto.
  - unfold WithTimeout in Hopt. destruct (t <? 0); inversion Hopt. exists s. tauto.
  - destruct b; [ | discriminate ].
    unfold WithStrictSchema in Hopt. inversion Hopt. unfold has_strict_schema.
    simpl. rewrite Hs.
    exists (WithStrict s true). split; reflexivity.
Qed.

Lemma options_keep_strict (cs : list (OptionCall World)) :
  forallb (fun c => negb (isStrictSchemaOff c)) cs = true ->
  forall g g', applyOptions (map option_of cs) g = (g', None) ->
               has_strict_schema g -> has_strict_schema g'.
Proof.
  induction cs as [ | c cs IH ]; simpl; intros Hall g g' Happ Hg.
  - inversion Happ. subst g'. exact Hg.
  - apply andb_prop in Hall. destruct Hall as [Hc Hall].
    apply negb_true_iff in Hc.
    destruct (option_of c g) as [g1 [err | ]] eqn:E; [ discriminate | ].
    apply (IH Hall g1 g' Happ). exact (option_keeps_strict c g g1 Hc E Hg).
Qed.

(** Claim C10, as amended.  The strictness set through the options depends
    on their order.  When [WithStrictSchema(false)] comes before
    [WithSchema] in the arguments of [New] and no [WithStrictSchema(false)]
    comes after that [WithSchema], the schema of the guard is strict and
    rejects unknown fields; when [WithStrictSchema(false)] is the option
    after [WithSchema], the schema is not strict. *)
Theorem strict_flag_before_schema_is_lost :
  forall (pre post : list (OptionCall World)) (v : option Reflect.GoType),
    In (CallWithStrictSchema false) pre ->
    forallb (fun c => negb (isStrictSchemaOff c)) post = true ->
    (forall g,
        New (map option_of (pre ++ CallWithSchema v :: post)) = (Some g, None) ->
        exists s,
          schema g = Some s /\ IsStrict s = true /\
          forall data j rest key,
            readValue data = ReadValue j rest ->
            In key (keys_of j) ->
            fieldFor (targetType s) key = None ->
            exists e, Unmarshal s data = (None, Some e)) /\
    (forall g,
        New (map option_of (pre ++ [CallWithSchema v; CallWithStrictSchema false]))
          = (Some g, None) ->
        exists s, schema g = Some s /\ IsStrict s = false).
Proof.
  intros pre post v _ Hpost. split; intros g Hnew;
    apply New_applyOptions in Hnew; rewrite map_app, applyOptions_app in Hnew;
    destruct (applyOptions (map option_of pre) _) as [g0 [err | ]];
    try discriminate; simpl in Hnew;
    destruct (WithSchema World v g0) as [g1 [err | ]] eqn:E; try discriminate;
    pose proof (WithSchema_strict v g0 g1 E) as H1.
  - destruct (options_keep_strict post Hpost g1 g Hnew H1) as (s & Hs & Hstrict).
    exists s. split; [ exact Hs | split; [ exact Hstrict | ] ].
    intros data j rest key. apply strict_Unmarshal_rejects. exact Hstrict.
  - destruct H1 as (s & Hs & _). unfold WithStrictSchema in Hnew.
    inversion Hnew. simpl. rewrite Hs. exists (WithStrict s false).
    split; reflexivity.
Qed.

End OptionProperties.


(** ** The pipeline *)

Section RunProperties.

Variable World : Type.
Variable time_Now : World -> Z.
Variable rand_Float64 : World -> Q.
Variable wait : Context -> time_Duration -> World -> option error * World.

Local Arguments shouldRetry : simpl never.
Local Arguments parseSchema : simpl never.
Local Arguments delay : simpl never.


(** the detectors that pass are called one after the other, and each call
    is recorded *)
Lemma runDetectors_from_pass (ctx : Context) (prompt : string) (pre : list (Detector World)) :
  forall w w1, all_pass (detector_calls pre ctx prompt) w w1 ->
  forall rest tr,
    runDetectors_from World (pre ++ rest) ctx prompt (mkState w tr) =
    runDetectors_from World rest ctx prompt
      (mkState w1 (tr ++ map (fun d => CallDetect (Detector_Name d)) pre)).
Proof.
  induction pre as [ | d pre IH ]; intros w w1 H rest tr;
    inversion H as [ | f fs w0 w' w1' Hf Hrest ]; subst.
  - simpl. rewrite app_nil_r. reflexivity.
  - simpl. unfold bind, call. simpl. rewrite Hf.
    rewrite (IH _ _ Hrest). rewrite <- app_assoc. reflexivity.
Qed.

Lemma runValidators_from_pass (ctx : Context) (output : string) (pre : list (Validator World)) :
  forall w w1, all_pass (validator_calls pre ctx output) w w1 ->
  forall rest tr,
    runValidators_from World (pre ++ rest) ctx output (mkState w tr) =
    runValidators_from World rest ctx output
      (mkState w1 (tr ++ map (fun v => CallValidate (Validator_Name v)) pre)).
Proof.
  induction pre as [ | v pre IH ]; intros w w1 H rest tr;
    inversion H as [ | f fs w0 w' w1' Hf Hrest ]; subst.
  - simpl. rewrite app_nil_r. reflexivity.
  - simpl. unfold bind, call. simpl. rewrite Hf.
    rewrite (IH _ _ Hrest). rewrite <- app_assoc. reflexivity.
Qed.

(** Claim C3.  When the detectors before [d] let the prompt pass and [d]
    rejects it, [Run] returns the [DetectionError] of [d], under its name;
    the calls of the run are those of the detectors up to [d] and no other:
    none of a later detector, none of the client, no wait; and the error is
    one that is not retried. *)
Theorem Run_stops_at_first_detection :
  forall (g : Guard World) (ctx : Context) (prompt : string) (s : State World)
         (pre post : list (Detector World)) (d : Detector World)
         (err : error) (w1 w2 : World),
    detectors g = (pre ++ d :: post)%list ->
    all_pass (detector_calls pre (run_context g ctx) prompt) (world s) w1 ->
    Detect d (run_context g ctx) prompt w1 = (Some err, w2) ->
    let calls := map (fun d => CallDetect (Detector_Name d)) (pre ++ [d]) in
    Run World time_Now rand_Float64 wait g ctx prompt s =
      Some ((None, Some (DetectionError (Detector_Name d) (Some err))),
            mkState w2 (trace s ++ calls)) /\
    ~ In CallGenerate calls /\
    (forall t, ~ In (Sleep t) calls) /\
    shouldRetry (Some (DetectionError (Detector_Name d) (Some err))) = false.
Proof.
  intros g ctx prompt [w tr] pre post d err w1 w2 Hds Hpre Hd calls.
  split; [ | split; [ | split ] ].
  - unfold Run, bind, now, runDetectors. simpl in *. fold (run_context g ctx).
    rewrite Hds, (runDetectors_from_pass _ _ pre w w1 Hpre).
    simpl. unfold bind, call. simpl. rewrite Hd. unfold calls.
    rewrite map_app, app_assoc. reflexivity.
  - unfold calls. rewrite in_map_iff. intros (x & Hx & _). discriminate Hx.
  - intros t. unfold calls. rewrite in_map_iff. intros (x & Hx & _). discriminate Hx.
  - reflexivity.
Qed.

(** the wait before an attempt, when it runs to its end *)
Lemma backoff_wait_over (c : RetryConfig) (ctx : Context) (a : Z) (w w0 : World) :
  wait_over World rand_Float64 wait c ctx a w w0 ->
  forall tr, exists tr',
    (if 0 <? a then backoff World rand_Float64 wait c ctx a else ret World None) (mkState w tr)
    = Some (None, mkState w0 tr').
Proof.
  intros H tr. destruct H as [w Ha | w Ha Hd | w w' Ha Hd Hw].
  - replace (0 <? a) with false by (symmetry; apply Z.ltb_ge; exact Ha).
    exists tr. reflexivity.
  - replace (0 <? a) with true by (symmetry; apply Z.ltb_lt; exact Ha).
    exists tr. unfold backoff. simpl. rewrite Hd. reflexivity.
  - replace (0 <? a) with true by (symmetry; apply Z.ltb_lt; exact Ha).
    eexists. unfold backoff. simpl.
    replace (delay c a (rand_Float64 w) =? 0) with false
      by (symmetry; apply Z.eqb_neq; exact Hd).
    unfold call. simpl. rewrite Hw. reflexivity.
Qed.

(** an attempt that fails with a failure to retry is followed by the next
    iteration, which finds that failure in [lastErr] *)
Lemma Run_loop_attempt_fails (g : Guard World) (ctx : Context) (prompt : string)
    (a : Z) (w w0 w1 : World) (e : error) :
  wait_over World rand_Float64 wait (retry g) ctx a w w0 ->
  attempt_fails World g ctx prompt w0 e w1 ->
  shouldRetry (Some e) = true ->
  forall startTime n last tr, exists tr',
    Run_loop World time_Now rand_Float64 wait g ctx prompt startTime (S n) a last (mkState w tr)
    = Run_loop World time_Now rand_Float64 wait g ctx prompt startTime n (a + 1) (Some e) (mkState w1 tr').
Proof.
  intros Hwait Hfail Hretry startTime n last tr.
  destruct (backoff_wait_over _ _ _ _ _ Hwait tr) as [tr0 Hb].
  simpl. unfold bind at 1. rewrite Hb.
  destruct Hfail as
    [ c w0 output err w1 Hc Hgen
    | c w0 output w' pre v post w'' err w1 Hc Hgen Hvs Hpre Hv
    | c w0 output w' w1 parsed err Hc Hgen Hvs Hparse ].
  - unfold bind, client_Generate. rewrite Hc. unfold call. simpl. rewrite Hgen.
    rewrite Hretry. simpl. eexists. reflexivity.
  - unfold bind at 1, client_Generate. rewrite Hc. unfold call at 1. simpl. rewrite Hgen.
    unfold bind, runValidators. rewrite Hvs.
    rewrite (runValidators_from_pass _ _ pre _ _ Hpre).
    simpl. unfold bind, call. simpl. rewrite Hv. simpl. rewrite Hretry. simpl.
    eexists. reflexivity.
  - unfold bind at 1, client_Generate. rewrite Hc. unfold call at 1. simpl. rewrite Hgen.
    unfold bind, runValidators.
    rewrite <- (app_nil_r (validators g)).
    rewrite (runValidators_from_pass _ _ (validators g) _ _ Hvs).
    simpl. unfold ret at 1. rewrite Hparse. rewrite Hretry. simpl.
    eexists. reflexivity.
Qed.

Lemma Run_loop_failing_attempts (g : Guard World) (ctx : Context) (prompt : string) :
  forall k a w w',
    failing_attempts World rand_Float64 wait g ctx prompt k a w w' ->
    forall startTime n last tr, exists last' tr',
      Run_loop World time_Now rand_Float64 wait g ctx prompt startTime (k + n) a last (mkState w tr)
      = Run_loop World time_Now rand_Float64 wait g ctx prompt startTime n (a + Z.of_nat k) last' (mkState w' tr').
Proof.
  intros k a w w' H.
  induction H as [ a w | k a w w0 e w1 w2 Hwait Hfail Hretry Hrest IH ];
    intros startTime n last tr.
  - exists last, tr. simpl. rewrite Z.add_0_r. reflexivity.
  - destruct (Run_loop_attempt_fails g ctx prompt a w w0 w1 e Hwait Hfail Hretry
                startTime (k + n)%nat last tr) as [tr1 H1].
    destruct (IH startTime n (Some e) tr1) as (last' & tr' & H2).
    exists last', tr'. change (S k + n)%nat with (S (k + n)).
    rewrite H1, H2. f_equal. lia.
Qed.

(** Claim C5.  When every pre-check passes and every one of the
    [MaxAttempts] attempts takes place and ends in a failure that
    [shouldRetry] lets through -- the first [MaxAttempts - 1] of them, then,
    its wait over, the last one, with the wrapped failure [e] -- [Run] returns
    a [MaxRetriesError] whose [Attempts] is [MaxAttempts] and whose [LastErr]
    is [e]. *)
Theorem Run_exhausts_retries :
  forall (g : Guard World) (ctx : Context) (prompt : string) (s : State World)
         (w1 w2 w3 w4 : World) (e : error),
    1 <= MaxAttempts (retry g) ->
    all_pass (detector_calls (detectors g) (run_context g ctx) prompt) (world s) w1 ->
    failing_attempts World rand_Float64 wait g (run_context g ctx) prompt
      (Z.to_nat (MaxAttempts (retry g) - 1)) 0 w1 w2 ->
    wait_over World rand_Float64 wait (retry g) (run_context g ctx) (MaxAttempts (retry g) - 1) w2 w3 ->
    attempt_fails World g (run_context g ctx) prompt w3 e w4 ->
    shouldRetry (Some e) = true ->
    exists tr,
      Run World time_Now rand_Float64 wait g ctx prompt s =
        Some ((None, Some (MaxRetriesError (MaxAttempts (retry g)) (Some e))),
              mkState w4 tr).
Proof.
  intros g ctx prompt [w tr] w1 w2 w3 w4 e HM Hdet Hfirst Hwait Hlast Hretry.
  unfold Run, bind, now, runDetectors. simpl in *. fold (run_context g ctx).
  rewrite <- (app_nil_r (detectors g)).
  rewrite (runDetectors_from_pass _ _ (detectors g) w w1 Hdet). simpl.
  set (k := Z.to_nat (MaxAttempts (retry g) - 1)) in *.
  replace (Z.to_nat (MaxAttempts (retry g))) with (k + 1)%nat by (unfold k; lia).
  destruct (Run_loop_failing_attempts g _ prompt k 0 w1 w2 Hfirst
              (time_Now w) 1%nat None
              (tr ++ map (fun d => CallDetect (Detector_Name d)) (detectors g)))
    as (last & tr2 & H2).
  rewrite H2.
  replace (0 + Z.of_nat k) with (MaxAttempts (retry g) - 1) by (unfold k; lia).
  destruct (Run_loop_attempt_fails g _ prompt _ w2 w3 w4 e Hwait Hlast Hretry
              (time_Now w) 0%nat last tr2) as [tr4 H4].
  rewrite H4. exists tr4. reflexivity.
Qed.

(** Claim C7.  When every pre-check passes, each of the attempts 1 to [k-1]
    ends in a failure that [shouldRetry] lets through and attempt
    [k <= MaxAttempts], its wait over, succeeds in its generation, its
    post-checks and its decoding, [Run] returns a result whose [Attempts] is
    [k], with the text and the value of that attempt. *)
Theorem Run_counts_attempts :
  forall (g : Guard World) (ctx : Context) (prompt : string) (s : State World)
         (k : Z) (w1 w2 w3 w4 : World) (output : string)
         (parsed : option Reflect.StructValue),
    1 <= k <= MaxAttempts (retry g) ->
    all_pass (detector_calls (detectors g) (run_context g ctx) prompt) (world s) w1 ->
    failing_attempts World rand_Float64 wait g (run_context g ctx) prompt (Z.to_nat (k - 1)) 0 w1 w2 ->
    wait_over World rand_Float64 wait (retry g) (run_context g ctx) (k - 1) w2 w3 ->
    attempt_succeeds World g (run_context g ctx) prompt w3 output parsed w4 ->
    exists r tr,
      Run World time_Now rand_Float64 wait g ctx prompt s = Some ((Some r, None), mkState w4 tr) /\
      Attempts (Metadata_ r) = k /\
      Raw r = output /\
      Parsed r = parsed.
Proof.
  intros g ctx prompt [w tr] k w1 w2 w3 w4 output parsed Hk Hdet Hfirst Hwait Hok.
  unfold Run, bind, now, runDetectors. simpl in *. fold (run_context g ctx).
  rewrite <- (app_nil_r (detectors g)).
  rewrite (runDetectors_from_pass _ _ (detectors g) w w1 Hdet). simpl.
  set (j := Z.to_nat (k - 1)) in *.
  replace (Z.to_nat (MaxAttempts (retry g)))
    with (j + S (Z.to_nat (MaxAttempts (retry g) - k)))%nat by (unfold j; lia).
  destruct (Run_loop_failing_attempts g _ prompt j 0 w1 w2 Hfirst
              (time_Now w) (S (Z.to_nat (MaxAttempts (retry g) - k))) None
              (tr ++ map (fun d => CallDetect (Detector_Name d)) (detectors g)))
    as (last & tr2 & H2).
  rewrite H2.
  replace (0 + Z.of_nat j) with (k - 1) by (unfold j; lia).
  destruct (backoff_wait_over _ _ _ _ _ Hwait tr2) as [tr3 Hb].
  simpl. unfold bind at 1. rewrite Hb.
  destruct Hok as [c w3 output w' w4 parsed Hc Hgen Hvs Hparse].
  unfold bind at 1, client_Generate. rewrite Hc. unfold call at 1. simpl. rewrite Hgen.
  unfold bind at 1, runValidators.
  rewrite <- (app_nil_r (validators g)).
  rewrite (runValidators_from_pass _ _ (validators g) _ _ Hvs).
  simpl. unfold ret at 1. rewrite Hparse.
  unfold bind, now, ret. simpl.
  eexists. eexists. split; [ reflexivity | ]. simpl.
  split; [ lia | split; reflexivity ].
Qed.

End RunProperties.

(** ** What [New] guarantees, and that [Run] returns *)

Section Totality.

Variable World : Type.
Variable time_Now : World -> Z.
Variable rand_Float64 : World -> Q.
Variable wait : Context -> time_Duration -> World -> option error * World.

Local Arguments shouldRetry : simpl never.
Local Arguments parseSchema : simpl never.
Local Arguments delay : simpl never.

Lemma runValidators_from_returns (vs : list (Validator World)) (ctx : Context)
    (output : string) :
  forall s, exists err s', runValidators_from World vs ctx output s = Some (err, s').
Proof.
  induction vs as [ | v vs IH ]; intros s; simpl.
  - exists None, s. reflexivity.
  - unfold bind, call. destruct (Validate v ctx output (world s)) as [[err | ] w].
    + eexists. eexists. reflexivity.
    + apply IH.
Qed.

Lemma runDetectors_from_returns (ds : list (Detector World)) (ctx : Context)
    (prompt : string) :
  forall s, exists err s', runDetectors_from World ds ctx prompt s = Some (err, s').
Proof.
  induction ds as [ | d ds IH ]; intros s; simpl.
  - exists None, s. reflexivity.
  - unfold bind, call. destruct (Detect d ctx prompt (world s)) as [[err | ] w].
    + eexists. eexists. reflexivity.
    + apply IH.
Qed.

Lemma Run_loop_returns (g : Guard World) (c : Client World) (ctx : Context)
    (prompt : string) (startTime : Z) :
  client g = Some c ->
  forall n attempt lastErr s,
  exists r s',
    Run_loop World time_Now rand_Float64 wait g ctx prompt startTime n attempt lastErr s
      = Some (r, s') /\ terminal r.
Proof.
  intros Hc. induction n as [ | n IH ]; intros attempt lastErr s.
  - eexists. eexists. split; [ reflexivity | right; eexists; reflexivity ].
  - simpl. unfold bind at 1.
    assert (Hb : exists err s0,
               (if 0 <? attempt
                then backoff World rand_Float64 wait (retry g) ctx attempt
                else ret World None) s = Some (err, s0)).
    { destruct (0 <? attempt); [ | eexists; eexists; reflexivity ].
      unfold backoff.
      destruct (delay (retry g) attempt (rand_Float64 (world s)) =? 0).
      - eexists. eexists. reflexivity.
      - unfold call. destruct (wait ctx _ (world s)). eexists. eexists. reflexivity. }
    destruct Hb as (berr & s0 & Hb). rewrite Hb.
    destruct berr as [berr | ].
    { eexists. eexists. split; [ reflexivity | right; eexists; reflexivity ]. }
    unfold bind at 1, client_Generate. rewrite Hc. unfold call at 1.
    destruct (Generate c ctx prompt (world s0)) as [[output [gerr | ]] w1].
    { destruct (negb (shouldRetry (Some (GenerationError (Some gerr))))).
      - eexists. eexists. split; [ reflexivity | right; eexists; reflexivity ].
      - apply IH. }
    unfold bind at 1, runValidators.
    destruct (runValidators_from_returns (validators g) ctx output
                (mkState w1 (trace s0 ++ [CallGenerate]))) as (verr & s2 & Hv).
    rewrite Hv. destruct verr as [verr | ].
    { destruct (negb (shouldRetry (Some verr))).
      - eexists. eexists. split; [ reflexivity | right; eexists; reflexivity ].
      - apply IH. }
    destruct (parseSchema g output) as [parsed [perr | ]].
    { destruct (negb (shouldRetry (Some (SchemaError (Some perr))))).
      - eexists. eexists. split; [ reflexivity | right; eexists; reflexivity ].
      - apply IH. }
    unfold bind, now, ret. eexists. eexists.
    split; [ reflexivity | left; eexists; reflexivity ].
Qed.

(** with a client in place [Run] does not panic: it returns one terminal
    value, a result or an error *)
Lemma Run_returns (g : Guard World) (c : Client World) (ctx : Context) (prompt : string) :
  client g = Some c ->
  forall s, exists r s',
    Run World time_Now rand_Float64 wait g ctx prompt s = Some (r, s') /\ terminal r.
Proof.
  intros Hc s. unfold Run, bind at 1, now. unfold bind at 1, runDetectors.
  destruct (runDetectors_from_returns (detectors g)
              (if 0 <? timeout g then context_WithTimeout ctx (timeout g) else ctx)
              prompt s) as (derr & s1 & Hd).
  rewrite Hd. destruct derr as [derr | ].
  - eexists. eexists. split; [ reflexivity | right; eexists; reflexivity ].
  - apply (Run_loop_returns g c _ prompt _ Hc).
Qed.

(** the guard [New] returns has a client and a retry policy that
    [Validate] accepts *)
Lemma option_keeps_valid (c : OptionCall World) (g g' : Guard World) :
  option_of c g = (g', None) ->
  RetryConfig_Validate (retry g) = None ->
  RetryConfig_Validate (retry g') = None.
Proof.
  intros Hopt Hv.
  destruct c as [c | v | ds | vs | config | maxRetries | t | b]; simpl in *.
  - unfold WithClient in Hopt. destruct c; inversion Hopt. exact Hv.
  - unfold WithSchema in Hopt. destruct (NewSchema v) as [s [e | ]]; inversion Hopt.
    exact Hv.
  - unfold WithDetectors in Hopt. destruct (notNil ds); inversion Hopt. exact Hv.
  - unfold WithValidators in Hopt. destruct (notNil vs); inversion Hopt. exact Hv.
  - unfold WithRetry in Hopt.
    destruct (RetryConfig_Validate config) eqn:E; inversion Hopt. exact E.
  - unfold WithMaxRetries in Hopt.
    destruct (maxRetries <? 1) eqn:E; inversion Hopt. simpl.
    destruct (RetryConfig_Validate_ok _ Hv) as (_ & HI & HM & Hm & J0 & J1).
    unfold RetryConfig_Validate. simpl. rewrite E.
    replace (InitialDelay (retry g) <? 0) with false by (symmetry; apply Z.ltb_ge; exact HI).
    replace (MaxDelay (retry g) <? 0) with false by (symmetry; apply Z.ltb_ge; exact HM).
    replace (Qltb (Multiplier (retry g)) 1) with false
      by (symmetry; apply Qltb_false; exact Hm).
    replace (Qltb (Jitter (retry g)) 0) with false
      by (symmetry; apply Qltb_false; exact J0).
    replace (Qltb 1 (Jitter (retry g))) with false
      by (symmetry; apply Qltb_false; exact J1).
    reflexivity.
  - unfold WithTimeout in Hopt. destruct (t <? 0); inversion Hopt. exact Hv.
  - unfold WithStrictSchema in Hopt. inversion Hopt. exact Hv.
Qed.

Lemma options_keep_valid (cs : list (OptionCall World)) :
  forall g g', applyOptions (map option_of cs) g = (g', None) ->
               RetryConfig_Validate (retry g) = None ->
               RetryConfig_Validate (retry g') = None.
Proof.
  induction cs as [ | c cs IH ]; simpl; intros g g' Happ Hv.
  - inversion Happ. subst g'. exact Hv.
  - destruct (option_of c g) as [g1 [err | ]] eqn:E; [ discriminate | ].
    apply (IH g1 g' Happ). exact (option_keeps_valid c g g1 E Hv).
Qed.

Lemma New_guard_valid (cs : list (OptionCall World)) (g : Guard World) :
  New (map option_of cs) = (Some g, None) ->
  (exists c, client g = Some c) /\
  RetryConfig_Validate (retry g) = None /\
  1 <= MaxAttempts (retry g).
Proof.
  intros Hnew.
  assert (Hc : exists c, client g = Some c).
  { unfold New in Hnew. destruct (applyOptions _ _) as [g' [err | ]]; [ discriminate | ].
    destruct (client g') as [c | ] eqn:E; [ | discriminate ].
    destruct (schema g'); [ destruct (negb (strictSchema g')) | ];
      inversion Hnew; subst g'; exists c; exact E. }
  apply New_applyOptions in Hnew.
  pose proof (options_keep_valid cs _ g Hnew eq_refl) as Hv.
  split; [ exact Hc | split; [ exact Hv | ] ].
  apply (RetryConfig_Validate_ok _ Hv).
Qed.

End Totality.

(** ** How far the check for trailing data reaches *)

(** Once the value is decoded, [Unmarshal] accepts the input exactly when
    nothing but white space follows the value, or what follows begins with
    a closing brace or bracket. *)
Lemma Unmarshal_trailing_data (s : Schema) (data : string) (j : json) (rest : string) :
  readValue data = ReadValue j rest ->
  savedError (unmarshal (targetType s) (strict s) j (Reflect.New (targetType s))) = None ->
  ((exists x, Unmarshal s data = (Some x, None)) <->
   (peek rest = None \/ peek rest = Some "}"%char \/ peek rest = Some "]"%char)).
Proof.
  intros Hr Hok. unfold Unmarshal, NewDecoder, DisallowUnknownFields, Decode, More.
  destruct (strict s) eqn:Es; simpl; rewrite Hr; simpl in *; rewrite Hok; simpl;
    (destruct (peek rest) as [c | ];
     [ destruct (Ascii.eqb_spec c "]"); [ subst c; simpl | ];
       [ split; [ tauto | intros _; eexists; reflexivity ] | ];
       destruct (Ascii.eqb_spec c "}"); [ subst c; simpl | ];
       [ split; [ tauto | intros _; eexists; reflexivity ] | ];
       simpl; split;
       [ intros [x Hx]; discriminate Hx
       | intros [H | [H | H]]; inversion H; congruence ]
     | split; [ tauto | intros _; eexists; reflexivity ] ]).
Qed.

(** ** The package's own tests, run on the model *)

(** the schema tests [TestSchemaUnmarshal] and [TestSchemaStrictMode] *)
Example TestSchemaUnmarshal_valid_JSON :
  Unmarshal (mkSchema testResponse true)
    (q "{'result': 'success', 'count': 42, 'success': true}")
  = (Some [("result", Reflect.VString "success"); ("count", Reflect.VInt 42);
           ("success", Reflect.VBool true)], None).
Proof. reflexivity. Qed.

Example TestSchemaUnmarshal_invalid_JSON :
  Unmarshal (mkSchema testResponse true) (q "{invalid}")
  = (None, Some (wrapError "failed to unmarshal JSON: %w" json_SyntaxError)).
Proof. reflexivity. Qed.

Example TestSchemaUnmarshal_unknown_fields :
  Unmarshal (mkSchema testResponse true) (q "{'result': 'test', 'unknown_field': 'value'}")
  = (None, Some (wrapError "failed to unmarshal JSON: %w" (json_unknownField "unknown_field"))).
Proof. reflexivity. Qed.

Example TestSchemaUnmarshal_trailing_data :
  Unmarshal (mkSchema testResponse true) (q "{'result': 'test'}extra data")
  = (None, Some (errorString "trailing data after JSON")).
Proof. reflexivity. Qed.

Example TestSchemaStrictMode_disabled :
  Unmarshal (WithStrict (mkSchema testResponse true) false)
    (q "{'result': 'test', 'unknown_field': 'value'}")
  = (Some [("result", Reflect.VString "test"); ("count", Reflect.VInt 0);
           ("success", Reflect.VBool false)], None).
Proof. reflexivity. Qed.

(** [TestGuardRun], validator rejects output *)
Example TestGuardRun_validator_rejects_output :
  exists g,
    New (World := nat)
      [WithClient nat (Some (constClient "invalid output"));
       WithValidators nat [Some rejectValidator];
       WithMaxRetries nat 2] = (Some g, None) /\
    let r := Run nat clock draw timer_first g (caller 0) "test" (mkState 0%nat []) in
    option_map fst r =
      Some (None,
            Some (MaxRetriesError 2
                    (Some (ValidationError "custom"
                             (Some (errorString "validation failed")))))) /\
    option_map (fun x => generations (trace (snd x))) r = Some 2%nat.
Proof. eexists. split; [ reflexivity | ]. vm_compute. split; reflexivity. Qed.

(** [TestGuardRun], retry on generation failure *)
Example TestGuardRun_retry_on_generation_failure :
  exists g,
    New (World := nat) [WithClient nat (Some flakyClient); WithMaxRetries nat 3]
      = (Some g, None) /\
    let r := Run nat clock draw timer_first g (caller 0) "test" (mkState 0%nat []) in
    option_map (fun x => option_map Raw (fst (fst x))) r = Some (Some "success") /\
    option_map (fun x => option_map (fun y => Attempts (Metadata_ y)) (fst (fst x))) r
      = Some (Some 3) /\
    option_map (fun x => generations (trace (snd x))) r = Some 3%nat.
Proof. eexists. split; [ reflexivity | ]. vm_compute. repeat split. Qed.
(** ** The calls of a run and what it hands back *)

Section RunOutcome.

Variable World : Type.
Variable time_Now : World -> Z.
Variable rand_Float64 : World -> Q.
Variable wait : Context -> time_Duration -> World -> option error * World.

Local Arguments shouldRetry : simpl never.
Local Arguments parseSchema : simpl never.
Local Arguments delay : simpl never.

Lemma generations_app (a b : list Event) :
  generations (a ++ b) = (generations a + generations b)%nat.
Proof. unfold generations. rewrite filter_app, length_app. reflexivity. Qed.

Lemma sleeps_app (a b : list Event) : sleeps (a ++ b) = (sleeps a + sleeps b)%nat.
Proof. unfold sleeps. rewrite filter_app, length_app. reflexivity. Qed.

Lemma detections_app (a b : list Event) :
  detections (a ++ b) = (detections a + detections b)%nat.
Proof. unfold detections. rewrite filter_app, length_app. reflexivity. Qed.

(** the post-checks are calls of validators; their failure is a
    [ValidationError] *)
Lemma runValidators_from_trace (vs : list (Validator World)) (ctx : Context)
    (output : string) :
  forall s r s',
    runValidators_from World vs ctx output s = Some (r, s') ->
    exists evs,
      trace s' = (trace s ++ evs)%list /\
      generations evs = O /\ sleeps evs = O /\ detections evs = O /\
      match r with
      | Some e => isStageError e = true
      | None => True
      end.
Proof.
  induction vs as [ | v vs IH ]; intros s r s' H; simpl in H.
  - inversion H. subst. exists []. rewrite app_nil_r. repeat split; reflexivity.
  - unfold bind, call in H.
    destruct (Validate v ctx output (world s)) as [[err | ] w].
    + inversion H. subst. simpl. exists [CallValidate (Validator_Name v)].
      repeat split; reflexivity.
    + destruct (IH _ _ _ H) as (evs & Htr & Hg & Hs & Hd & Hr). simpl in Htr.
      exists (CallValidate (Validator_Name v) :: evs).
      rewrite Htr, <- app_assoc. simpl.
      split; [ reflexivity | ].
      change (CallValidate (Validator_Name v) :: evs)
        with ([CallValidate (Validator_Name v)] ++ evs)%list.
      rewrite generations_app, sleeps_app, detections_app, Hg, Hs, Hd.
      repeat split; try reflexivity. exact Hr.
Qed.

(** the pre-checks are calls of detectors, each called once at most; their
    failure is the [DetectionError] of a detector of the guard *)
Lemma runDetectors_from_trace (ds : list (Detector World)) (ctx : Context)
    (prompt : string) :
  forall s r s',
    runDetectors_from World ds ctx prompt s = Some (r, s') ->
    exists evs,
      trace s' = (trace s ++ evs)%list /\
      generations evs = O /\ sleeps evs = O /\
      (detections evs <= length ds)%nat /\
      match r with
      | Some e => exists d cause, In d ds /\
                                  e = DetectionError (Detector_Name d) (Some cause)
      | None => True
      end.
Proof.
  induction ds as [ | d ds IH ]; intros s r s' H; simpl in H.
  - inversion H. subst. exists []. rewrite app_nil_r.
    repeat split; try reflexivity; try (unfold sleeps, detections, generations; simpl; lia).
  - unfold bind, call in H.
    destruct (Detect d ctx prompt (world s)) as [[err | ] w].
    + inversion H. subst. simpl. exists [CallDetect (Detector_Name d)].
      split; [ reflexivity | split; [ reflexivity | split; [ reflexivity | ] ] ].
      split; [ unfold detections; simpl; lia | ].
      exists d, err. split; [ left; reflexivity | reflexivity ].
    + destruct (IH _ _ _ H) as (evs & Htr & Hg & Hs & Hd & Hr). simpl in Htr.
      exists (CallDetect (Detector_Name d) :: evs).
      rewrite Htr, <- app_assoc. simpl.
      split; [ reflexivity | ].
      change (CallDetect (Detector_Name d) :: evs)
        with ([CallDetect (Detector_Name d)] ++ evs)%list.
      rewrite generations_app, sleeps_app, detections_app, Hg, Hs.
      split; [ reflexivity | split; [ reflexivity | split ] ].
      * simpl. change (detections [CallDetect (Detector_Name d)]) with 1%nat. lia.
      * destruct r as [e | ]; [ | exact I ].
        destruct Hr as (d' & cause & Hin & He).
        exists d', cause. split; [ right; exact Hin | exact He ].
Qed.

(** the wait before an attempt is one [Sleep] at most; its error is the
    one the wait has met *)
Lemma backoff_trace (c : RetryConfig) (ctx : Context) (a : Z) :
  forall s r s',
    (if 0 <? a then backoff World rand_Float64 wait c ctx a else ret World None) s
      = Some (r, s') ->
    exists evs,
      trace s' = (trace s ++ evs)%list /\
      generations evs = O /\ detections evs = O /\
      (sleeps evs <= if (0 <? a)%Z then 1 else 0)%nat /\
      match r with
      | Some e => exists d w w', wait ctx d w = (Some e, w')
      | None => True
      end.
Proof.
  intros s r s' H. destruct (0 <? a).
  - unfold backoff in H.
    destruct (delay c a (rand_Float64 (world s)) =? 0).
    + inversion H. subst. exists []. rewrite app_nil_r.
      repeat split; try reflexivity; try (unfold sleeps, detections, generations; simpl; lia).
    + unfold call in H.
      destruct (wait ctx (delay c a (rand_Float64 (world s))) (world s)) as [e w] eqn:E.
      inversion H. subst. simpl. eexists. split; [ reflexivity | ].
      split; [ reflexivity | split; [ reflexivity | split; [ unfold sleeps; simpl; lia | ] ] ].
      destruct r as [e | ]; [ | exact I ]. eexists. eexists. eexists. exact E.
  - inversion H. subst. exists []. rewrite app_nil_r.
    repeat split; try reflexivity.
Qed.

(** arithmetic on the counters, by cases on whether an attempt is the first *)
Ltac by_first_attempt a :=
  let E := fresh "E" in
  destruct (0 <? a) eqn:E;
  repeat match goal with H : context [0 <? a] |- _ => rewrite E in H end;
  lia.

(** the retry loop, whatever the collaborators answer *)
Lemma Run_loop_outcome (g : Guard World) (ctx : Context) (prompt : string)
    (startTime : Z) :
  forall n attempt last s r s',
    0 <= attempt ->
    Run_loop World time_Now rand_Float64 wait g ctx prompt startTime n attempt last s
      = Some (r, s') ->
    exists evs,
      trace s' = (trace s ++ evs)%list /\
      (generations evs <= n)%nat /\
      (sleeps evs <= generations evs + (if (0 <? attempt)%Z then 1 else 0))%nat /\
      (sleeps evs <= if (0 <? attempt)%Z then n else pred n)%nat /\
      detections evs = O /\
      run_outcome World time_Now wait g ctx startTime n attempt last s' evs r.
Proof.
  induction n as [ | n IH ]; intros attempt last s r s' Ha H.
  - simpl in H. inversion H. subst. exists []. rewrite app_nil_r.
    split; [ reflexivity | ].
    split; [ unfold generations; simpl; lia | ].
    split; [ unfold sleeps; simpl; lia | ].
    split; [ unfold sleeps; simpl; destruct (0 <? attempt); lia | ].
    split; [ reflexivity | ].
    left. exists last. split; [ reflexivity | split; [ reflexivity | ] ].
    left. split; reflexivity.
  - assert (Hnext : forall x s1 pre r s',
               isStageError x = true ->
               trace s1 = (trace s ++ pre)%list ->
               generations pre = 1%nat ->
               (sleeps pre <= if (0 <? attempt)%Z then 1 else 0)%nat ->
               detections pre = O ->
               (if negb (shouldRetry (Some x)) then ret World (None, Some x)
                else Run_loop World time_Now rand_Float64 wait g ctx prompt startTime
                       n (attempt + 1) (Some x)) s1 = Some (r, s') ->
               exists evs,
                 trace s' = (trace s ++ evs)%list /\
                 (generations evs <= S n)%nat /\
                 (sleeps evs <= generations evs + (if (0 <? attempt)%Z then 1 else 0))%nat /\
                 (sleeps evs <= if (0 <? attempt)%Z then S n else pred (S n))%nat /\
                 detections evs = O /\
                 run_outcome World time_Now wait g ctx startTime (S n) attempt last s' evs r).
    { intros x s1 pre r0 s0 Hx Htr Hg Hs Hd Hrun.
      destruct (shouldRetry (Some x)) eqn:Hretry; simpl in Hrun.
      - assert (Ha1 : 0 <= attempt + 1) by lia.
        destruct (IH _ _ _ _ _ Ha1 Hrun) as (evs & Htr' & Hg' & Hs1 & Hs2 & Hd' & Hout).
        replace (0 <? attempt + 1) with true in Hs1, Hs2
          by (symmetry; apply Z.ltb_lt; lia).
        exists (pre ++ evs)%list.
        rewrite Htr', Htr, <- app_assoc.
        rewrite generations_app, sleeps_app, detections_app, Hg, Hd, Hd'.
        split; [ reflexivity | ].
        split; [ lia | ].
        split; [ by_first_attempt attempt | ].
        split; [ by_first_attempt attempt | ].
        split; [ reflexivity | ].
        unfold run_outcome in *.
        destruct r0 as [[res | ] [e | ]]; try contradiction.
        + rewrite generations_app, Hg.
          destruct Hout as (Hp & HA & HG & HD).
          split; [ exact Hp | split; [ lia | split; [ lia | exact HD ] ] ].
        + rewrite generations_app, Hg.
          destruct Hout as [(l & He & HG & Hl) | [Hstage | Hwait]].
          * left. exists l. split; [ exact He | split; [ lia | ] ].
            right. split; [ discriminate | ].
            destruct Hl as [[_ Hl] | [_ Hl]].
            -- exists x. split; [ exact Hl | split; [ exact Hx | exact Hretry ] ].
            -- exact Hl.
          * right. left. exact Hstage.
          * right. right. exact Hwait.
      - inversion Hrun. subst. exists pre.
        split; [ exact Htr | ].
        split; [ lia | ].
        split; [ by_first_attempt attempt | ].
        split; [ by_first_attempt attempt | ].
        split; [ exact Hd | ].
        right. left. split; [ exact Hx | exact Hretry ]. }
    simpl in H. unfold bind at 1 in H.
    destruct ((if 0 <? attempt
               then backoff World rand_Float64 wait (retry g) ctx attempt
               else ret World None) s) as [[berr s0] | ] eqn:Hb; [ | discriminate ].
    destruct (backoff_trace _ _ _ _ _ _ Hb) as (evb & Htrb & Hgb & Hdb & Hsb & Hrb).
    destruct berr as [berr | ].
    { inversion H. subst. exists evb.
      split; [ exact Htrb | ].
      split; [ lia | ].
      split; [ lia | ].
      split; [ by_first_attempt attempt | ].
      split; [ exact Hdb | ].
      right. right. exact Hrb. }
    unfold bind at 1, client_Generate in H.
    destruct (client g) as [c | ]; [ | discriminate ].
    unfold call at 1 in H.
    destruct (Generate c ctx prompt (world s0)) as [[output [gerr | ]] w1].
    { apply (Hnext (GenerationError (Some gerr))
               (mkState w1 (trace s0 ++ [CallGenerate])%list)
               (evb ++ [CallGenerate])%list r s' eq_refl); try exact H.
      - simpl. rewrite Htrb, <- app_assoc. reflexivity.
      - rewrite generations_app, Hgb. reflexivity.
      - rewrite sleeps_app. unfold sleeps at 2. simpl. lia.
      - rewrite detections_app, Hdb. reflexivity. }
    unfold bind at 1, runValidators in H.
    destruct (runValidators_from World (validators g) ctx output
                (mkState w1 (trace s0 ++ [CallGenerate])%list))
      as [[verr s2] | ] eqn:Hv; [ | discriminate ].
    destruct (runValidators_from_trace _ _ _ _ _ _ Hv)
      as (evv & Htrv & Hgv & Hsv & Hdv & Hrv).
    simpl in Htrv.
    assert (Htr2 : trace s2 = (trace s ++ (evb ++ [CallGenerate] ++ evv))%list).
    { rewrite Htrv, Htrb. rewrite <- !app_assoc. reflexivity. }
    assert (Hg2 : generations (evb ++ [CallGenerate] ++ evv) = 1%nat).
    { rewrite !generations_app, Hgb, Hgv. reflexivity. }
    assert (Hs2 : (sleeps (evb ++ [CallGenerate] ++ evv)
                   <= if (0 <? attempt)%Z then 1 else 0)%nat).
    { rewrite !sleeps_app, Hsv. unfold sleeps at 2. simpl. lia. }
    assert (Hd2 : detections (evb ++ [CallGenerate] ++ evv) = O).
    { rewrite !detections_app, Hdb, Hdv. reflexivity. }
    destruct verr as [verr | ].
    { apply (Hnext verr s2 _ _ _ Hrv Htr2 Hg2 Hs2 Hd2). exact H. }
    destruct (parseSchema g output) as [parsed [perr | ]] eqn:Hp.
    { apply (Hnext (SchemaError (Some perr)) s2 _ _ _ eq_refl Htr2 Hg2 Hs2 Hd2).
      exact H. }
    unfold bind, now, ret in H. inversion H. subst.
    exists (evb ++ [CallGenerate] ++ evv)%list.
    split; [ exact Htr2 | ].
    split; [ lia | ].
    split; [ lia | ].
    split; [ by_first_attempt attempt | ].
    split; [ exact Hd2 | ].
    unfold run_outcome. cbn [Raw Parsed Metadata_ Attempts Duration]. rewrite Hg2.
    split; [ exact Hp | split; [ lia | split; [ lia | reflexivity ] ] ].
Qed.

(** [Run], whatever the collaborators answer *)
Lemma Run_outcome (g : Guard World) (ctx : Context) (prompt : string) :
  forall s r s',
    Run World time_Now rand_Float64 wait g ctx prompt s = Some (r, s') ->
    exists evs,
      trace s' = (trace s ++ evs)%list /\
      (detections evs <= length (detectors g))%nat /\
      (generations evs <= Z.to_nat (MaxAttempts (retry g)))%nat /\
      (sleeps evs <= generations evs)%nat /\
      (sleeps evs <= Z.to_nat (MaxAttempts (retry g)) - 1)%nat /\
      ((exists d cause,
           In d (detectors g) /\
           r = (None, Some (DetectionError (Detector_Name d) (Some cause))))
       \/
       exists evs',
         generations evs' = generations evs /\
         run_outcome World time_Now wait g (run_context g ctx) (time_Now (world s))
           (Z.to_nat (MaxAttempts (retry g))) 0 None s' evs' r).
Proof.
  intros s r s' H. unfold Run, bind at 1, now in H. unfold bind at 1, runDetectors in H.
  fold (run_context g ctx) in H.
  destruct (runDetectors_from World (detectors g) (run_context g ctx) prompt s)
    as [[derr s1] | ] eqn:Hd; [ | discriminate ].
  destruct (runDetectors_from_trace _ _ _ _ _ _ Hd) as (evd & Htrd & Hgd & Hsd & Hdd & Hrd).
  destruct derr as [derr | ].
  - inversion H. subst. exists evd.
    split; [ exact Htrd | split; [ exact Hdd | ] ].
    split; [ lia | split; [ lia | split; [ lia | ] ] ].
    left. destruct Hrd as (d & cause & Hin & He). exists d, cause.
    split; [ exact Hin | rewrite He; reflexivity ].
  - destruct (Run_loop_outcome g _ prompt _ _ _ _ _ _ _ (Z.le_refl 0) H)
      as (evs & Htr & Hg & Hs1 & Hs2 & Hdet & Hout).
    simpl in Hs1, Hs2.
    exists (evd ++ evs)%list.
    rewrite Htr, Htrd, <- app_assoc.
    rewrite generations_app, sleeps_app, detections_app, Hgd, Hsd, Hdet.
    split; [ reflexivity | split; [ lia | ] ].
    split; [ lia | split; [ lia | split; [ lia | ] ] ].
    right. exists evs. split; [ reflexivity | exact Hout ].
Qed.



(** The result of a run.  A result comes without an error; its [Parsed] is
    what the schema of the guard decodes from its [Raw], nil without a
    schema; its [Attempts] is the number of calls of the client the run has
    made, between 1 and [MaxAttempts]; its [Duration] is the time from the
    start of the run to its end. *)
Theorem Run_result :
  forall (g : Guard World) (ctx : Context) (prompt : string)
         (s s' : State World) (res : Result) (err : option error),
    Run World time_Now rand_Float64 wait g ctx prompt s = Some ((Some res, err), s') ->
    err = None /\
    parseSchema g (Raw res) = (Parsed res, None) /\
    (schema g = None -> Parsed res = None) /\
    1 <= Attempts (Metadata_ res) <= MaxAttempts (retry g) /\
    (exists evs, trace s' = (trace s ++ evs)%list /\
                 Z.of_nat (generations evs) = Attempts (Metadata_ res)) /\
    Duration (Metadata_ res) = time_Now (world s') - time_Now (world s).
Proof.
  intros g ctx prompt s s' res err H.
  destruct (Run_outcome g ctx prompt s _ s' H)
    as (evs & Htr & _ & _ & _ & _ & [(d & cause & _ & Hr) | (evs' & Hg & Hout)]);
    [ discriminate Hr | ].
  unfold run_outcome in Hout. destruct err as [e | ]; [ contradiction | ].
  destruct Hout as (Hp & HA & HG & HD).
  split; [ reflexivity | split; [ exact Hp | ] ].
  split.
  { intros Hs. unfold parseSchema in Hp. rewrite Hs in Hp. inversion Hp. reflexivity. }
  split; [ lia | ].
  split; [ | exact HD ].
  exists evs. split; [ exact Htr | ]. rewrite <- Hg. lia.
Qed.

(** The errors of a run.  An error comes without a result, and it is one
    of these: the [DetectionError] of a detector of the guard; a
    [MaxRetriesError] that carries [MaxAttempts] and the failure of the last
    attempt, a failure of a stage that [shouldRetry] lets through, after
    [MaxAttempts] calls of the client (with no last failure only when
    [MaxAttempts] is below 1); the failure of a stage that [shouldRetry]
    turns down, as it is; or the error a wait between two attempts has
    ended with, as it is. *)
Theorem Run_errors :
  forall (g : Guard World) (ctx : Context) (prompt : string)
         (s s' : State World) (res : option Result) (e : error),
    Run World time_Now rand_Float64 wait g ctx prompt s = Some ((res, Some e), s') ->
    res = None /\
    ((exists d cause,
         In d (detectors g) /\ e = DetectionError (Detector_Name d) (Some cause))
     \/ (exists x evs,
            e = MaxRetriesError (MaxAttempts (retry g)) (Some x) /\
            isStageError x = true /\ shouldRetry (Some x) = true /\
            trace s' = (trace s ++ evs)%list /\
            Z.of_nat (generations evs) = MaxAttempts (retry g))
     \/ (e = MaxRetriesError (MaxAttempts (retry g)) None /\
         MaxAttempts (retry g) < 1)
     \/ (isStageError e = true /\ shouldRetry (Some e) = false)
     \/ (exists d w w', wait (run_context g ctx) d w = (Some e, w'))).
Proof.
  intros g ctx prompt s s' res e H.
  destruct (Run_outcome g ctx prompt s _ s' H)
    as (evs & Htr & _ & _ & _ & _ & [(d & cause & Hin & Hr) | (evs' & Hg & Hout)]).
  - inversion Hr. subst. split; [ reflexivity | ].
    left. exists d, cause. split; [ exact Hin | reflexivity ].
  - unfold run_outcome in Hout. destruct res as [res | ]; [ contradiction | ].
    split; [ reflexivity | ].
    destruct Hout as [(l & He & HG & [[Hn Hl] | (Hn & x & Hl & Hx & Hretry)])
                     | [Hstage | Hwait]].
    + right. right. left. subst l. split; [ exact He | lia ].
    + right. left. exists x, evs. subst l.
      split; [ exact He | split; [ exact Hx | split; [ exact Hretry | ] ] ].
      split; [ exact Htr | lia ].
    + right. right. right. left. exact Hstage.
    + right. right. right. right. exact Hwait.
Qed.

(** an attempt that fails with a failure [shouldRetry] turns down ends the
    loop with that failure *)
Lemma Run_loop_attempt_fatal (g : Guard World) (ctx : Context) (prompt : string)
    (a : Z) (w w0 w1 : World) (e : error) :
  wait_over World rand_Float64 wait (retry g) ctx a w w0 ->
  attempt_fails World g ctx prompt w0 e w1 ->
  shouldRetry (Some e) = false ->
  forall startTime n last tr, exists tr',
    Run_loop World time_Now rand_Float64 wait g ctx prompt startTime (S n) a last
      (mkState w tr)
    = Some ((None, Some e), mkState w1 tr').
Proof.
  intros Hwait Hfail Hretry startTime n last tr.
  destruct (backoff_wait_over _ _ _ _ _ _ _ _ Hwait tr) as [tr0 Hb].
  simpl. unfold bind at 1. rewrite Hb.
  destruct Hfail as
    [ c w0 output err w1 Hc Hgen
    | c w0 output w' pre v post w'' err w1 Hc Hgen Hvs Hpre Hv
    | c w0 output w' w1 parsed err Hc Hgen Hvs Hparse ].
  - unfold bind, client_Generate. rewrite Hc. unfold call. simpl. rewrite Hgen.
    rewrite Hretry. simpl. eexists. reflexivity.
  - unfold bind at 1, client_Generate. rewrite Hc. unfold call at 1. simpl. rewrite Hgen.
    unfold bind, runValidators. rewrite Hvs.
    rewrite (runValidators_from_pass _ _ _ pre _ _ Hpre).
    simpl. unfold bind, call. simpl. rewrite Hv. simpl. rewrite Hretry. simpl.
    eexists. reflexivity.
  - unfold bind at 1, client_Generate. rewrite Hc. unfold call at 1. simpl. rewrite Hgen.
    unfold bind, runValidators.
    rewrite <- (app_nil_r (validators g)).
    rewrite (runValidators_from_pass _ _ _ (validators g) _ _ Hvs).
    simpl. unfold ret at 1. rewrite Hparse. rewrite Hretry. simpl.
    eexists. reflexivity.
Qed.

(** A failure that is not to be retried ends the run.  When every
    pre-check passes, each of the attempts 1 to [k-1] ends in a failure that
    [shouldRetry] lets through and attempt [k <= MaxAttempts], its wait over,
    ends in the wrapped failure [e] that [shouldRetry] turns down, [Run]
    returns [e] itself: no [MaxRetriesError] around it, also when [k] is
    [MaxAttempts], and no further attempt. *)
Theorem Run_stops_at_fatal_failure :
  forall (g : Guard World) (ctx : Context) (prompt : string) (s : State World)
         (k : Z) (w1 w2 w3 w4 : World) (e : error),
    1 <= k <= MaxAttempts (retry g) ->
    all_pass (detector_calls (detectors g) (run_context g ctx) prompt) (world s) w1 ->
    failing_attempts World rand_Float64 wait g (run_context g ctx) prompt
      (Z.to_nat (k - 1)) 0 w1 w2 ->
    wait_over World rand_Float64 wait (retry g) (run_context g ctx) (k - 1) w2 w3 ->
    attempt_fails World g (run_context g ctx) prompt w3 e w4 ->
    shouldRetry (Some e) = false ->
    exists tr,
      Run World time_Now rand_Float64 wait g ctx prompt s =
        Some ((None, Some e), mkState w4 tr).
Proof.
  intros g ctx prompt [w tr] k w1 w2 w3 w4 e Hk Hdet Hfirst Hwait Hlast Hretry.
  unfold Run, bind, now, runDetectors. simpl in *. fold (run_context g ctx).
  rewrite <- (app_nil_r (detectors g)).
  rewrite (runDetectors_from_pass _ _ _ (detectors g) w w1 Hdet). simpl.
  set (j := Z.to_nat (k - 1)) in *.
  replace (Z.to_nat (MaxAttempts (retry g)))
    with (j + S (Z.to_nat (MaxAttempts (retry g) - k)))%nat by (unfold j; lia).
  destruct (Run_loop_failing_attempts _ time_Now _ _ g _ prompt j 0 w1 w2 Hfirst
              (time_Now w) (S (Z.to_nat (MaxAttempts (retry g) - k))) None
              (tr ++ map (fun d => CallDetect (Detector_Name d)) (detectors g)))
    as (last & tr2 & H2).
  rewrite H2.
  replace (0 + Z.of_nat j) with (k - 1) by (unfold j; lia).
  destruct (Run_loop_attempt_fatal g _ prompt _ w2 w3 w4 e Hwait Hlast Hretry
              (time_Now w) (Z.to_nat (MaxAttempts (retry g) - k)) last tr2)
    as [tr4 H4].
  rewrite H4. exists tr4. reflexivity.
Qed.

Lemma generations_validator_calls (vs : list (Validator World)) :
  generations (map (fun v => CallValidate (Validator_Name v)) vs) = O.
Proof. induction vs as [ | v vs IH ]; [ reflexivity | exact IH ]. Qed.

Lemma generations_detector_calls (ds : list (Detector World)) :
  generations (map (fun d => CallDetect (Detector_Name d)) ds) = O.
Proof. induction ds as [ | d ds IH ]; [ reflexivity | exact IH ]. Qed.

(** the wait before an attempt, when it runs to its end, calls no client *)
Lemma backoff_wait_over_calls (c : RetryConfig) (ctx : Context) (a : Z) (w w0 : World) :
  wait_over World rand_Float64 wait c ctx a w w0 ->
  forall tr, exists tr',
    (if 0 <? a then backoff World rand_Float64 wait c ctx a else ret World None)
      (mkState w tr) = Some (None, mkState w0 tr') /\
    generations tr' = generations tr.
Proof.
  intros H tr. destruct H as [w Ha | w Ha Hd | w w' Ha Hd Hw].
  - replace (0 <? a) with false by (symmetry; apply Z.ltb_ge; exact Ha).
    exists tr. split; reflexivity.
  - replace (0 <? a) with true by (symmetry; apply Z.ltb_lt; exact Ha).
    exists tr. unfold backoff. simpl. rewrite Hd. split; reflexivity.
  - replace (0 <? a) with true by (symmetry; apply Z.ltb_lt; exact Ha).
    eexists. unfold backoff. simpl.
    replace (delay c a (rand_Float64 w) =? 0) with false
      by (symmetry; apply Z.eqb_neq; exact Hd).
    unfold call. simpl. rewrite Hw. split; [ reflexivity | ].
    rewrite generations_app. unfold generations at 2. simpl. lia.
Qed.

(** an attempt that fails with a failure to retry is one call of the
    client *)
Lemma Run_loop_attempt_fails_calls (g : Guard World) (ctx : Context) (prompt : string)
    (a : Z) (w w0 w1 : World) (e : error) :
  wait_over World rand_Float64 wait (retry g) ctx a w w0 ->
  attempt_fails World g ctx prompt w0 e w1 ->
  shouldRetry (Some e) = true ->
  forall startTime n last tr, exists tr',
    Run_loop World time_Now rand_Float64 wait g ctx prompt startTime (S n) a last
      (mkState w tr)
    = Run_loop World time_Now rand_Float64 wait g ctx prompt startTime n (a + 1)
        (Some e) (mkState w1 tr') /\
    generations tr' = S (generations tr).
Proof.
  intros Hwait Hfail Hretry startTime n last tr.
  destruct (backoff_wait_over_calls _ _ _ _ _ Hwait tr) as (tr0 & Hb & Hg0).
  simpl. unfold bind at 1. rewrite Hb.
  destruct Hfail as
    [ c w0 output err w1 Hc Hgen
    | c w0 output w' pre v post w'' err w1 Hc Hgen Hvs Hpre Hv
    | c w0 output w' w1 parsed err Hc Hgen Hvs Hparse ].
  - unfold bind, client_Generate. rewrite Hc. unfold call. simpl. rewrite Hgen.
    rewrite Hretry. simpl. eexists. split; [ reflexivity | ].
    rewrite generations_app, Hg0. unfold generations at 2. simpl. lia.
  - unfold bind at 1, client_Generate. rewrite Hc. unfold call at 1. simpl. rewrite Hgen.
    unfold bind, runValidators. rewrite Hvs.
    rewrite (runValidators_from_pass _ _ _ pre _ _ Hpre).
    simpl. unfold bind, call. simpl. rewrite Hv. simpl. rewrite Hretry. simpl.
    eexists. split; [ reflexivity | ].
    rewrite !generations_app, Hg0, generations_validator_calls.
    unfold generations at 2 3. simpl. lia.
  - unfold bind at 1, client_Generate. rewrite Hc. unfold call at 1. simpl. rewrite Hgen.
    unfold bind, runValidators.
    rewrite <- (app_nil_r (validators g)).
    rewrite (runValidators_from_pass _ _ _ (validators g) _ _ Hvs).
    simpl. unfold ret at 1. rewrite Hparse. rewrite Hretry. simpl.
    eexists. split; [ reflexivity | ].
    rewrite !generations_app, Hg0, generations_validator_calls.
    unfold generations at 2. simpl. lia.
Qed.

Lemma Run_loop_failing_attempts_calls (g : Guard World) (ctx : Context) (prompt : string) :
  forall k a w w',
    failing_attempts World rand_Float64 wait g ctx prompt k a w w' ->
    forall startTime n last tr, exists last' tr',
      Run_loop World time_Now rand_Float64 wait g ctx prompt startTime (k + n) a last
        (mkState w tr)
      = Run_loop World time_Now rand_Float64 wait g ctx prompt startTime n
          (a + Z.of_nat k) last' (mkState w' tr') /\
      generations tr' = (generations tr + k)%nat.
Proof.
  intros k a w w' H.
  induction H as [ a w | k a w w0 e w1 w2 Hwait Hfail Hretry Hrest IH ];
    intros startTime n last tr.
  - exists last, tr. simpl. rewrite Z.add_0_r. split; [ reflexivity | lia ].
  - destruct (Run_loop_attempt_fails_calls g ctx prompt a w w0 w1 e Hwait Hfail Hretry
                startTime (k + n)%nat last tr) as (tr1 & H1 & Hg1).
    destruct (IH startTime n (Some e) tr1) as (last' & tr' & H2 & Hg2).
    exists last', tr'. change (S k + n)%nat with (S (k + n)).
    rewrite H1, H2. split; [ f_equal; lia | lia ].
Qed.

(** A wait cut short ends the run.  When every pre-check passes, each of
    the attempts 1 to [k < MaxAttempts] ends in a failure that [shouldRetry]
    lets through and the context is done before the wait that follows
    attempt [k] is over, [Run] returns the error of the context as it is,
    without a wrapper of the package; the wait is the last thing the run
    does, and the client has been called [k] times in the run. *)
Theorem Run_wait_cut_short :
  forall (g : Guard World) (ctx : Context) (prompt : string) (s : State World)
         (k : Z) (w1 w2 w3 : World) (e : error),
    1 <= k < MaxAttempts (retry g) ->
    all_pass (detector_calls (detectors g) (run_context g ctx) prompt) (world s) w1 ->
    failing_attempts World rand_Float64 wait g (run_context g ctx) prompt
      (Z.to_nat k) 0 w1 w2 ->
    delay (retry g) k (rand_Float64 w2) <> 0 ->
    wait (run_context g ctx) (delay (retry g) k (rand_Float64 w2)) w2 = (Some e, w3) ->
    exists tr,
      Run World time_Now rand_Float64 wait g ctx prompt s =
        Some ((None, Some e),
              mkState w3 (tr ++ [Sleep (delay (retry g) k (rand_Float64 w2))])) /\
      generations tr = (generations (trace s) + Z.to_nat k)%nat.
Proof.
  intros g ctx prompt [w tr] k w1 w2 w3 e Hk Hdet Hfirst Hd Hwait.
  unfold Run, bind, now, runDetectors. simpl in *. fold (run_context g ctx).
  rewrite <- (app_nil_r (detectors g)).
  rewrite (runDetectors_from_pass _ _ _ (detectors g) w w1 Hdet). simpl.
  set (j := Z.to_nat k) in *.
  replace (Z.to_nat (MaxAttempts (retry g)))
    with (j + S (Z.to_nat (MaxAttempts (retry g) - k - 1)))%nat by (unfold j; lia).
  destruct (Run_loop_failing_attempts_calls g _ prompt j 0 w1 w2 Hfirst
              (time_Now w) (S (Z.to_nat (MaxAttempts (retry g) - k - 1))) None
              (tr ++ map (fun d => CallDetect (Detector_Name d)) (detectors g)))
    as (last & tr2 & H2 & Hg2).
  rewrite H2.
  replace (0 + Z.of_nat j) with k by (unfold j; lia).
  exists tr2. split.
  - simpl. unfold bind at 1.
    replace (0 <? k) with true by (symmetry; apply Z.ltb_lt; lia).
    unfold backoff. simpl.
    replace (delay (retry g) k (rand_Float64 w2) =? 0) with false
      by (symmetry; apply Z.eqb_neq; exact Hd).
    unfold call. simpl. rewrite Hwait. reflexivity.
  - rewrite Hg2, generations_app, generations_detector_calls. lia.
Qed.

(** A [MaxRetriesError] stands for failures that were worth a retry.  Let
    the error of a wait cut short be one of the two errors of package
    [context].  When [Run] returns a [MaxRetriesError], its [Attempts] is
    [MaxAttempts], and neither [errors.Is] finds [context.Canceled] or
    [context.DeadlineExceeded] behind it nor [errors.As] a
    [DetectionError]: a cancellation, a deadline or a blocked prompt is never
    reported as exhausted retries. *)
Theorem Run_MaxRetriesError_is_transient :
  forall (g : Guard World) (ctx : Context) (prompt : string)
         (s s' : State World) (res : option Result) (n : Z) (last : option error),
    (forall c d w e w',
        wait c d w = (Some e, w') ->
        e = context_Canceled \/ e = context_DeadlineExceeded) ->
    Run World time_Now rand_Float64 wait g ctx prompt s
      = Some ((res, Some (MaxRetriesError n last)), s') ->
    n = MaxAttempts (retry g) /\
    errors_Is (MaxRetriesError n last) context_Canceled = false /\
    errors_Is (MaxRetriesError n last) context_DeadlineExceeded = false /\
    errors_As_DetectionError (MaxRetriesError n last) = None.
Proof.
  intros g ctx prompt s s' res n last Hctx H.
  destruct (Run_outcome g ctx prompt s _ s' H)
    as (evs & _ & _ & _ & _ & _ & [(d & cause & _ & Hr) | (evs' & _ & Hout)]);
    [ discriminate Hr | ].
  unfold run_outcome in Hout. destruct res as [res | ]; [ contradiction | ].
  destruct Hout as [(l & He & _ & [[_ Hl] | (_ & x & Hl & _ & Hretry)])
                   | [[Hstage _] | (d & w & w' & Hwait)]].
  - inversion He. subst. repeat split; reflexivity.
  - inversion He. subst. split; [ reflexivity | ].
    unfold shouldRetry, fatalErrors in Hretry. simpl existsb in Hretry. simpl.
    destruct (errors_As_DetectionError x); [ discriminate | ].
    destruct (errors_Is x context_Canceled); [ discriminate | ].
    destruct (errors_Is x context_DeadlineExceeded); [ discriminate | ].
    repeat split; reflexivity.
  - discriminate Hstage.
  - destruct (Hctx _ _ _ _ _ Hwait); discriminate.
Qed.

(** validators that let a text pass have each answered nil *)
Lemma runValidators_from_all_passed (vs : list (Validator World)) (ctx : Context)
    (output : string) :
  forall s s',
    runValidators_from World vs ctx output s = Some (None, s') ->
    forall v, In v vs -> exists w w', Validate v ctx output w = (None, w').
Proof.
  induction vs as [ | v0 vs IH ]; intros s s' H v Hin; [ contradiction | ].
  simpl in H. unfold bind, call in H.
  destruct (Validate v0 ctx output (world s)) as [[err | ] w] eqn:E; [ discriminate | ].
  destruct Hin as [<- | Hin].
  - exists (world s), w. exact E.
  - exact (IH _ _ H v Hin).
Qed.

(** the text of a result is one the validators have let pass *)
Lemma Run_loop_result_validated (g : Guard World) (ctx : Context) (prompt : string)
    (startTime : Z) :
  forall n attempt last s res err s',
    Run_loop World time_Now rand_Float64 wait g ctx prompt startTime n attempt last s
      = Some ((Some res, err), s') ->
    exists s1,
      runValidators_from World (validators g) ctx (Raw res) s1 = Some (None, s').
Proof.
  induction n as [ | n IH ]; intros attempt last s res err s' H; simpl in H.
  - discriminate.
  - unfold bind at 1 in H.
    destruct ((if 0 <? attempt
               then backoff World rand_Float64 wait (retry g) ctx attempt
               else ret World None) s) as [[[berr | ] s0] | ]; try discriminate.
    unfold bind at 1, client_Generate in H.
    destruct (client g) as [c | ]; [ | discriminate ].
    unfold call at 1 in H.
    destruct (Generate c ctx prompt (world s0)) as [[output [gerr | ]] w1].
    { destruct (negb (shouldRetry (Some (GenerationError (Some gerr)))));
        [ discriminate | exact (IH _ _ _ _ _ _ H) ]. }
    unfold bind at 1, runValidators in H.
    destruct (runValidators_from World (validators g) ctx output
                (mkState w1 (trace s0 ++ [CallGenerate])%list))
      as [[[verr | ] s2] | ] eqn:Hv; try discriminate.
    { destruct (negb (shouldRetry (Some verr)));
        [ discriminate | exact (IH _ _ _ _ _ _ H) ]. }
    destruct (parseSchema g output) as [parsed [perr | ]].
    { destruct (negb (shouldRetry (Some (SchemaError (Some perr)))));
        [ discriminate | exact (IH _ _ _ _ _ _ H) ]. }
    unfold bind, now, ret in H. inversion H. subst. simpl.
    eexists. exact Hv.
Qed.

Lemma Run_result_validated (g : Guard World) (ctx : Context) (prompt : string) :
  forall s res err s',
    Run World time_Now rand_Float64 wait g ctx prompt s = Some ((Some res, err), s') ->
    forall v, In v (validators g) ->
              exists w w', Validate v (run_context g ctx) (Raw res) w = (None, w').
Proof.
  intros s res err s' H v Hin.
  unfold Run, bind at 1, now in H. unfold bind at 1, runDetectors in H.
  fold (run_context g ctx) in H.
  destruct (runDetectors_from World (detectors g) (run_context g ctx) prompt s)
    as [[[derr | ] s1] | ]; try discriminate.
  destruct (Run_loop_result_validated g _ prompt _ _ _ _ _ _ _ _ H) as (s2 & Hv).
  exact (runValidators_from_all_passed _ _ _ _ _ Hv v Hin).
Qed.

(** The text of a result has passed every post-check.  When [Run] returns
    a result, each validator of the guard has been called on the [Raw] text
    of that result, with the context of the run, and has answered nil. *)
Theorem Run_result_passed_validators :
  forall (g : Guard World) (ctx : Context) (prompt : string)
         (s s' : State World) (res : Result) (err : option error),
    Run World time_Now rand_Float64 wait g ctx prompt s = Some ((Some res, err), s') ->
    forall v, In v (validators g) ->
              exists w w', Validate v (run_context g ctx) (Raw res) w = (None, w').
Proof.
  intros g ctx prompt s s' res err H. exact (Run_result_validated g ctx prompt s res err s' H).
Qed.

End RunOutcome.
(** ** The guard [New] builds from its argument list *)

Section NewOutcome.

Variable World : Type.
Variable time_Now : World -> Z.
Variable rand_Float64 : World -> Q.
Variable wait : Context -> time_Duration -> World -> option error * World.

Lemma notNil_map_Some (A : Type) (l : list (option A)) (l' : list A) :
  notNil l = Some l' -> map Some l' = l.
Proof.
  revert l'. induction l as [ | [a | ] l IH ]; intros l' H; simpl in H.
  - inversion H. reflexivity.
  - destruct (notNil l) as [l0 | ]; [ | discriminate ].
    inversion H. simpl. rewrite (IH l0 eq_refl). reflexivity.
  - discriminate.
Qed.

(** the error of an option does not depend on the guard *)
Lemma option_of_error (c : OptionCall World) (g : Guard World) :
  snd (option_of c g) = option_error c.
Proof.
  destruct c as [[c | ] | v | ds | vs | config | maxRetries | t | b]; simpl;
    try reflexivity.
  - unfold WithSchema. destruct (NewSchema v) as [s [e | ]]; reflexivity.
  - unfold WithDetectors. destruct (notNil ds); reflexivity.
  - unfold WithValidators. destruct (notNil vs); reflexivity.
  - unfold WithRetry. destruct (RetryConfig_Validate config); reflexivity.
  - unfold WithMaxRetries. destruct (maxRetries <? 1); reflexivity.
  - unfold WithTimeout. destruct (t <? 0); reflexivity.
Qed.

Lemma applyOptions_first_error (cs : list (OptionCall World)) :
  forall g, snd (applyOptions (map option_of cs) g) = first_error cs.
Proof.
  induction cs as [ | c cs IH ]; intros g; simpl; [ reflexivity | ].
  pose proof (option_of_error c g) as He.
  destruct (option_of c g) as [g' [e | ]]; simpl in He; rewrite <- He.
  - reflexivity.
  - apply IH.
Qed.

(** what an option that returns no error does to the client, the detectors,
    the validators and the timeout *)
Lemma option_of_fields (c : OptionCall World) (g g' : Guard World) :
  option_of c g = (g', None) ->
  client g' = match c with
              | CallWithClient (Some x) => Some x
              | _ => client g
              end /\
  map Some (detectors g') =
    (map Some (detectors g) ++ match c with
                               | CallWithDetectors ds => ds
                               | _ => []
                               end)%list /\
  map Some (validators g') =
    (map Some (validators g) ++ match c with
                                | CallWithValidators vs => vs
                                | _ => []
                                end)%list /\
  (0 <= timeout g -> 0 <= timeout g').
Proof.
  intros H.
  destruct c as [[c | ] | v | ds | vs | config | maxRetries | t | b]; simpl in H.
  - inversion H. simpl. rewrite !app_nil_r. tauto.
  - discriminate.
  - unfold WithSchema in H. destruct (NewSchema v) as [s [e | ]]; inversion H.
    simpl. rewrite !app_nil_r. tauto.
  - unfold WithDetectors in H. destruct (notNil ds) as [l | ] eqn:E; inversion H.
    simpl. rewrite map_app, (notNil_map_Some _ _ _ E), app_nil_r. tauto.
  - unfold WithValidators in H. destruct (notNil vs) as [l | ] eqn:E; inversion H.
    simpl. rewrite map_app, (notNil_map_Some _ _ _ E), app_nil_r. tauto.
  - unfold WithRetry in H. destruct (RetryConfig_Validate config); inversion H.
    simpl. rewrite !app_nil_r. tauto.
  - unfold WithMaxRetries in H. destruct (maxRetries <? 1); inversion H.
    simpl. rewrite !app_nil_r. tauto.
  - unfold WithTimeout in H. destruct (t <? 0) eqn:E; inversion H.
    simpl. rewrite !app_nil_r. apply Z.ltb_ge in E. tauto.
  - unfold WithStrictSchema in H. inversion H. simpl. rewrite !app_nil_r. tauto.
Qed.

Lemma applyOptions_fields (cs : list (OptionCall World)) :
  forall g g',
    applyOptions (map option_of cs) g = (g', None) ->
    client g' = fold_left (fun acc c => match c with
                                        | CallWithClient (Some x) => Some x
                                        | _ => acc
                                        end) cs (client g) /\
    map Some (detectors g') = (map Some (detectors g) ++ given_detectors cs)%list /\
    map Some (validators g') = (map Some (validators g) ++ given_validators cs)%list /\
    (0 <= timeout g -> 0 <= timeout g').
Proof.
  induction cs as [ | c cs IH ]; intros g g' H; simpl in H.
  - inversion H. subst. simpl. rewrite !app_nil_r. tauto.
  - destruct (option_of c g) as [g1 [e | ]] eqn:E; [ discriminate | ].
    destruct (option_of_fields c g g1 E) as (Hc & Hd & Hv & Ht).
    destruct (IH g1 g' H) as (Hc' & Hd' & Hv' & Ht').
    unfold given_detectors, given_validators in *. simpl.
    rewrite Hc', Hd', Hv', Hc, Hd, Hv, <- !app_assoc.
    split; [ | split; [ reflexivity | split; [ reflexivity | tauto ] ] ].
    destruct c as [[x | ] | | | | | | | ]; reflexivity.
Qed.

(** The outcome of [New], read off its argument list.  When an option
    returns an error, [New] returns the error of the first such option and
    no guard, whatever comes after it; when none does and there is no
    [WithClient] in the list, it returns [ErrNoClient]; otherwise it returns
    a guard, whose client is that of the last [WithClient]. *)
Theorem New_outcome :
  forall cs : list (OptionCall World),
    match first_error cs with
    | Some e => New (map option_of cs) = (None, Some e)
    | None =>
        match given_client cs with
        | None => New (map option_of cs) = (None, Some ErrNoClient)
        | Some c => exists g, New (map option_of cs) = (Some g, None) /\
                              client g = Some c
        end
    end.
Proof.
  intros cs. unfold New.
  pose proof (applyOptions_first_error cs
                (mkGuard None [] [] None DefaultRetryConfig 0 false)) as He.
  destruct (applyOptions (map option_of cs) _) as [g [e | ]] eqn:E;
    simpl in He; rewrite <- He.
  - reflexivity.
  - destruct (applyOptions_fields cs _ g E) as (Hc & _). simpl in Hc.
    fold (given_client cs) in Hc. rewrite <- Hc.
    destruct (client g) as [c | ] eqn:Ec; [ | reflexivity ].
    destruct (schema g); [ destruct (negb (strictSchema g)) | ];
      (exists g; split; [ reflexivity | exact Ec ]).
Qed.

(** The checks of the guard.  The detectors of the guard [New] returns are
    those of all the [WithDetectors] of the argument list, in the order in
    which they stand there, and so are its validators: an option adds to
    what the options before it have handed over. *)
Theorem New_collects_checks :
  forall (cs : list (OptionCall World)) (g : Guard World),
    New (map option_of cs) = (Some g, None) ->
    map Some (detectors g) = given_detectors cs /\
    map Some (validators g) = given_validators cs.
Proof.
  intros cs g H. apply New_applyOptions in H.
  destruct (applyOptions_fields cs _ g H) as (_ & Hd & Hv & _).
  simpl in Hd, Hv. split; assumption.
Qed.

(** A guard from [New] is ready to run.  Its retry policy is one that
    [Validate] accepts, its timeout is not negative, and [Run] on it does not
    panic: it returns a result or an error, never both and never neither. *)
Theorem New_guard_runs :
  forall (cs : list (OptionCall World)) (g : Guard World),
    New (map option_of cs) = (Some g, None) ->
    RetryConfig_Validate (retry g) = None /\
    0 <= timeout g /\
    forall ctx prompt s, exists r s',
      Run World time_Now rand_Float64 wait g ctx prompt s = Some (r, s') /\
      terminal r.
Proof.
  intros cs g H.
  destruct (New_guard_valid World cs g H) as ((c & Hc) & Hv & _).
  split; [ exact Hv | split ].
  - apply New_applyOptions in H.
    destruct (applyOptions_fields cs _ g H) as (_ & _ & _ & Ht).
    apply Ht. simpl. lia.
  - intros ctx prompt s.
    exact (Run_returns World time_Now rand_Float64 wait g c ctx prompt Hc s).
Qed.

(** ** The convenience types [Detectors] and [Validators] *)

(** The phases of the guard and the convenience types run the same checks.
    [runDetectors] makes the calls [Detectors.Detect] makes and stops where
    it stops; where [Detectors.Detect] returns the error of a detector as it
    is, [runDetectors] returns it inside a [DetectionError] under the name of
    a detector of the list.  The same holds of [runValidators] and
    [Validators.Validate], with [ValidationError]. *)
Theorem checks_wrap_collections :
  (forall (ds : list (Detector World)) (ctx : Context) (prompt : string)
          (s : State World),
      exists r s',
        Detectors_Detect ds ctx prompt s = Some (r, s') /\
        match r with
        | None => runDetectors_from World ds ctx prompt s = Some (None, s')
        | Some e =>
            exists d, In d ds /\
                      runDetectors_from World ds ctx prompt s =
                        Some (Some (DetectionError (Detector_Name d) (Some e)), s')
        end) /\
  (forall (vs : list (Validator World)) (ctx : Context) (output : string)
          (s : State World),
      exists r s',
        Validators_Validate vs ctx output s = Some (r, s') /\
        match r with
        | None => runValidators_from World vs ctx output s = Some (None, s')
        | Some e =>
            exists v, In v vs /\
                      runValidators_from World vs ctx output s =
                        Some (Some (ValidationError (Validator_Name v) (Some e)), s')
        end).
Proof.
  split.
  - induction ds as [ | d ds IH ]; intros ctx prompt s; simpl.
    + exists None, s. split; reflexivity.
    + unfold bind, call. destruct (Detect d ctx prompt (world s)) as [[e | ] w].
      * eexists. eexists. split; [ reflexivity | ].
        exists d. split; [ left; reflexivity | reflexivity ].
      * destruct (IH ctx prompt (mkState w (trace s ++ [CallDetect (Detector_Name d)])%list))
          as (r & s' & H1 & H2).
        exists r, s'. split; [ exact H1 | ].
        destruct r as [e | ]; [ | exact H2 ].
        destruct H2 as (d' & Hin & H2). exists d'.
        split; [ right; exact Hin | exact H2 ].
  - induction vs as [ | v vs IH ]; intros ctx output s; simpl.
    + exists None, s. split; reflexivity.
    + unfold bind, call. destruct (Validate v ctx output (world s)) as [[e | ] w].
      * eexists. eexists. split; [ reflexivity | ].
        exists v. split; [ left; reflexivity | reflexivity ].
      * destruct (IH ctx output (mkState w (trace s ++ [CallValidate (Validator_Name v)])%list))
          as (r & s' & H1 & H2).
        exists r, s'. split; [ exact H1 | ].
        destruct r as [e | ]; [ | exact H2 ].
        destruct H2 as (v' & Hin & H2). exists v'.
        split; [ right; exact Hin | exact H2 ].
Qed.

End NewOutcome.
(** ** What [Unmarshal] returns *)

Lemma byExactName_name (t : Reflect.StructType) (n : string) (f : Reflect.StructField) :
  byExactName t n = Some f -> Reflect.Name f = n.
Proof.
  induction t as [ | g t IH ]; simpl; [ discriminate | ].
  destruct (String.eqb_spec (Reflect.Name g) n) as [E | E].
  - intros H. inversion H. subst. reflexivity.
  - exact IH.
Qed.

Lemma byFoldedName_fold (t : Reflect.StructType) (folded : string) (f : Reflect.StructField) :
  byFoldedName t folded = Some f -> foldName (Reflect.Name f) = folded.
Proof.
  induction t as [ | g t IH ]; simpl; [ discriminate | ].
  destruct (String.eqb_spec (foldName (Reflect.Name g)) folded) as [E | E].
  - intros H. inversion H. subst. reflexivity.
  - exact IH.
Qed.

(** the field a key names is the first field of the type with its name *)
Lemma fieldFor_first (t : Reflect.StructType) (key : string) (f : Reflect.StructField) :
  fieldFor t key = Some f -> byExactName t (Reflect.Name f) = Some f.
Proof.
  unfold fieldFor. destruct (byExactName t key) as [f' | ] eqn:E.
  - intros H. inversion H. subst f'.
    rewrite (byExactName_name t key f E). exact E.
  - clear E. generalize (foldName key). intros folded.
    induction t as [ | g t IH ]; simpl; [ discriminate | ].
    destruct (String.eqb_spec (foldName (Reflect.Name g)) folded) as [E | E].
    + intros H. inversion H. subst. rewrite String.eqb_refl. reflexivity.
    + intros H. destruct (String.eqb_spec (Reflect.Name g) (Reflect.Name f)) as [E' | E'].
      * exfalso. apply E. rewrite E'. exact (byFoldedName_fold t folded f H).
      * exact (IH H).
Qed.

Lemma hasType_New (t : Reflect.StructType) : hasType t (Reflect.New t).
Proof.
  unfold hasType. induction t as [ | f t IH ]; simpl; constructor.
  - split; [ reflexivity | destruct (Reflect.Kind f); reflexivity ].
  - exact IH.
Qed.

Lemma hasType_Field (t : Reflect.StructType) (v : Reflect.StructValue) (n : string)
    (f : Reflect.StructField) :
  hasType t v -> byExactName t n = Some f ->
  exists y, Reflect.Field v n = Some y /\ kind_of y = Reflect.Kind f.
Proof.
  unfold hasType. intros H. induction H as [ | g [m y] t v [Hm Hk] Hrest IH ]; simpl.
  - discriminate.
  - simpl in Hm, Hk. subst m.
    destruct (Reflect.Name g =? n)%string.
    + intros E. inversion E. subst. exists y. split; [ reflexivity | exact Hk ].
    + exact IH.
Qed.

Lemma hasType_SetField (t : Reflect.StructType) (v : Reflect.StructValue) (n : string)
    (f : Reflect.StructField) (x : Reflect.Value) :
  hasType t v -> byExactName t n = Some f -> kind_of x = Reflect.Kind f ->
  hasType t (Reflect.SetField v n x).
Proof.
  unfold hasType. intros H. induction H as [ | g [m y] t v [Hm Hk] Hrest IH ]; simpl.
  - discriminate.
  - simpl in Hm, Hk. subst m.
    destruct (Reflect.Name g =? n)%string.
    + intros E Hx. inversion E. subst. constructor; [ split; [ reflexivity | exact Hx ] | exact Hrest ].
    + intros E Hx. constructor; [ split; [ reflexivity | exact Hk ] | exact (IH E Hx) ].
Qed.

(** what is stored in a field has the kind of the field *)
Lemma storeField_kind (name : string) (k : Reflect.Scalar) (old : Reflect.Value) (j : json) :
  kind_of old = k -> kind_of (fst (storeField name k old j)) = k.
Proof.
  intros H. destruct j, k; simpl; try exact H; try reflexivity.
  destruct (ParseInt lit0); simpl; [ reflexivity | exact H ].
Qed.

Lemma object_hasType (t : Reflect.StructType) (du : bool) (ms : list (string * json)) :
  forall d, hasType t (target d) -> hasType t (target (object t du ms d)).
Proof.
  induction ms as [ | [k j] ms IH ]; intros d H; simpl; [ exact H | ].
  apply IH.
  destruct (fieldFor t (unquote k)) as [f | ] eqn:E.
  - pose proof (fieldFor_first t _ f E) as Hf.
    destruct (hasType_Field t (target d) _ f H Hf) as (y & Hy & Hk).
    rewrite Hy.
    pose proof (storeField_kind (Reflect.Name f) (Reflect.Kind f) y j Hk) as Hs.
    destruct (storeField _ _ y j) as [new e]. simpl in *.
    exact (hasType_SetField t (target d) _ f new H Hf Hs).
  - destruct du; exact H.
Qed.

Lemma unmarshal_hasType (t : Reflect.StructType) (du : bool) (j : json)
    (v : Reflect.StructValue) :
  hasType t v -> hasType t (target (unmarshal t du j v)).
Proof.
  intros H. destruct j; simpl; try exact H.
  apply object_hasType. exact H.
Qed.

(** what [Unmarshal] returns on success: the value the decoder has left in
    the new struct *)
Lemma Unmarshal_value (s : Schema) (data : string) (x : Reflect.StructValue) :
  Unmarshal s data = (Some x, None) ->
  exists j rest,
    readValue data = ReadValue j rest /\
    x = target (unmarshal (targetType s) (strict s) j (Reflect.New (targetType s))) /\
    savedError (unmarshal (targetType s) (strict s) j (Reflect.New (targetType s))) = None /\
    More (mkDecoder rest (strict s) None) = false.
Proof.
  unfold Unmarshal, NewDecoder, DisallowUnknownFields, Decode.
  destruct (strict s); simpl;
    (destruct (readValue data) as [j rest | e]; [ | discriminate ];
     destruct (savedError _) as [e | ] eqn:E; [ discriminate | ];
     destruct (More _) eqn:EM; [ discriminate | ];
     intros H; inversion H; exists j, rest; repeat split; assumption).
Qed.

(** The value [Unmarshal] returns is a value of the target type: it has
    the fields of the type, in their order, and each field holds a value of
    its kind. *)
Theorem Unmarshal_has_target_type :
  forall (s : Schema) (data : string) (x : Reflect.StructValue),
    Unmarshal s data = (Some x, None) ->
    hasType (targetType s) x.
Proof.
  intros s data x H.
  destruct (Unmarshal_value s data x H) as (j & rest & _ & Hx & _).
  subst x. apply unmarshal_hasType. apply hasType_New.
Qed.

(** in strict mode an input decoded without an error is decoded as in
    lenient mode *)
Lemma object_strict_lenient (t : Reflect.StructType) (ms : list (string * json)) :
  forall d, savedError (object t true ms d) = None ->
            object t false ms d = object t true ms d.
Proof.
  induction ms as [ | [k j] ms IH ]; intros d H; simpl in *; [ reflexivity | ].
  destruct (fieldFor t (unquote k)) as [f | ].
  - apply IH. exact H.
  - exfalso. revert H. apply object_savedError_stays. simpl.
    destruct (savedError d); simpl; congruence.
Qed.

(** Strictness only rejects.  What a strict schema accepts, the schema
    with strictness disabled accepts too, and it decodes it to the same
    value. *)
Theorem Unmarshal_strict_implies_lenient :
  forall (s : Schema) (data : string) (x : Reflect.StructValue),
    Unmarshal s data = (Some x, None) ->
    Unmarshal (WithStrict s false) data = (Some x, None).
Proof.
  intros s data x H.
  destruct (Unmarshal_value s data x H) as (j & rest & Hr & Hx & He & Hm).
  unfold Unmarshal, WithStrict, NewDecoder, Decode. simpl. rewrite Hr.
  assert (Hsame : unmarshal (targetType s) false j (Reflect.New (targetType s)) =
                  unmarshal (targetType s) (strict s) j (Reflect.New (targetType s))).
  { destruct (strict s); [ | reflexivity ].
    destruct j; simpl in *; try reflexivity.
    apply object_strict_lenient. exact He. }
  rewrite Hsame, He. unfold More in *. simpl in *. rewrite Hm. rewrite Hx. reflexivity.
Qed.

(** a value fits a field: it is [null], or a literal of the kind of the
    field, a number for an [int] being an integer literal within [int64] *)
Lemma object_members_fit (t : Reflect.StructType) (du : bool) (ms : list (string * json)) :
  forall d,
    savedError (object t du ms d) = None ->
    forall k j f, In (k, j) ms -> fieldFor t (unquote k) = Some f ->
                  fits (Reflect.Kind f) j = true.
Proof.
  induction ms as [ | [k0 j0] ms IH ]; intros d H k j f Hin Hf; simpl in *; [ tauto | ].
  destruct Hin as [E | Hin].
  - inversion E. subst k0 j0. rewrite Hf in H.
    destruct (fits (Reflect.Kind f) j) eqn:Efit; [ reflexivity | exfalso ].
    revert H. apply object_savedError_stays.
    set (old := match Reflect.Field (target d) (Reflect.Name f) with
                | Some v => v
                | None => Reflect.Zero (Reflect.Kind f)
                end).
    clearbody old.
    destruct j, (Reflect.Kind f); simpl in *; try discriminate Efit;
      try (destruct (savedError d); simpl; congruence).
    destruct (ParseInt lit0); [ discriminate Efit | ].
    simpl. destruct (savedError d); simpl; congruence.
  - exact (IH _ H k j f Hin Hf).
Qed.

(** An accepted input fits the target type.  When [Unmarshal] returns a
    value for an input that is a JSON object, every member whose key names a
    field holds [null] or a value of the kind of that field: a text for a
    [string], [true] or [false] for a [bool], and for an [int] a number
    written as an integer that an [int64] holds. *)
Theorem Unmarshal_members_fit :
  forall (s : Schema) (data : string) (x : Reflect.StructValue)
         (ms : list (string * json)) (rest : string),
    Unmarshal s data = (Some x, None) ->
    readValue data = ReadValue (JObject ms) rest ->
    forall k j f,
      In (k, j) ms ->
      fieldFor (targetType s) (unquote k) = Some f ->
      fits (Reflect.Kind f) j = true.
Proof.
  intros s data x ms rest H Hr k j f Hin Hf.
  destruct (Unmarshal_value s data x H) as (j' & rest' & Hr' & _ & He & _).
  rewrite Hr in Hr'. inversion Hr'. subst j' rest'. simpl in He.
  exact (object_members_fit _ _ ms _ He k j f Hin Hf).
Qed.

Lemma Field_SetField_other (v : Reflect.StructValue) (m n : string) (x : Reflect.Value) :
  m <> n -> Reflect.Field (Reflect.SetField v m x) n = Reflect.Field v n.
Proof.
  intros Hmn. induction v as [ | [a y] v IH ]; simpl; [ reflexivity | ].
  destruct (String.eqb_spec a m) as [E | E]; simpl.
  - subst a. destruct (String.eqb_spec m n); [ contradiction | reflexivity ].
  - rewrite IH. reflexivity.
Qed.

Lemma object_Field_untouched (t : Reflect.StructType) (du : bool)
    (ms : list (string * json)) (n : string) :
  (forall k j f, In (k, j) ms -> fieldFor t (unquote k) = Some f ->
                 Reflect.Name f <> n) ->
  forall d, Reflect.Field (target (object t du ms d)) n = Reflect.Field (target d) n.
Proof.
  induction ms as [ | [k j] ms IH ]; intros Hms d; simpl; [ reflexivity | ].
  rewrite IH by (intros k' j' f' Hin; apply (Hms k' j' f'); right; exact Hin).
  destruct (fieldFor t (unquote k)) as [f | ] eqn:E.
  - destruct (storeField _ _ _ j) as [new e]. simpl.
    apply Field_SetField_other. apply (Hms k j f); [ left; reflexivity | exact E ].
  - destruct du; reflexivity.
Qed.

(** Every decoding starts from a new struct.  In the value [Unmarshal]
    returns, a field that no member of the input names holds what it holds
    in a new struct of the target type: the zero value of its kind. *)
Theorem Unmarshal_absent_field_is_zero :
  forall (s : Schema) (data : string) (x : Reflect.StructValue)
         (ms : list (string * json)) (rest : string) (f : Reflect.StructField),
    Unmarshal s data = (Some x, None) ->
    readValue data = ReadValue (JObject ms) rest ->
    byExactName (targetType s) (Reflect.Name f) = Some f ->
    (forall k j f', In (k, j) ms ->
                    fieldFor (targetType s) (unquote k) = Some f' ->
                    Reflect.Name f' <> Reflect.Name f) ->
    Reflect.Field x (Reflect.Name f) = Some (Reflect.Zero (Reflect.Kind f)).
Proof.
  intros s data x ms rest f H Hr Hf Hms.
  destruct (Unmarshal_value s data x H) as (j' & rest' & Hr' & Hx & _ & _).
  rewrite Hr in Hr'. inversion Hr'. subst j' rest' x. simpl.
  rewrite (object_Field_untouched _ _ ms _ Hms). simpl.
  clear - Hf. induction (targetType s) as [ | g t IH ]; simpl in *; [ discriminate | ].
  destruct (Reflect.Name g =? Reflect.Name f)%string.
  - inversion Hf. reflexivity.
  - exact (IH Hf).
Qed.

(** ** White space around the value *)

Lemma scan_step_reset_space (c : ascii) :
  isSpace c = true -> scan_step reset c = (scanSkipSpace, reset).
Proof. intros H. unfold scan_step, stateBeginValue. simpl. rewrite H. reflexivity. Qed.

(** [readValue] looks at the whole input only to tell an empty input from
    one cut short *)
Lemma readValue_from_nonSpace (buf : string) :
  forall (s : scanner) (d1 d2 : string),
    nonSpace d1 = nonSpace d2 -> readValue_from d1 s buf = readValue_from d2 s buf.
Proof.
  induction buf as [ | c buf IH ]; intros s d1 d2 H; simpl.
  - rewrite H. reflexivity.
  - destruct (scan_step s c) as [op s']. destruct op; try reflexivity; try (apply IH; exact H).
    + destruct (stateEndValue s' " ") as [op' s'']. destruct op'; try reflexivity;
        apply IH; exact H.
    + destruct (stateEndValue s' " ") as [op' s'']. destruct op'; try reflexivity;
        apply IH; exact H.
Qed.

Lemma nonSpace_app (a b : string) :
  nonSpace (a ++ b) = nonSpace a || nonSpace b.
Proof.
  unfold nonSpace. induction a as [ | c a IH ]; simpl; [ reflexivity | ].
  rewrite IH. apply orb_assoc.
Qed.

Lemma readValue_leading_space (ws data : string) :
  nonSpace ws = false -> readValue (ws ++ data) = readValue data.
Proof.
  intros H. unfold readValue.
  transitivity (readValue_from (ws ++ data) reset data).
  - generalize (ws ++ data) at 1 3. intros d.
    induction ws as [ | c ws IH ]; simpl; [ reflexivity | ].
    unfold nonSpace in H. simpl in H. apply orb_false_elim in H. destruct H as [Hc H].
    apply negb_false_iff in Hc. rewrite (scan_step_reset_space c Hc). apply IH. exact H.
  - apply readValue_from_nonSpace. rewrite nonSpace_app, H. reflexivity.
Qed.

Lemma append_empty_r (s : string) : s ++ EmptyString = s.
Proof. induction s as [ | c s IH ]; simpl; [ reflexivity | rewrite IH; reflexivity ]. Qed.

(** White space before the value does not count: [Unmarshal] returns for
    an input with spaces, tabs or line ends in front what it returns for the
    input without them. *)
Theorem Unmarshal_leading_space :
  forall (s : Schema) (ws data : string),
    nonSpace ws = false ->
    Unmarshal s (ws ++ data) = Unmarshal s data.
Proof.
  intros s ws data H.
  unfold Unmarshal, NewDecoder, DisallowUnknownFields, Decode.
  destruct (strict s); simpl; rewrite (readValue_leading_space ws data H);
    destruct (readValue data); reflexivity.
Qed.

(** An input without a value is no JSON.  For the empty input and for an
    input of white space only, [Unmarshal] returns the error of the decoder
    at the end of its input, [io.EOF], wrapped; a retry policy takes it for
    a failure to retry. *)
Theorem Unmarshal_blank_input :
  forall (s : Schema) (data : string),
    nonSpace data = false ->
    Unmarshal s data = (None, Some (wrapError "failed to unmarshal JSON: %w" io_EOF)) /\
    shouldRetry (Some (SchemaError (Some (wrapError "failed to unmarshal JSON: %w" io_EOF))))
      = true.
Proof.
  intros s data H. split; [ | reflexivity ].
  assert (Hr : readValue data = ReadError io_EOF).
  { rewrite <- (append_empty_r data) at 1.
    rewrite (readValue_leading_space data EmptyString H). reflexivity. }
  unfold Unmarshal, NewDecoder, DisallowUnknownFields, Decode.
  destruct (strict s); simpl; rewrite Hr; reflexivity.
Qed.

(** What follows the value.  Let [Unmarshal] accept the text [v] of a JSON
    object.  For [v] followed by any text [t], it returns the same value when
    [t] is white space only and when the first byte of [t] that is not white
    space is a closing brace or bracket, and the error [trailing data after
    JSON] when it is any other byte. *)
Theorem Unmarshal_after_the_value :
  forall (s : Schema) (v : string) (ms : list (string * json))
         (x : Reflect.StructValue) (t : string),
    readValue v = ReadValue (JObject ms) EmptyString ->
    Unmarshal s v = (Some x, None) ->
    match peek t with
    | Some c =>
        if (c =? "}")%char || (c =? "]")%char
        then Unmarshal s (v ++ t) = (Some x, None)
        else Unmarshal s (v ++ t) = (None, Some (errorString "trailing data after JSON"))
    | None => Unmarshal s (v ++ t) = (Some x, None)
    end.
Proof.
  intros s v ms x t Hr H. exact (Unmarshal_tail s v ms x t Hr H).
Qed.
(** ** The delays of a policy without jitter *)




(** ** The length validators *)

Lemma RuneCountInString_bounds_upto (n : nat) :
  forall s, (String.length s <= n)%nat ->
            0 <= Utf8.RuneCountInString s <= len s.
Proof.
  unfold len. induction n as [ | n IH ]; intros s Hn.
  - destruct s; simpl in *; [ lia | lia ].
  - destruct s as [ | c rest ]; [ simpl; lia | ].
    simpl in Hn.
    assert (Hrest : 0 <= Utf8.RuneCountInString rest <= Z.of_nat (String.length rest))
      by (apply IH; lia).
    cbn [Utf8.RuneCountInString String.length].
    destruct (rune_len c) as [ | [ | [ | [ | [ | k ] ] ] ] ]; try lia.
    + destruct rest as [ | c1 r1 ]; [ try lia; simpl in *; lia | ].
      destruct (second_ok c c1); [ | lia ].
      assert (0 <= Utf8.RuneCountInString r1 <= Z.of_nat (String.length r1))
        by (apply IH; simpl in *; lia).
      simpl String.length in *. lia.
    + destruct rest as [ | c1 [ | c2 r2 ] ]; try lia; try (simpl in *; lia).
      destruct (second_ok c c1 && contByte c2); [ | lia ].
      assert (0 <= Utf8.RuneCountInString r2 <= Z.of_nat (String.length r2))
        by (apply IH; simpl in *; lia).
      simpl String.length in *. lia.
    + destruct rest as [ | c1 [ | c2 [ | c3 r3 ] ] ]; try lia; try (simpl in *; lia).
      destruct (second_ok c c1 && contByte c2 && contByte c3); [ | lia ].
      assert (0 <= Utf8.RuneCountInString r3 <= Z.of_nat (String.length r3))
        by (apply IH; simpl in *; lia).
      simpl String.length in *. lia.
Qed.

(** a text has at most as many runes as bytes *)
Lemma RuneCountInString_bounds (s : string) :
  0 <= Utf8.RuneCountInString s <= len s.
Proof. exact (RuneCountInString_bounds_upto (String.length s) s (Nat.le_refl _)). Qed.

(** a text of ASCII bytes has as many runes as bytes *)
Lemma RuneCountInString_ASCII (s : string) :
  isASCII s = true -> Utf8.RuneCountInString s = len s.
Proof.
  unfold len. induction s as [ | c s IH ]; intros H; [ reflexivity | ].
  simpl in H. apply andb_prop in H. destruct H as [Hc H].
  cbn [Utf8.RuneCountInString String.length]. unfold rune_len. rewrite Hc.
  rewrite (IH H). lia.
Qed.

Section LengthProperties.

Variable World : Type.
Variable ctx_Err : Context -> World -> option error.

(** A range is a minimum and a maximum.  [LengthRange] accepts an output
    exactly when the [MinLength] of its lower bound and the [MaxLength] of
    its upper bound, counting in the same unit, both accept it. *)
Theorem LengthRange_is_MinLength_and_MaxLength :
  forall (min max : Z) (runes : bool) (ctx : Context) (output : string) (w : World),
    LengthRange_Validate ctx_Err (mkLengthRange min max runes) ctx output w = None <->
    MinLength_Validate ctx_Err (mkMinLength min runes) ctx output w = None /\
    MaxLength_Validate ctx_Err (mkMaxLength max runes) ctx output w = None.
Proof.
  intros min max runes ctx output w.
  unfold LengthRange_Validate, MinLength_Validate, MaxLength_Validate. simpl.
  destruct (ctx_Err ctx w) as [e | ]; [ split; [ discriminate | intros [H _]; exact H ] | ].
  destruct runes;
    (destruct (_ <? min); [ split; [ discriminate | intros [H _]; discriminate H ] | ];
     destruct (max <? _); [ split; [ discriminate | intros [_ H]; discriminate H ] | ];
     split; [ intros _; split; reflexivity | reflexivity ]).
Qed.

(** Counting runes is the milder measure.  A text has at most as many runes
    as bytes: what [MaxLength] accepts in bytes it accepts in runes, what
    [MinLength] accepts in runes it accepts in bytes, and on a text of ASCII
    bytes the two ways of counting give the same verdicts. *)
Theorem runes_count_at_most_bytes :
  forall (limit : Z) (ctx : Context) (output : string) (w : World),
    (MaxLength_Validate ctx_Err (NewMaxLength limit) ctx output w = None ->
     MaxLength_Validate ctx_Err (MaxLength_WithRunes (NewMaxLength limit)) ctx output w
       = None) /\
    (MinLength_Validate ctx_Err (MinLength_WithRunes (NewMinLength limit)) ctx output w
       = None ->
     MinLength_Validate ctx_Err (NewMinLength limit) ctx output w = None) /\
    (isASCII output = true ->
     (MaxLength_Validate ctx_Err (MaxLength_WithRunes (NewMaxLength limit)) ctx output w
        = None <->
      MaxLength_Validate ctx_Err (NewMaxLength limit) ctx output w = None) /\
     (MinLength_Validate ctx_Err (MinLength_WithRunes (NewMinLength limit)) ctx output w
        = None <->
      MinLength_Validate ctx_Err (NewMinLength limit) ctx output w = None)).
Proof.
  intros limit ctx output w.
  pose proof (RuneCountInString_bounds output) as [_ Hle].
  unfold MaxLength_Validate, MinLength_Validate. simpl.
  destruct (ctx_Err ctx w) as [e | ].
  { split; [ discriminate | split; [ discriminate | ] ].
    intros _. split; split; discriminate. }
  split; [ | split ].
  - destruct (Z.ltb_spec limit (len output)); [ discriminate | ].
    destruct (Z.ltb_spec limit (Utf8.RuneCountInString output)); [ lia | reflexivity ].
  - destruct (Z.ltb_spec (Utf8.RuneCountInString output) limit); [ discriminate | ].
    destruct (Z.ltb_spec (len output) limit); [ lia | reflexivity ].
  - intros HA. rewrite (RuneCountInString_ASCII output HA).
    split.
    + destruct (limit <? len output); split; (discriminate || reflexivity).
    + destruct (len output <? limit); split; (discriminate || reflexivity).
Qed.

(** A range whose upper bound is below its lower bound accepts nothing:
    every output is too short or too long. *)
Theorem LengthRange_empty :
  forall (r : LengthRange) (ctx : Context) (output : string) (w : World),
    LengthRange_max r < LengthRange_min r ->
    exists e, LengthRange_Validate ctx_Err r ctx output w = Some e.
Proof.
  intros r ctx output w H. unfold LengthRange_Validate.
  destruct (ctx_Err ctx w) as [e | ]; [ eexists; reflexivity | ].
  destruct (LengthRange_runes r).
  - destruct (Z.ltb_spec (Utf8.RuneCountInString output) (LengthRange_min r));
      [ eexists; reflexivity | ].
    destruct (Z.ltb_spec (LengthRange_max r) (Utf8.RuneCountInString output));
      [ eexists; reflexivity | lia ].
  - destruct (Z.ltb_spec (len output) (LengthRange_min r)); [ eexists; reflexivity | ].
    destruct (Z.ltb_spec (LengthRange_max r) (len output)); [ eexists; reflexivity | lia ].
Qed.

Variable time_Now : World -> Z.
Variable rand_Float64 : World -> Q.
Variable wait : Context -> time_Duration -> World -> option error * World.

(** The limit holds of every result.  When a [MaxLength] is among the
    validators of a guard, the [Raw] text of every result [Run] returns is
    within its limit, in bytes or in runes as the validator counts. *)
Theorem Run_result_within_MaxLength :
  forall (g : Guard World) (ctx : Context) (prompt : string)
         (s s' : State World) (res : Result) (err : option error) (m : MaxLength),
    Run World time_Now rand_Float64 wait g ctx prompt s = Some ((Some res, err), s') ->
    In (MaxLength_Validator ctx_Err m) (validators g) ->
    (if MaxLength_runes m then Utf8.RuneCountInString (Raw res) else len (Raw res))
      <= MaxLength_limit m.
Proof.
  intros g ctx prompt s s' res err m H Hin.
  destruct (Run_result_validated World time_Now rand_Float64 wait g ctx prompt
              s res err s' H _ Hin) as (w & w' & Hv).
  unfold MaxLength_Validator in Hv. simpl in Hv. inversion Hv as [[Hm Hw]]. clear Hv Hw.
  unfold MaxLength_Validate in Hm.
  destruct (ctx_Err (run_context g ctx) w); [ discriminate | ].
  destruct (MaxLength_runes m).
  - destruct (Z.ltb_spec (MaxLength_limit m) (Utf8.RuneCountInString (Raw res)));
      [ discriminate | lia ].
  - destruct (Z.ltb_spec (MaxLength_limit m) (len (Raw res))); [ discriminate | lia ].
Qed.

End LengthProperties.
(** ** The keyword detectors *)

Lemma isASCII_app (a b : string) : isASCII (a ++ b) = isASCII a && isASCII b.
Proof.
  induction a as [ | c a IH ]; simpl; [ reflexivity | ].
  rewrite IH. apply andb_assoc.
Qed.

Lemma lowerASCII_app (a b : string) :
  Strings.lowerASCII (a ++ b) = Strings.lowerASCII a ++ Strings.lowerASCII b.
Proof.
  induction a as [ | c a IH ]; simpl; [ reflexivity | rewrite IH; reflexivity ].
Qed.

(** a text cut after its lower-case form is cut *)
Lemma lowerASCII_split (p a b : string) :
  Strings.lowerASCII p = a ++ b ->
  exists a' b', p = a' ++ b' /\ Strings.lowerASCII a' = a /\ Strings.lowerASCII b' = b.
Proof.
  revert p. induction a as [ | c a IH ]; intros p H.
  - exists EmptyString, p. split; [ reflexivity | split; [ reflexivity | exact H ] ].
  - destruct p as [ | d p ]; simpl in H; [ discriminate | ].
    inversion H as [[Hc Hp]]. destruct (IH p Hp) as (a' & b' & E & Ha & Hb).
    exists (String d a'), b'. subst p. simpl. rewrite Ha, Hb.
    split; [ reflexivity | split; reflexivity ].
Qed.

Lemma HasPrefix_app (sub post : string) : Strings.HasPrefix (sub ++ post) sub = true.
Proof.
  induction sub as [ | c sub IH ]; simpl; [ destruct post; reflexivity | ].
  rewrite Ascii.eqb_refl. exact IH.
Qed.

Lemma HasPrefix_split (s sub : string) :
  Strings.HasPrefix s sub = true -> exists post, s = sub ++ post.
Proof.
  revert s. induction sub as [ | c sub IH ]; intros s H.
  - exists s. reflexivity.
  - destruct s as [ | d s ]; simpl in H; [ discriminate | ].
    apply andb_prop in H. destruct H as [Hc H]. apply Ascii.eqb_eq in Hc. subst d.
    destruct (IH s H) as [post E]. exists post. subst s. reflexivity.
Qed.

Lemma Contains_of_HasPrefix (s sub : string) :
  Strings.HasPrefix s sub = true -> Strings.Contains s sub = true.
Proof. intros H. destruct s; cbn [Strings.Contains]; rewrite H; reflexivity. Qed.

(** [Contains] finds a text wherever it stands *)
Lemma Contains_app (pre sub post : string) :
  Strings.Contains (pre ++ sub ++ post) sub = true.
Proof.
  induction pre as [ | c pre IH ].
  - change (EmptyString ++ sub ++ post) with (sub ++ post).
    apply Contains_of_HasPrefix. apply HasPrefix_app.
  - cbn [Strings.Contains append]. rewrite IH. apply orb_true_r.
Qed.

Lemma Contains_split (s sub : string) :
  Strings.Contains s sub = true -> exists pre post, s = pre ++ sub ++ post.
Proof.
  induction s as [ | c s IH ]; cbn [Strings.Contains]; intros H.
  - rewrite orb_false_r in H. destruct (HasPrefix_split _ _ H) as [post E].
    exists EmptyString, post. exact E.
  - apply orb_prop in H. destruct H as [H | H].
    + destruct (HasPrefix_split _ _ H) as [post E]. exists EmptyString, post. exact E.
    + destruct (IH H) as (pre & post & E). exists (String c pre), post.
      subst s. reflexivity.
Qed.

Lemma find_app (A : Type) (f : A -> bool) (l l' : list A) :
  find f (l ++ l') = match find f l with
                     | Some x => Some x
                     | None => find f l'
                     end.
Proof.
  induction l as [ | a l IH ]; simpl; [ reflexivity | ].
  destruct (f a); [ reflexivity | exact IH ].
Qed.

Section KeywordsProperties.

Variable World : Type.
Variable ctx_Err : Context -> World -> option error.
Variable unicode_ToLower : string -> string.
Variable unicode_Quote : string -> string.

(** a keyword is found in an ASCII prompt exactly when the prompt holds it
    up to the case of its letters *)
Lemma Contains_lowered (prompt kwl : string) :
  isASCII prompt = true ->
  (Strings.Contains (strings_ToLower unicode_ToLower prompt) kwl = true <->
   exists pre hit post,
     prompt = pre ++ hit ++ post /\ Strings.lowerASCII hit = kwl).
Proof.
  intros HA. unfold strings_ToLower. rewrite HA. split.
  - intros H. destruct (Contains_split _ _ H) as (pre' & post' & E).
    destruct (lowerASCII_split _ _ _ E) as (pre & rest & Ep & _ & Er).
    destruct (lowerASCII_split _ _ _ Er) as (hit & post & Eh & Hh & _).
    exists pre, hit, post. subst. split; reflexivity.
  - intros (pre & hit & post & E & Hh). subst prompt kwl.
    rewrite !lowerASCII_app. apply Contains_app.
Qed.

(** The keyword detector finds a keyword in any case.  On a context that
    is not done, [NewKeywords(kws...)] rejects a prompt of ASCII bytes exactly
    when a part of the prompt is, up to the case of its letters, one of the
    keywords: those of [kws], or the default keywords when [kws] is empty. *)
Theorem Keywords_detects_in_any_case :
  forall (kws : list string) (ctx : Context) (prompt : string) (w : World),
    ctx_Err ctx w = None ->
    isASCII prompt = true ->
    ((exists e,
         Keywords_Detect World ctx_Err unicode_ToLower unicode_Quote
           (NewKeywords unicode_ToLower kws) ctx prompt w = Some e)
     <->
     exists kw pre hit post,
       In kw (match kws with [] => DefaultKeywords | _ => kws end) /\
       prompt = pre ++ hit ++ post /\
       Strings.lowerASCII hit = strings_ToLower unicode_ToLower kw).
Proof.
  intros kws ctx prompt w Hctx HA. unfold Keywords_Detect, NewKeywords. rewrite Hctx.
  simpl keywords.
  set (given := match kws with [] => DefaultKeywords | _ => kws end).
  split.
  - intros [e H].
    destruct (find _ (map (strings_ToLower unicode_ToLower) given)) as [kwl | ] eqn:E;
      [ | discriminate ].
    apply find_some in E. destruct E as [Hin Hc].
    apply in_map_iff in Hin. destruct Hin as (kw & Hkw & Hin).
    apply (Contains_lowered prompt kwl HA) in Hc.
    destruct Hc as (pre & hit & post & Ep & Hh).
    exists kw, pre, hit, post. subst kwl.
    split; [ exact Hin | split; [ exact Ep | exact Hh ] ].
  - intros (kw & pre & hit & post & Hin & Ep & Hh).
    destruct (find _ (map (strings_ToLower unicode_ToLower) given)) as [kwl | ] eqn:E;
      [ eexists; reflexivity | exfalso ].
    pose proof (find_none _ _ E (strings_ToLower unicode_ToLower kw)
                  (in_map _ _ _ Hin)) as Hn.
    simpl in Hn.
    assert (Hc : Strings.Contains (strings_ToLower unicode_ToLower prompt)
                   (strings_ToLower unicode_ToLower kw) = true).
    { apply (Contains_lowered prompt _ HA). exists pre, hit, post.
      split; [ exact Ep | exact Hh ]. }
    rewrite Hc in Hn. discriminate Hn.
Qed.

(** Keywords are only ever added.  What a keyword detector rejects, the
    detector with more keywords rejects too, with the same error. *)
Theorem Keywords_WithKeywords_only_adds :
  forall (k : Keywords) (more : list string) (ctx : Context) (prompt : string)
         (w : World) (e : error),
    Keywords_Detect World ctx_Err unicode_ToLower unicode_Quote k ctx prompt w = Some e ->
    Keywords_Detect World ctx_Err unicode_ToLower unicode_Quote
      (Keywords_WithKeywords unicode_ToLower k more) ctx prompt w = Some e.
Proof.
  intros k more ctx prompt w e. unfold Keywords_Detect, Keywords_WithKeywords.
  destruct (ctx_Err ctx w); [ intros H; exact H | ].
  simpl keywords. rewrite find_app.
  destruct (find _ (keywords k)); [ intros H; exact H | discriminate ].
Qed.

End KeywordsProperties.

Section DomainProperties.

Variable World : Type.
Variable ctx_Err : Context -> World -> option error.
Variable unicode_ToLower : string -> string.
Variable unicode_Quote : string -> string.
Variable unicode_TrimFunc : string -> string.
Variable unicode_TrimRightFunc : string -> string.
Variable Regexp : Type.
Variable FindString : Regexp -> string -> string.

(** Blocked comes before allowed.  On a context that is not done, the
    domain detector rejects a prompt of ASCII bytes that holds one of its
    blocked keywords, in any case, whatever its patterns, its allowed
    keywords and its [requireMatch] are. *)
Theorem Domain_blocked_before_allowed :
  forall (d : Domain Regexp) (ctx : Context) (w : World)
         (blocked pre hit post : string),
    ctx_Err ctx w = None ->
    In blocked (blockedKeywords Regexp d) ->
    isASCII (pre ++ hit ++ post) = true ->
    Strings.lowerASCII hit = blocked ->
    exists e,
      Domain_Detect World ctx_Err unicode_ToLower unicode_Quote unicode_TrimFunc
        unicode_TrimRightFunc Regexp FindString d ctx (pre ++ hit ++ post) w = Some e.
Proof.
  intros d ctx w blocked pre hit post Hctx Hin HA Hh. unfold Domain_Detect. rewrite Hctx.
  destruct (find _ (blockedKeywords Regexp d)) as [b | ] eqn:E;
    [ eexists; reflexivity | exfalso ].
  pose proof (find_none _ _ E blocked Hin) as Hn. simpl in Hn.
  assert (Hc : Strings.Contains (strings_ToLower unicode_ToLower (pre ++ hit ++ post))
                 blocked = true).
  { apply (Contains_lowered unicode_ToLower _ _ HA). exists pre, hit, post.
    split; [ reflexivity | exact Hh ]. }
  rewrite Hc in Hn. discriminate Hn.
Qed.

(** [requireMatch] needs allowed keywords.  For a domain detector without
    allowed keywords the flag set by [WithRequireAllowed] changes nothing:
    the detector does not turn a prompt down for naming no allowed
    keyword. *)
Lemma Domain_requireMatch_needs_keywords :
  forall (d : Domain Regexp) (require : bool) (ctx : Context) (prompt : string)
         (w : World),
    allowedKeywords Regexp d = [] ->
    Domain_Detect World ctx_Err unicode_ToLower unicode_Quote unicode_TrimFunc
      unicode_TrimRightFunc Regexp FindString
      (WithRequireAllowed Regexp require d) ctx prompt w
    = Domain_Detect World ctx_Err unicode_ToLower unicode_Quote unicode_TrimFunc
        unicode_TrimRightFunc Regexp FindString d ctx prompt w.
Proof.
  intros d require ctx prompt w H. unfold Domain_Detect, WithRequireAllowed. simpl.
  rewrite H. simpl. rewrite !andb_false_r. reflexivity.
Qed.

End DomainProperties.
(** ** [json.Unmarshal] and [Decoder.Decode] on the same input *)

(** one step of the scanner from a state in which the value is not
    complete: how the top-level value ends *)
Lemma scan_step_ends (s s' : scanner) (c : ascii) (op : opcode) :
  scanning s ->
  scan_step s c = (op, s') ->
  match op with
  | scanEnd => (isSpace c = true /\ step s' = StEndTop) \/ step s' = StError
  | scanEndObject | scanEndArray =>
      isSpace c = false /\ (parseState s' = [] -> step s' = StEndTop)
  | scanError => step s' = StError
  | _ => True
  end.
Proof.
  intros [Hstep Hval] H. unfold scan_step in H.
  destruct (step s) eqn:Es; try congruence;
    unfold stateBeginValueOrEmpty, stateBeginStringOrEmpty, stateBeginValue,
      stateBeginString, stateInString, stateInStringEsc, stateHex, stateNeg,
      state1, state0, stateDot, stateDot0, stateE, stateESign, stateE0,
      stateExpect, stateLast, endNumber, stateEndValue, stateEndTop,
      pushParseState, popParseState, scan_error, continue, beginLiteral,
      endLiteral, set_step, attach in H;
    simpl in H; split_scan H; inversion H; subst; clear H; simpl;
    try exact I; try reflexivity; try assumption;
    try (split; [ reflexivity | intros; try reflexivity; discriminate ]);
    try (right; reflexivity);
    try (left; split; reflexivity);
    try (exfalso; simpl in *; congruence).
Qed.

Import JSONUnmarshal.

(** after an error the scanner goes on returning [scanError] *)
Lemma checkValid_from_error (s sf : scanner) (data : string) :
  step s = StError -> checkValid_from s data = Some sf -> sf = s.
Proof.
  intros Hs H. destruct data as [ | c rest ]; simpl in H.
  - inversion H. reflexivity.
  - unfold scan_step in H. rewrite Hs in H. discriminate.
Qed.

(** once the value is complete, [checkValid] goes on over white space only *)
Lemma checkValid_from_EndTop (data : string) :
  forall s sf,
    step s = StEndTop -> checkValid_from s data = Some sf ->
    (sf = s /\ nonSpace data = false) \/ step sf = StError.
Proof.
  induction data as [ | c rest IH ]; intros s sf Hs H; simpl in H.
  - inversion H. left. split; reflexivity.
  - unfold scan_step in H. rewrite Hs in H. unfold stateEndTop in H.
    destruct (isSpace c) eqn:Ec; simpl in H.
    + destruct (IH s sf Hs H) as [[E Hn] | E]; [ left | right; exact E ].
      split; [ exact E | ]. unfold nonSpace in *. simpl. rewrite Ec, Hn. reflexivity.
    + right. rewrite (checkValid_from_error (set_step s StError) sf rest eq_refl H).
      reflexivity.
Qed.

Lemma eof_scanEnd (s s' : scanner) :
  eof s = (scanEnd, s') -> step s <> StError /\ step s' = StEndTop.
Proof.
  unfold eof. destruct (step s) eqn:Es;
    try (destruct (scan_step s " ") as [op s1]; destruct (step s1) eqn:E1;
         intros H; inversion H; subst; split; [ discriminate | exact E1 ]).
  - intros H. inversion H. subst. split; [ discriminate | exact Es ].
  - discriminate.
Qed.

Lemma eof_scanning (s s' : scanner) :
  scanning s -> eof s = (scanEnd, s') ->
  exists op, scan_step s " " = (op, s') /\ step s' = StEndTop.
Proof.
  intros [Hs _]. unfold eof. destruct (step s) eqn:Es; try congruence;
    try (destruct (scan_step s " ") as [op s1]; destruct (step s1) eqn:E1;
         intros H; inversion H; subst; exists op; split; [ reflexivity | exact E1 ]).
Qed.

Lemma set_step_same (s : scanner) : set_step s (step s) = s.
Proof. destruct s. reflexivity. Qed.

(** An input [checkValid] accepts is one value and white space: [readValue]
    reads the same value off it and leaves white space only. *)
Lemma readValue_from_checkValid (buf : string) :
  forall (s sf sf' : scanner) (data : string) (j : json),
    scanning s ->
    checkValid_from s buf = Some sf ->
    eof sf = (scanEnd, sf') ->
    value sf' = Some j ->
    exists rest, readValue_from data s buf = ReadValue j rest /\ nonSpace rest = false.
Proof.
  induction buf as [ | c rest IH ]; intros s sf sf' data j Hs Hc He Hv.
  - simpl in Hc. inversion Hc. subst sf.
    destruct (eof_scanning s sf' Hs He) as (op & E & Htop).
    simpl. rewrite E.
    pose proof (scan_step_scanning s sf' " " op Hs E) as H1.
    pose proof (scan_step_ends s sf' " " op Hs E) as H2.
    destruct op; try congruence;
      try (destruct H1 as [H1' _]; congruence);
      try (destruct H2 as [H2' _]; discriminate H2').
    exists EmptyString. unfold the_value. rewrite Hv. split; reflexivity.
  - simpl in Hc. simpl. destruct (scan_step s c) as [op s1] eqn:E.
    pose proof (scan_step_scanning s s1 c op Hs E) as H1.
    pose proof (scan_step_ends s s1 c op Hs E) as H2.
    assert (Htop : step s1 = StEndTop ->
                   exists rest', the_value s1 rest = ReadValue j rest' /\
                                 nonSpace rest = false /\ rest' = rest).
    { intros Hs1.
      destruct (checkValid_from_EndTop rest s1 sf Hs1) as [[Esf Hn] | Esf].
      - destruct op; try discriminate Hc; exact Hc.
      - subst sf. unfold eof in He. rewrite Hs1 in He. inversion He. subst sf'.
        exists rest. unfold the_value. rewrite Hv. repeat split. exact Hn.
      - destruct (eof_scanEnd sf sf' He) as [Hne _]. contradiction. }
    destruct op; try discriminate Hc;
      try (exact (IH s1 sf sf' data j H1 Hc He Hv)).
    + (* the closing brace of an object *)
      destruct H2 as [_ H2].
      destruct (parseState s1) as [ | f ps ] eqn:Ep.
      * specialize (H2 eq_refl).
        unfold stateEndValue. rewrite Ep. unfold stateEndTop. simpl.
        destruct (Htop H2) as (rest' & Hr & Hn & _).
        exists rest. split; [ | exact Hn ].
        unfold the_value in *. simpl. destruct (value s1); [ | discriminate ].
        inversion Hr. reflexivity.
      * destruct H1 as [_ H1]. assert (Hst : step s1 = StEndValue) by (apply H1; discriminate).
        unfold stateEndValue. rewrite Ep. simpl.
        rewrite <- Hst, set_step_same.
        apply (IH s1 sf sf' data j); try assumption.
        split; [ rewrite Hst; discriminate | rewrite Ep; discriminate ].
    + (* the closing bracket of an array *)
      destruct H2 as [_ H2].
      destruct (parseState s1) as [ | f ps ] eqn:Ep.
      * specialize (H2 eq_refl).
        unfold stateEndValue. rewrite Ep. unfold stateEndTop. simpl.
        destruct (Htop H2) as (rest' & Hr & Hn & _).
        exists rest. split; [ | exact Hn ].
        unfold the_value in *. simpl. destruct (value s1); [ | discriminate ].
        inversion Hr. reflexivity.
      * destruct H1 as [_ H1]. assert (Hst : step s1 = StEndValue) by (apply H1; discriminate).
        unfold stateEndValue. rewrite Ep. simpl.
        rewrite <- Hst, set_step_same.
        apply (IH s1 sf sf' data j); try assumption.
        split; [ rewrite Hst; discriminate | rewrite Ep; discriminate ].
    + (* the byte after a literal at the top *)
      destruct H2 as [[Hc1 Hs1] | Hs1].
      * destruct (Htop Hs1) as (rest' & Hr & Hn & _).
        exists (String c rest). split.
        -- unfold the_value in *. destruct (value s1); [ | discriminate ].
           inversion Hr. reflexivity.
        -- unfold nonSpace in *. simpl. rewrite Hc1, Hn. reflexivity.
      * pose proof (checkValid_from_error s1 sf rest Hs1 Hc) as Esf. subst sf.
        destruct (eof_scanEnd s1 sf' He) as [Hne _]. contradiction.
Qed.

(** what [checkValid] accepts, [readValue] reads to its end *)
Lemma readValue_checkValid (data : string) (j : json) :
  checkValid data = Some j ->
  exists rest, readValue data = ReadValue j rest /\ nonSpace rest = false.
Proof.
  unfold checkValid, readValue.
  destruct (checkValid_from reset data) as [sf | ] eqn:Hc; [ | discriminate ].
  destruct (eof sf) as [op sf'] eqn:He.
  destruct op; try discriminate.
  intros Hv. exact (readValue_from_checkValid data reset sf sf' data j
                      scanning_reset Hc He Hv).
Qed.

Lemma peek_blank (rest : string) : nonSpace rest = false -> peek rest = None.
Proof.
  unfold nonSpace. induction rest as [ | c rest IH ]; simpl; intros H; [ reflexivity | ].
  apply orb_false_elim in H. destruct H as [Hc H]. apply negb_false_iff in Hc.
  rewrite Hc. exact (IH H).
Qed.

Section JSONProperties.

Variable World : Type.
Variable ctx_Err : Context -> World -> option error.
Variable unicode_Quote : string -> string.
Variable unicode_TrimFunc : string -> string.
Variable unicode_TrimRightFunc : string -> string.
Variable ParseFloat_ok : string -> bool.

(** what the JSON validator accepts is valid for [json.Unmarshal] *)
Lemma JSON_Validate_checkValid (j : JSON) (ctx : Context) (output : string) (w : World) :
  JSON_Validate World ctx_Err unicode_Quote unicode_TrimFunc unicode_TrimRightFunc
    ParseFloat_ok j ctx output w = None ->
  exists v,
    checkValid output = Some v /\
    convertNumbers ParseFloat_ok v = None /\
    (requireObject j = true -> exists ms, v = JObject ms) /\
    (requireArray j = true -> exists es, v = JArray es).
Proof.
  unfold JSON_Validate, Unmarshal_interface.
  destruct (ctx_Err ctx w); [ discriminate | ].
  destruct (_ =? "")%string; [ discriminate | ].
  destruct (requireObject j && negb _); [ discriminate | ].
  destruct (requireArray j && negb _); [ discriminate | ].
  destruct (checkValid output) as [v | ]; [ | discriminate ].
  destruct (convertNumbers ParseFloat_ok v) eqn:En; [ discriminate | ].
  destruct (requireObject j) eqn:Eo; destruct (requireArray j) eqn:Ea; simpl;
    destruct v; simpl; try discriminate; intros _; eexists;
    (split; [ reflexivity | split; [ exact En | ] ]);
    (split; intros H; try discriminate H; eexists; reflexivity).
Qed.

(** The JSON validator reads the whole output as one value.  When
    [Validate] accepts an output, the decoder of a schema reads one value off
    it and nothing but white space is left; an object when the validator
    requires one, an array when it requires that.  [Unmarshal] then neither
    meets a syntax error nor leaves anything unread: what it returns is
    decided by how the value fits the target type alone. *)
Theorem JSON_Validate_reads_whole_output :
  forall (j : JSON) (ctx : Context) (output : string) (w : World),
    JSON_Validate World ctx_Err unicode_Quote unicode_TrimFunc unicode_TrimRightFunc
      ParseFloat_ok j ctx output w = None ->
    exists v rest,
      readValue output = ReadValue v rest /\
      nonSpace rest = false /\
      (requireObject j = true -> exists ms, v = JObject ms) /\
      (requireArray j = true -> exists es, v = JArray es) /\
      forall s : Schema,
        Unmarshal s output =
        let d := unmarshal (targetType s) (strict s) v (Reflect.New (targetType s)) in
        match savedError d with
        | Some e => (None, Some (wrapError "failed to unmarshal JSON: %w" e))
        | None => (Some (target d), None)
        end.
Proof.
  intros j ctx output w H.
  destruct (JSON_Validate_checkValid j ctx output w H) as (v & Hc & _ & Ho & Ha).
  destruct (readValue_checkValid output v Hc) as (rest & Hr & Hn).
  exists v, rest.
  split; [ exact Hr | split; [ exact Hn | split; [ exact Ho | split; [ exact Ha | ] ] ] ].
  intros s. unfold Unmarshal, NewDecoder, DisallowUnknownFields, Decode, More.
  destruct (strict s); simpl; rewrite Hr; simpl;
    destruct (savedError _); try reflexivity;
    rewrite (peek_blank rest Hn); reflexivity.
Qed.

Variable time_Now : World -> Z.
Variable rand_Float64 : World -> Q.
Variable wait : Context -> time_Duration -> World -> option error * World.

(** With the JSON validator among its validators, a guard returns texts
    that are one JSON value and white space: the schema's check for trailing
    data has nothing left to pass over.  The [Raw] text of every result
    [Run] returns is read by the decoder to its end. *)
Theorem Run_result_is_one_JSON_value :
  forall (g : Guard World) (ctx : Context) (prompt : string)
         (s s' : State World) (res : Result) (err : option error) (j : JSON),
    Run World time_Now rand_Float64 wait g ctx prompt s = Some ((Some res, err), s') ->
    In (JSON_Validator World ctx_Err unicode_Quote unicode_TrimFunc
          unicode_TrimRightFunc ParseFloat_ok j) (validators g) ->
    exists v rest,
      readValue (Raw res) = ReadValue v rest /\ nonSpace rest = false.
Proof.
  intros g ctx prompt s s' res err j H Hin.
  destruct (Run_result_validated World time_Now rand_Float64 wait g ctx prompt
              s res err s' H _ Hin) as (w & w' & Hv).
  unfold JSON_Validator in Hv. simpl in Hv. inversion Hv as [[Hj Hw]].
  destruct (JSON_Validate_checkValid j _ (Raw res) w Hj) as (v & Hc & _).
  destruct (readValue_checkValid (Raw res) v Hc) as (rest & Hr & Hn).
  exists v, rest. split; assumption.
Qed.

End JSONProperties.
(** ** [UnmarshalInto] *)

Lemma StructType_eqb_refl (t : Reflect.StructType) : StructType_eqb t t = true.
Proof.
  induction t as [ | f t IH ]; simpl; [ reflexivity | ].
  rewrite String.eqb_refl, IH. destruct (Reflect.Kind f); reflexivity.
Qed.

Section UnmarshalIntoProperties.

Variable Type_String : Reflect.GoType -> string.

(** what [UnmarshalInto] does with a pointer to a struct of the target
    type *)
Lemma UnmarshalInto_pointer (s : Schema) (data : string) (v : Reflect.StructValue) :
  UnmarshalInto Type_String s data
    (Some (Reflect.PtrTo (Reflect.StructOf (targetType s)), v)) =
  match readValue data with
  | ReadError e => (v, Some (wrapError "failed to unmarshal JSON: %w" e))
  | ReadValue j rest =>
      let d := unmarshal (targetType s) (strict s) j v in
      match savedError d with
      | Some e => (target d, Some (wrapError "failed to unmarshal JSON: %w" e))
      | None =>
          if More (mkDecoder rest (strict s) None)
          then (target d, Some (errorString "trailing data after JSON"))
          else (target d, None)
      end
  end.
Proof.
  unfold UnmarshalInto. simpl. rewrite StructType_eqb_refl. simpl.
  unfold NewDecoder, DisallowUnknownFields, Decode.
  destruct (strict s); simpl; destruct (readValue data) as [j rest | e]; simpl;
    try reflexivity; destruct (savedError _); reflexivity.
Qed.

(** [UnmarshalInto] a new struct is [Unmarshal].  With a pointer to a new
    struct of the target type as its destination, [UnmarshalInto] returns
    the error [Unmarshal] returns for the same input, and where [Unmarshal]
    returns a value it leaves that value in the destination. *)
Theorem UnmarshalInto_new_struct :
  forall (s : Schema) (data : string),
    let dest := Some (Reflect.PtrTo (Reflect.StructOf (targetType s)),
                      Reflect.New (targetType s)) in
    snd (UnmarshalInto Type_String s data dest) = snd (Unmarshal s data) /\
    forall x, Unmarshal s data = (Some x, None) ->
              fst (UnmarshalInto Type_String s data dest) = x.
Proof.
  intros s data dest. unfold dest. rewrite UnmarshalInto_pointer.
  unfold Unmarshal, NewDecoder, DisallowUnknownFields, Decode.
  destruct (strict s); simpl; destruct (readValue data) as [j rest | e]; simpl;
    try (split; [ reflexivity | discriminate ]);
    destruct (savedError _); simpl;
    try (split; [ reflexivity | discriminate ]);
    destruct (More _); simpl;
    try (split; [ reflexivity | discriminate ]);
    (split; [ reflexivity | intros x H; inversion H; reflexivity ]).
Qed.

(** [UnmarshalInto] fills in, it does not start afresh.  A field of the
    destination that no member of the input names holds after the call what
    it held before, where [Unmarshal] would have left the zero value. *)
Theorem UnmarshalInto_keeps_unnamed_fields :
  forall (s : Schema) (data : string) (v : Reflect.StructValue)
         (ms : list (string * json)) (rest : string) (n : string),
    readValue data = ReadValue (JObject ms) rest ->
    (forall k j f, In (k, j) ms ->
                   fieldFor (targetType s) (unquote k) = Some f ->
                   Reflect.Name f <> n) ->
    Reflect.Field
      (fst (UnmarshalInto Type_String s data
              (Some (Reflect.PtrTo (Reflect.StructOf (targetType s)), v)))) n
    = Reflect.Field v n.
Proof.
  intros s data v ms rest n Hr Hms. rewrite UnmarshalInto_pointer, Hr.
  assert (H : Reflect.Field
                (target (unmarshal (targetType s) (strict s) (JObject ms) v)) n
              = Reflect.Field v n)
    by (simpl; rewrite (object_Field_untouched _ _ ms _ Hms); reflexivity).
  cbv zeta. destruct (savedError _); [ exact H | ].
  destruct (More _); exact H.
Qed.

End UnmarshalIntoProperties.


End Railguard.

(** * The theorems at concrete inputs *)

Import EncodingJSON.





Lemma strict_rejects_unknown_fields_witness :
  (exists e, Unmarshal foldRune_ks (mkSchema NameOnly true) (q "{'name':'x','extra':'y'}")
             = (None, Some e)) /\
  Unmarshal foldRune_ks (mkSchema NameOnly false) (q "{'name':'x','extra':'y'}")
  = (Some [("name", Reflect.VString "x")], None).
Proof.
  destruct (strict_rejects_unknown_fields foldRune_ks
              (Some (Reflect.PtrTo (Reflect.StructOf NameOnly)))
              (mkSchema NameOnly true) (q "{'name':'x','extra':'y'}") eq_refl)
    as (_ & Hstrict & Hlenient).
  split.
  - apply (Hstrict (JObject [("name", JString "x"); ("extra", JString "y")])
                   EmptyString "extra").
    + reflexivity.
    + simpl. tauto.
    + reflexivity.
  - apply Hlenient.
    exists [("name", JString "x"); ("extra", JString "y")], EmptyString.
    repeat split.
Defined.

Lemma Unmarshal_deterministic_witness :
  let s := mkSchema NameOnly true in
  let data := q "{'name':'x'}" in
  let h := [[("name", Reflect.VString "old")]] in
  Unmarshal_ptr foldRune_ks s data h
  = (Some 1%nat, None, h ++ [[("name", Reflect.VString "x")]])%list /\
  Unmarshal_ptr foldRune_ks s data (h ++ [[("name", Reflect.VString "x")]])%list
  = (Some 2%nat, None,
     (h ++ [[("name", Reflect.VString "x")]]) ++ [[("name", Reflect.VString "x")]])%list /\
  (1 <> 2)%nat /\
  exists v,
    load (h ++ [[("name", Reflect.VString "x")]])%list 1%nat = Some v /\
    load ((h ++ [[("name", Reflect.VString "x")]]) ++ [[("name", Reflect.VString "x")]])%list 1%nat
    = Some v /\
    load ((h ++ [[("name", Reflect.VString "x")]]) ++ [[("name", Reflect.VString "x")]])%list 2%nat
    = Some v.
Proof.
  cbv zeta. split; [ reflexivity | split; [ reflexivity | ] ].
  apply (proj2 (Unmarshal_deterministic foldRune_ks
                  (mkSchema NameOnly true) (mkSchema NameOnly true)
                  (q "{'name':'x'}") eq_refl eq_refl)
               [[("name", Reflect.VString "old")]]);
    reflexivity.
Defined.

Lemma strict_flag_before_schema_is_lost_witness :
  (exists s,
      option_map schema
        (fst (New (World := nat)
                (map option_of
                   ([CallWithClient (Some (constClient "ok")); CallWithStrictSchema false]
                    ++ CallWithSchema (Some (Reflect.PtrTo (Reflect.StructOf NameOnly)))
                    :: [CallWithMaxRetries 2])))) = Some (Some s) /\
      IsStrict s = true) /\
  (exists s,
      option_map schema
        (fst (New (World := nat)
                (map option_of
                   ([CallWithClient (Some (constClient "ok")); CallWithStrictSchema false]
                    ++ [CallWithSchema (Some (Reflect.PtrTo (Reflect.StructOf NameOnly)));
                        CallWithStrictSchema false])))) = Some (Some s) /\
      IsStrict s = false).
Proof.
  destruct (strict_flag_before_schema_is_lost foldRune_ks nat
              [CallWithClient (Some (constClient "ok")); CallWithStrictSchema false]
              [CallWithMaxRetries 2]
              (Some (Reflect.PtrTo (Reflect.StructOf NameOnly))))
    as [Hbefore Hafter].
  - simpl. right. left. reflexivity.
  - reflexivity.
  - split.
    + destruct (Hbefore _ eq_refl) as (s & Hs & Hstrict & _).
      exists s. split; [ simpl; rewrite <- Hs; reflexivity | exact Hstrict ].
    + destruct (Hafter _ eq_refl) as (s & Hs & Hstrict).
      exists s. split; [ simpl; rewrite <- Hs; reflexivity | exact Hstrict ].
Defined.

(** [WithStrictSchema(false)] stands before [WithSchema] in these arguments,
    and once more after it: the schema of the guard is not strict and takes
    an unknown field. *)
Lemma strict_flag_after_schema_applies :
  let opts :=
    map (option_of (World := nat))
      [CallWithClient (Some (constClient "ok"));
       CallWithStrictSchema false;
       CallWithSchema (Some (Reflect.PtrTo (Reflect.StructOf NameOnly)));
       CallWithStrictSchema false] in
  option_map schema (fst (New opts)) = Some (Some (mkSchema NameOnly false)) /\
  Unmarshal foldRune_ks (mkSchema NameOnly false) (q "{'name':'x','extra':'y'}")
    = (Some [("name", Reflect.VString "x")], None).
Proof. split; reflexivity. Qed.

Lemma Run_stops_at_first_detection_witness :
  let g := guardOf (constClient "should not reach here")
             [passDetector "domain"; blockDetector "keywords"; passDetector "role"]
             DefaultRetryConfig in
  let calls := [CallDetect "domain"; CallDetect "keywords"] in
  Run foldRune_ks nat clock draw timer_first g (caller 0) "ignore previous instructions"
      (mkState 0%nat []) =
    Some ((None, Some (DetectionError "keywords" (Some (errorString "prompt blocked")))),
          mkState 0%nat calls) /\
  ~ In CallGenerate calls /\
  (forall t, ~ In (Sleep t) calls) /\
  shouldRetry (Some (DetectionError "keywords" (Some (errorString "prompt blocked")))) = false.
Proof.
  apply (Run_stops_at_first_detection foldRune_ks nat clock draw timer_first
           (guardOf (constClient "should not reach here")
              [passDetector "domain"; blockDetector "keywords"; passDetector "role"]
              DefaultRetryConfig)
           (caller 0) "ignore previous instructions" (mkState 0%nat [])
           [passDetector "domain"] [passDetector "role"] (blockDetector "keywords")
           (errorString "prompt blocked") 0%nat 0%nat).
  - reflexivity.
  - apply (all_pass_cons nat _ _ 0%nat 0%nat 0%nat); [ reflexivity | apply all_pass_nil ].
  - reflexivity.
Defined.

Lemma Run_exhausts_retries_witness :
  exists tr,
    Run foldRune_ks nat clock draw timer_first (guardOf failingClient [] (noDelay 2)) (caller 0)
        "test" (mkState 0%nat []) =
    Some ((None,
           Some (MaxRetriesError 2
                   (Some (GenerationError (Some (errorString "temporary failure")))))),
          mkState 2%nat tr).
Proof.
  apply (Run_exhausts_retries foldRune_ks nat clock draw timer_first
           (guardOf failingClient [] (noDelay 2)) (caller 0) "test" (mkState 0%nat [])
           0%nat 1%nat 1%nat 2%nat
           (GenerationError (Some (errorString "temporary failure")))).
  - simpl. lia.
  - apply all_pass_nil.
  - apply (failing_next foldRune_ks nat draw timer_first _ _ _ 0%nat 0 0%nat 0%nat
             (GenerationError (Some (errorString "temporary failure"))) 1%nat 1%nat).
    + apply first_attempt. lia.
    + apply (generation_fails foldRune_ks nat _ _ _ failingClient 0%nat EmptyString); reflexivity.
    + reflexivity.
    + apply failing_none.
  - apply no_wait; [ simpl; lia | reflexivity ].
  - apply (generation_fails foldRune_ks nat _ _ _ failingClient 1%nat EmptyString); reflexivity.
  - reflexivity.
Defined.

Lemma Run_counts_attempts_witness :
  exists r tr,
    Run foldRune_ks nat clock draw timer_first (guardOf flakyClient [] DefaultRetryConfig) (caller 0)
        "test" (mkState 0%nat []) = Some ((Some r, None), mkState 3%nat tr) /\
    Attempts (Metadata_ r) = 3 /\
    Raw r = "success" /\
    Parsed r = None.
Proof.
  apply (Run_counts_attempts foldRune_ks nat clock draw timer_first
           (guardOf flakyClient [] DefaultRetryConfig) (caller 0) "test"
           (mkState 0%nat []) 3 0%nat 2%nat 2%nat 3%nat "success" None).
  - simpl. lia.
  - apply all_pass_nil.
  - apply (failing_next foldRune_ks nat draw timer_first _ _ _ 1%nat 0 0%nat 0%nat
             (GenerationError (Some (errorString "temporary failure"))) 1%nat 2%nat).
    + apply first_attempt. lia.
    + apply (generation_fails foldRune_ks nat _ _ _ flakyClient 0%nat EmptyString); reflexivity.
    + reflexivity.
    + apply (failing_next foldRune_ks nat draw timer_first _ _ _ 0%nat 1 1%nat 1%nat
               (GenerationError (Some (errorString "temporary failure"))) 2%nat 2%nat).
      * apply timer_fires; [ lia | vm_compute; discriminate | reflexivity ].
      * apply (generation_fails foldRune_ks nat _ _ _ flakyClient 1%nat EmptyString); reflexivity.
      * reflexivity.
      * apply failing_none.
  - apply timer_fires; [ lia | vm_compute; discriminate | reflexivity ].
  - apply (attempt_ok foldRune_ks nat _ _ _ flakyClient 2%nat "success" 3%nat 3%nat None).
    + reflexivity.
    + reflexivity.
    + apply all_pass_nil.
    + reflexivity.
Defined.


Lemma UnmarshalInto_keeps_unnamed_fields_witness :
  Reflect.Field
    (fst (UnmarshalInto foldRune_ks (fun _ => "T") (mkSchema testResponse true)
            (q "{'result': 'ok'}")
            (Some (Reflect.PtrTo (Reflect.StructOf testResponse),
                   [("result", Reflect.VString "old"); ("count", Reflect.VInt 7);
                    ("success", Reflect.VBool true)])))) "count"
  = Some (Reflect.VInt 7).
Proof.
  apply (UnmarshalInto_keeps_unnamed_fields foldRune_ks (fun _ => "T") (mkSchema testResponse true)
           (q "{'result': 'ok'}")
           [("result", Reflect.VString "old"); ("count", Reflect.VInt 7);
            ("success", Reflect.VBool true)]
           [("result", JString "ok")] EmptyString "count" eq_refl).
  intros k j f [E | []] Hf. inversion E. subst. inversion Hf. discriminate.
Defined.

(** ** The properties above, on the test doubles *)


Lemma Run_result_witness :
  let g := guardOf flakyClient [passDetector "domain"] (noDelay 3) in
  let res := mkResult "success" None (mkMetadata 3 3000000) in
  @None error = None /\
  parseSchema foldRune_ks g (Raw res) = (Parsed res, None) /\
  (schema g = None -> Parsed res = None) /\
  1 <= Attempts (Metadata_ res) <= MaxAttempts (retry g) /\
  (exists evs,
      [CallDetect "domain"; CallGenerate; CallGenerate; CallGenerate] = ([] ++ evs)%list /\
      Z.of_nat (generations evs) = Attempts (Metadata_ res)) /\
  Duration (Metadata_ res) = clock 3 - clock 0.
Proof.
  apply (Run_result foldRune_ks nat clock draw timer_first
           (guardOf flakyClient [passDetector "domain"] (noDelay 3)) (caller 0) "test"
           (mkState 0%nat [])
           (mkState 3%nat [CallDetect "domain"; CallGenerate; CallGenerate; CallGenerate])
           (mkResult "success" None (mkMetadata 3 3000000)) None).
  reflexivity.
Defined.

Lemma Run_errors_witness :
  let g := guardOf failingClient [] (noDelay 2) in
  let e := MaxRetriesError 2
             (Some (GenerationError (Some (errorString "temporary failure")))) in
  @None Result = None /\
  ((exists d cause,
       In d (detectors g) /\ e = DetectionError (Detector_Name d) (Some cause))
   \/ (exists x evs,
          e = MaxRetriesError (MaxAttempts (retry g)) (Some x) /\
          isStageError x = true /\ shouldRetry (Some x) = true /\
          [CallGenerate; CallGenerate] = ([] ++ evs)%list /\
          Z.of_nat (generations evs) = MaxAttempts (retry g))
   \/ (e = MaxRetriesError (MaxAttempts (retry g)) None /\ MaxAttempts (retry g) < 1)
   \/ (isStageError e = true /\ shouldRetry (Some e) = false)
   \/ (exists d w w', timer_first (run_context g (caller 0)) d w = (Some e, w'))).
Proof.
  apply (Run_errors foldRune_ks nat clock draw timer_first
           (guardOf failingClient [] (noDelay 2)) (caller 0) "test"
           (mkState 0%nat []) (mkState 2%nat [CallGenerate; CallGenerate]) None
           (MaxRetriesError 2
              (Some (GenerationError (Some (errorString "temporary failure")))))).
  reflexivity.
Defined.

Lemma Run_stops_at_fatal_failure_witness :
  exists tr,
    Run foldRune_ks nat clock draw timer_first (guardOf cancelledClient [] (shortDelay 3)) (caller 0)
        "test" (mkState 0%nat []) =
    Some ((None, Some (GenerationError (Some context_Canceled))), mkState 1%nat tr).
Proof.
  apply (Run_stops_at_fatal_failure foldRune_ks nat clock draw timer_first
           (guardOf cancelledClient [] (shortDelay 3)) (caller 0) "test"
           (mkState 0%nat []) 1 0%nat 0%nat 0%nat 1%nat
           (GenerationError (Some context_Canceled))).
  - simpl. lia.
  - apply all_pass_nil.
  - apply failing_none.
  - apply first_attempt. lia.
  - apply (generation_fails foldRune_ks nat _ _ _ cancelledClient 0%nat EmptyString); reflexivity.
  - reflexivity.
Defined.

Lemma Run_wait_cut_short_witness :
  exists tr,
    Run foldRune_ks nat clock draw done_first (guardOf failingClient [] (shortDelay 3)) (caller 0)
        "test" (mkState 0%nat []) =
    Some ((None, Some context_Canceled), mkState 1%nat (tr ++ [Sleep 1000000])) /\
    generations tr = 1%nat.
Proof.
  apply (Run_wait_cut_short foldRune_ks nat clock draw done_first
           (guardOf failingClient [] (shortDelay 3)) (caller 0) "test"
           (mkState 0%nat []) 1 0%nat 1%nat 1%nat context_Canceled).
  - simpl. lia.
  - apply all_pass_nil.
  - apply (failing_next foldRune_ks nat draw done_first _ _ _ 0%nat 0 0%nat 0%nat
             (GenerationError (Some (errorString "temporary failure"))) 1%nat 1%nat).
    + apply first_attempt. lia.
    + apply (generation_fails foldRune_ks nat _ _ _ failingClient 0%nat EmptyString); reflexivity.
    + reflexivity.
    + apply failing_none.
  - vm_compute. discriminate.
  - reflexivity.
Defined.

Lemma Run_MaxRetriesError_is_transient_witness :
  let last := Some (GenerationError (Some (errorString "temporary failure"))) in
  2 = MaxAttempts (retry (guardOf failingClient [] (noDelay 2))) /\
  errors_Is (MaxRetriesError 2 last) context_Canceled = false /\
  errors_Is (MaxRetriesError 2 last) context_DeadlineExceeded = false /\
  errors_As_DetectionError (MaxRetriesError 2 last) = None.
Proof.
  apply (Run_MaxRetriesError_is_transient foldRune_ks nat clock draw done_first
           (guardOf failingClient [] (noDelay 2)) (caller 0) "test"
           (mkState 0%nat []) (mkState 2%nat [CallGenerate; CallGenerate]) None).
  - intros c d w e w' H. inversion H. left. reflexivity.
  - reflexivity.
Defined.

Lemma New_collects_checks_witness :
  let cs := [CallWithDetectors [Some (passDetector "domain")];
             CallWithClient (Some (constClient "ok"));
             CallWithValidators [Some rejectValidator];
             CallWithDetectors [Some (blockDetector "keywords"); Some (passDetector "role")]] in
  let g := mkGuard (Some (constClient "ok"))
             [passDetector "domain"; blockDetector "keywords"; passDetector "role"]
             [rejectValidator] None DefaultRetryConfig 0 false in
  map Some (detectors g) = given_detectors cs /\
  map Some (validators g) = given_validators cs.
Proof.
  apply (New_collects_checks nat
           [CallWithDetectors [Some (passDetector "domain")];
            CallWithClient (Some (constClient "ok"));
            CallWithValidators [Some rejectValidator];
            CallWithDetectors [Some (blockDetector "keywords"); Some (passDetector "role")]]).
  reflexivity.
Defined.

Lemma New_guard_runs_witness :
  let g := mkGuard (Some flakyClient) [] [] None
             (mkRetryConfig 4 (100 * Millisecond) (5 * Second) 2 (1 # 10)) Second false in
  RetryConfig_Validate (retry g) = None /\
  0 <= timeout g /\
  exists r s',
    Run foldRune_ks nat clock draw timer_first g (caller 0) "test" (mkState 0%nat []) = Some (r, s') /\
    terminal r.
Proof.
  destruct (New_guard_runs foldRune_ks nat clock draw timer_first
              [CallWithClient (Some flakyClient); CallWithMaxRetries 4;
               CallWithTimeout Second]
              (mkGuard (Some flakyClient) [] [] None
                 (mkRetryConfig 4 (100 * Millisecond) (5 * Second) 2 (1 # 10)) Second false)
              eq_refl) as (Hv & Ht & Hrun).
  split; [ exact Hv | split; [ exact Ht | ] ].
  exact (Hrun (caller 0) "test" (mkState 0%nat [])).
Defined.

Lemma Unmarshal_has_target_type_witness :
  hasType testResponse
    [("result", Reflect.VString "ok"); ("count", Reflect.VInt 42);
     ("success", Reflect.VBool false)].
Proof.
  apply (Unmarshal_has_target_type foldRune_ks (mkSchema testResponse true)
           (q "{'result': 'ok', 'count': 42}")).
  reflexivity.
Defined.

Lemma Unmarshal_strict_implies_lenient_witness :
  Unmarshal foldRune_ks (WithStrict (mkSchema testResponse true) false)
    (q "{'result': 'ok', 'count': 42}")
  = (Some [("result", Reflect.VString "ok"); ("count", Reflect.VInt 42);
           ("success", Reflect.VBool false)], None).
Proof.
  apply (Unmarshal_strict_implies_lenient foldRune_ks (mkSchema testResponse true)).
  reflexivity.
Defined.

Lemma Unmarshal_members_fit_witness :
  fits Reflect.KInt (JNumber "42") = true.
Proof.
  apply (Unmarshal_members_fit foldRune_ks (mkSchema testResponse true)
           (q "{'result': 'ok', 'count': 42}")
           [("result", Reflect.VString "ok"); ("count", Reflect.VInt 42);
            ("success", Reflect.VBool false)]
           [("result", JString "ok"); ("count", JNumber "42")] EmptyString
           eq_refl eq_refl "count" (JNumber "42") (Reflect.mkField "count" Reflect.KInt)).
  - simpl. right. left. reflexivity.
  - reflexivity.
Defined.

Lemma Unmarshal_absent_field_is_zero_witness :
  Reflect.Field
    [("result", Reflect.VString "ok"); ("count", Reflect.VInt 42);
     ("success", Reflect.VBool false)] "success"
  = Some (Reflect.Zero Reflect.KBool).
Proof.
  apply (Unmarshal_absent_field_is_zero foldRune_ks (mkSchema testResponse true)
           (q "{'result': 'ok', 'count': 42}")
           [("result", Reflect.VString "ok"); ("count", Reflect.VInt 42);
            ("success", Reflect.VBool false)]
           [("result", JString "ok"); ("count", JNumber "42")] EmptyString
           (Reflect.mkField "success" Reflect.KBool) eq_refl eq_refl eq_refl).
  intros k j f' [E | [E | []]] Hf; inversion E; subst; inversion Hf; discriminate.
Defined.

Lemma Unmarshal_leading_space_witness :
  Unmarshal foldRune_ks (mkSchema NameOnly true) (String "010" "  " ++ q "{'name':'x'}")
  = Unmarshal foldRune_ks (mkSchema NameOnly true) (q "{'name':'x'}").
Proof.
  apply (Unmarshal_leading_space foldRune_ks (mkSchema NameOnly true) (String "010" "  ")).
  reflexivity.
Defined.

Lemma Unmarshal_blank_input_witness :
  Unmarshal foldRune_ks (mkSchema NameOnly true) (String "009" " ")
  = (None, Some (wrapError "failed to unmarshal JSON: %w" io_EOF)) /\
  shouldRetry (Some (SchemaError (Some (wrapError "failed to unmarshal JSON: %w" io_EOF))))
  = true.
Proof.
  apply (Unmarshal_blank_input foldRune_ks (mkSchema NameOnly true) (String "009" " ")).
  reflexivity.
Defined.

Lemma Unmarshal_after_the_value_witness :
  Unmarshal foldRune_ks (mkSchema NameOnly true) (q "{'name':'x'}" ++ " and more")
  = (None, Some (errorString "trailing data after JSON")).
Proof.
  apply (Unmarshal_after_the_value foldRune_ks (mkSchema NameOnly true) (q "{'name':'x'}")
           [("name", JString "x")] [("name", Reflect.VString "x")] " and more").
  - reflexivity.
  - reflexivity.
Defined.

Lemma Run_result_passed_validators_witness :
  exists w w',
    Validate (MaxLength_Validator background (NewMaxLength 5)) (caller 0) "hello" w
    = (None, w').
Proof.
  apply (Run_result_passed_validators foldRune_ks nat clock draw timer_first
           (mkGuard (Some (constClient "hello")) []
              [MaxLength_Validator background (NewMaxLength 5)] None (noDelay 1) 0 false)
           (caller 0) "test" (mkState 0%nat [])
           (mkState 1%nat [CallGenerate; CallValidate "maxlength"])
           (mkResult "hello" None (mkMetadata 1 1000000)) None).
  - reflexivity.
  - left. reflexivity.
Defined.

Lemma LengthRange_empty_witness :
  exists e,
    LengthRange_Validate background (NewLengthRange 10 5) (caller 0) "1234567" 0%nat
    = Some e.
Proof.
  apply (LengthRange_empty nat background (NewLengthRange 10 5) (caller 0) "1234567" 0%nat).
  simpl. lia.
Defined.

Lemma Run_result_within_MaxLength_witness :
  len "hello" <= 5.
Proof.
  apply (Run_result_within_MaxLength foldRune_ks nat background clock draw timer_first
           (mkGuard (Some (constClient "hello")) []
              [MaxLength_Validator background (NewMaxLength 5)] None (noDelay 1) 0 false)
           (caller 0) "test" (mkState 0%nat [])
           (mkState 1%nat [CallGenerate; CallValidate "maxlength"])
           (mkResult "hello" None (mkMetadata 1 1000000)) None (NewMaxLength 5)).
  - reflexivity.
  - left. reflexivity.
Defined.

Lemma Keywords_detects_in_any_case_witness :
  (exists e,
      Keywords_Detect nat background (fun s => s) (fun s => s)
        (NewKeywords (fun s => s) ["custom"; "secret"]) (caller 0) "CUSTOM is here" 0%nat
      = Some e)
  <->
  exists kw pre hit post,
    In kw ["custom"; "secret"] /\
    "CUSTOM is here" = pre ++ hit ++ post /\
    Strings.lowerASCII hit = strings_ToLower (fun s => s) kw.
Proof.
  apply (Keywords_detects_in_any_case nat background (fun s => s) (fun s => s)
           ["custom"; "secret"] (caller 0) "CUSTOM is here" 0%nat).
  - reflexivity.
  - reflexivity.
Defined.

Lemma Keywords_WithKeywords_only_adds_witness :
  Keywords_Detect nat background (fun s => s) (fun s => s)
    (Keywords_WithKeywords (fun s => s) (NewKeywords (fun s => s) ["first"]) ["second"])
    (caller 0) "first keyword" 0%nat
  = Some (errorString ("detected suspicious keyword: " ++ q "'first'")).
Proof.
  apply (Keywords_WithKeywords_only_adds nat background (fun s => s) (fun s => s)
           (NewKeywords (fun s => s) ["first"]) ["second"] (caller 0) "first keyword"
           0%nat).
  reflexivity.
Defined.

Lemma Domain_blocked_before_allowed_witness :
  exists e,
    Domain_Detect nat background (fun s => s) (fun s => s) (fun s => s) (fun s => s)
      unit (fun _ _ => EmptyString)
      (NewDomain unit "invoices"
         [WithAllowedKeywords (fun s => s) unit ["invoice"];
          WithBlockedKeywords (fun s => s) unit ["Weather"];
          WithRequireAllowed unit true])
      (caller 0) ("the " ++ "WEATHER" ++ " on my invoice") 0%nat
    = Some e.
Proof.
  apply (Domain_blocked_before_allowed nat background (fun s => s) (fun s => s)
           (fun s => s) (fun s => s) unit (fun _ _ => EmptyString)
           (NewDomain unit "invoices"
              [WithAllowedKeywords (fun s => s) unit ["invoice"];
               WithBlockedKeywords (fun s => s) unit ["Weather"];
               WithRequireAllowed unit true])
           (caller 0) 0%nat "weather" "the " "WEATHER" " on my invoice").
  - reflexivity.
  - left. reflexivity.
  - reflexivity.
  - reflexivity.
Defined.

Lemma JSON_Validate_reads_whole_output_witness :
  let output := String "010" (q "{'name':'x'} ") in
  exists v rest,
    readValue output = ReadValue v rest /\
    nonSpace rest = false /\
    (requireObject (RequireObject NewJSON) = true -> exists ms, v = JObject ms) /\
    (requireArray (RequireObject NewJSON) = true -> exists es, v = JArray es) /\
    forall s : Schema,
      Unmarshal foldRune_ks s output =
      let d := unmarshal foldRune_ks (targetType s) (strict s) v (Reflect.New (targetType s)) in
      match savedError d with
      | Some e => (None, Some (wrapError "failed to unmarshal JSON: %w" e))
      | None => (Some (target d), None)
      end.
Proof.
  apply (JSON_Validate_reads_whole_output foldRune_ks nat background (fun s => s) (fun s => s)
           (fun s => s) (fun _ => true) (RequireObject NewJSON) (caller 0)
           (String "010" (q "{'name':'x'} ")) 0%nat).
  reflexivity.
Defined.

Lemma Run_result_is_one_JSON_value_witness :
  exists v rest,
    readValue (q "{'name':'x'}") = ReadValue v rest /\ nonSpace rest = false.
Proof.
  apply (Run_result_is_one_JSON_value foldRune_ks nat background (fun s => s) (fun s => s)
           (fun s => s) (fun _ => true) clock draw timer_first
           (mkGuard (Some (constClient (q "{'name':'x'}"))) []
              [JSON_Validator nat background (fun s => s) (fun s => s) (fun s => s)
                 (fun _ => true) NewJSON]
              (Some (mkSchema NameOnly true)) (noDelay 1) 0 false)
           (caller 0) "test" (mkState 0%nat [])
           (mkState 1%nat [CallGenerate; CallValidate "json"])
           (mkResult (q "{'name':'x'}") (Some [("name", Reflect.VString "x")])
              (mkMetadata 1 1000000)) None NewJSON).
  - reflexivity.
  - left. reflexivity.
Defined.
